(** * TBFSBS: Text-Based Format for Storing Biological Sequences

    A shallow embedding of [parse.py]: the record class [TBFSBS_Record], the
    collection class [TBFSBS] with its [parse] and [write] methods, and the
    parts of the Python runtime they call ([str] methods, [float], [round],
    [textwrap.fill]).

    Conventions.
    - A Python [str] is a [string]; its characters are the code points below
      256, and the character classes ([str.isspace], the regular expression
      classes of [textwrap]) are the ones Python has on that range.
    - A Python [float] is a binary64 value, a [spec_float] with precision 53
      and maximal exponent 1024.
    - An exception is a value of [exn]; a method that may raise returns a
      [result]. *)

From Stdlib Require Import ZArith NArith List String Ascii Bool Lia.
From Stdlib Require Import Floats.SpecFloat DecimalString.
From Stdlib Require DecimalN.
Import ListNotations.

Local Open Scope string_scope.

(** ** Exceptions *)

Inductive exn : Type :=
  | IndexError
  | UnboundLocalError
  | ValueError
  | TypeError
  | AttributeError
  | OverflowError.

Inductive result (A : Type) : Type :=
  | Ok (a : A)
  | Raise (e : exn).

Arguments Ok {A} a.
Arguments Raise {A} e.

Definition bind {A B : Type} (r : result A) (k : A -> result B) : result B :=
  match r with
  | Ok a => k a
  | Raise e => Raise e
  end.

Notation "x <- r ;; k" := (bind r (fun x => k))
  (at level 61, r at next level, right associativity).

(** ** The [str] methods the program uses *)

Module Str.

Definition LF : ascii := "010"%char.
Definition CR : ascii := "013"%char.
Definition TAB : ascii := "009"%char.
Definition SP : ascii := " "%char.

(** The one-character string holding a line feed. *)
Definition nl : string := String LF "".

Definition ord (c : ascii) : N := N_of_ascii c.

(** [str.isspace] on one character: the code points below 256 that Python
    classes as whitespace are 9..13, 28..32, 133 and 160. *)
Definition isspace (c : ascii) : bool :=
  let n := ord c in
  (((9 <=? n) && (n <=? 13)) || ((28 <=? n) && (n <=? 32))
   || (n =? 133) || (n =? 160))%N.

Fixpoint all (p : ascii -> bool) (s : string) : bool :=
  match s with
  | "" => true
  | String c s' => p c && all p s'
  end.

Fixpoint rev (s : string) : string :=
  match s with
  | "" => ""
  | String c s' => rev s' ++ String c ""
  end.

(** [s.startswith(p)] *)
Fixpoint startswith (s p : string) : bool :=
  match p with
  | "" => true
  | String c p' =>
    match s with
    | "" => false
    | String d s' => Ascii.eqb c d && startswith s' p'
    end
  end.

(** [s.split()]: the maximal runs of non-whitespace characters, in order.
    [word] holds the characters of the run being scanned, last one first. *)
Fixpoint split_from (word : string) (s : string) : list string :=
  match s with
  | "" => match word with "" => [] | _ => [rev word] end
  | String c s' =>
    if isspace c then
      match word with
      | "" => split_from "" s'
      | _ => rev word :: split_from "" s'
      end
    else split_from (String c word) s'
  end.

Definition split (s : string) : list string := split_from "" s.

(** [s] without its trailing, or leading, characters of class [p]. *)
Fixpoint rstrip_by (p : ascii -> bool) (s : string) : string :=
  match s with
  | "" => ""
  | String c s' =>
    match rstrip_by p s' with
    | "" => if p c then "" else String c ""
    | r => String c r
    end
  end.

Fixpoint lstrip_by (p : ascii -> bool) (s : string) : string :=
  match s with
  | "" => ""
  | String c s' => if p c then lstrip_by p s' else s
  end.

(** [s.rstrip()] and [s.strip()] *)
Definition rstrip (s : string) : string := rstrip_by isspace s.

Definition strip (s : string) : string := rstrip_by isspace (lstrip_by isspace s).

(** [sep.join(l)] *)
Fixpoint join (sep : string) (l : list string) : string :=
  match l with
  | [] => ""
  | [x] => x
  | x :: l' => x ++ sep ++ join sep l'
  end.

(** [s[:n]] and [s[n:]] for [0 <= n] *)
Fixpoint take (n : nat) (s : string) : string :=
  match n, s with
  | S n', String c s' => String c (take n' s')
  | _, _ => ""
  end.

Fixpoint drop (n : nat) (s : string) : string :=
  match n, s with
  | S n', String _ s' => drop n' s'
  | _, _ => s
  end.

(** [s[:-1]] *)
Fixpoint drop_last (s : string) : string :=
  match s with
  | "" => ""
  | String c "" => ""
  | String c s' => String c (drop_last s')
  end.

(** [str(n)] for a non-negative [int] *)
Definition of_nat (n : nat) : string := NilZero.string_of_uint (Nat.to_uint n).

End Str.

(** ** Reading a text file line by line *)

Module File.
Import Str.

(** [open(path)] reads in universal-newlines mode: ["\r\n"] and a lone
    ["\r"] both reach the program as ["\n"]. *)
Fixpoint universal_newlines (s : string) : string :=
  match s with
  | "" => ""
  | String c s' =>
    if Ascii.eqb c CR then
      match s' with
      | String d _ =>
        if Ascii.eqb d LF then universal_newlines s'
        else String LF (universal_newlines s')
      | "" => String LF ""
      end
    else String c (universal_newlines s')
  end.

(** Iterating over the file yields its lines, each with its terminating
    ["\n"]; a last line without one is yielded as it is.  [cur] holds the
    line being scanned, last character first. *)
Fixpoint lines_from (cur : string) (s : string) : list string :=
  match s with
  | "" => match cur with "" => [] | _ => [rev cur] end
  | String c s' =>
    if Ascii.eqb c LF then rev (String c cur) :: lines_from "" s'
    else lines_from (String c cur) s'
  end.

Definition rows (content : string) : list string :=
  lines_from "" (universal_newlines content).

End File.

(** ** Python [float]: binary64 values, their literals and their [repr] *)

Module Float.
Import Str.

Definition prec : Z := 53.
Definition emax : Z := 1024.

Definition float : Type := spec_float.

Definition zero : float := S754_zero false.

(** The binary64 value nearest to [(-1)^neg * m * 10^e], ties to even (what
    C's [strtod] returns for the decimal numeral). *)
Definition of_decimal (neg : bool) (m : Z) (e : Z) : float :=
  match m with
  | Z0 => S754_zero neg
  | Zpos p =>
    if (0 <=? e)%Z then
      match (Zpos p * 10 ^ e)%Z with
      | Zpos q => binary_round prec emax neg q 0
      | _ => S754_nan
      end
    else
      let '(q, e', l) :=
        SFdiv_core_binary prec emax (Zpos p) 0 (10 ^ (- e))%Z 0 in
      binary_round_aux prec emax neg q e' l
  | Zneg _ => S754_nan
  end.

Definition is_digit (c : ascii) : bool := ((48 <=? ord c) && (ord c <=? 57))%N.

Definition digit_val (c : ascii) : Z := (Z.of_N (ord c) - 48)%Z.

(** ASCII lower case, as [Py_TOLOWER]. *)
Definition tolower (c : ascii) : ascii :=
  if ((65 <=? ord c) && (ord c <=? 90))%N then ascii_of_N (ord c + 32) else c.

Fixpoint lower (s : string) : string :=
  match s with
  | "" => ""
  | String c s' => String (tolower c) (lower s')
  end.

(** A maximal run of decimal digits at the head of [s]: its value on top of
    [acc], how many digits it has on top of [n], and what follows it. *)
Fixpoint digits (acc : Z) (n : nat) (s : string) : Z * nat * string :=
  match s with
  | String c s' =>
    if is_digit c then digits (10 * acc + digit_val c)%Z (S n) s'
    else (acc, n, s)
  | "" => (acc, n, s)
  end.

(** Underscores are allowed between two digits only; they are removed
    before the numeral is read.  [prev] is the character before [s]. *)
Fixpoint underscores (prev : ascii) (s : string) : option string :=
  match s with
  | "" => if Ascii.eqb prev "_" then None else Some ""
  | String c s' =>
    if Ascii.eqb c "_" then
      if is_digit prev then underscores c s' else None
    else if Ascii.eqb prev "_" && negb (is_digit c) then None
    else option_map (String c) (underscores c s')
  end.

Definition sign (s : string) : bool * string :=
  match s with
  | String "-" s' => (true, s')
  | String "+" s' => (false, s')
  | _ => (false, s)
  end.

(** The exponent part of a numeral: ["e"] or ["E"], an optional sign and at
    least one digit, up to the end of the string.  An absent exponent is 0. *)
Definition exponent (s : string) : option Z :=
  match s with
  | "" => Some 0%Z
  | String c s' =>
    if Ascii.eqb (tolower c) "e" then
      let '(neg, t) := sign s' in
      match digits 0 0 t with
      | (v, S _, "") => Some (if neg then (- v)%Z else v)
      | _ => None
      end
    else None
  end.

(** An unsigned decimal numeral [digits [. digits] [exponent]] with at least
    one digit before the exponent: the integer [m] and power [e] such that
    the numeral denotes [m * 10^e]. *)
Definition numeral (s : string) : option (Z * Z) :=
  let '(m1, n1, s1) := digits 0 0 s in
  let '(m2, n2, s2) :=
    match s1 with
    | String "." t => let '(m, n, r) := digits m1 0 t in (m, n, r)
    | _ => (m1, 0%nat, s1)
    end in
  match (n1 + n2)%nat with
  | O => None
  | S _ =>
    match exponent s2 with
    | Some x => Some (m2, (x - Z.of_nat n2)%Z)
    | None => None
    end
  end.

(** The whitespace [float] ignores around a numeral: C's [isspace] and the
    whitespace above code point 127; the separators 28..31 are not in it. *)
Definition float_space (c : ascii) : bool :=
  isspace c && negb ((28 <=? ord c) && (ord c <=? 31))%N.

(** [float(s)]; [None] stands for the [ValueError] it raises. *)
Definition of_string (s : string) : option float :=
  match underscores "000" (rstrip_by float_space (lstrip_by float_space s)) with
  | None => None
  | Some t =>
    let '(neg, u) := sign t in
    match numeral u with
    | Some (m, e) => Some (of_decimal neg m e)
    | None =>
      let v := lower u in
      if String.eqb v "inf" || String.eqb v "infinity" then
        Some (S754_infinity neg)
      else if String.eqb v "nan" then Some S754_nan
      else None
    end
  end.

(** [bool(x)]: every float but the two zeros is true. *)
Definition truthy (x : float) : bool :=
  match x with
  | S754_zero _ => false
  | _ => true
  end.

(** *** [repr]

    [repr(x)] prints the shortest decimal numeral that [float] reads back as
    [x], the one nearest to [x] when there are several.  A positive finite
    [x = m * 2^e] is handled exactly, as the fraction [num / den]. *)

Definition num (m : positive) (e : Z) : Z :=
  (if 0 <=? e then Zpos m * 2 ^ e else Zpos m)%Z.

Definition den (e : Z) : Z := (if 0 <=? e then 1 else 2 ^ (- e))%Z.

(** [floor (x / 10^k)] *)
Definition scaled_floor (m : positive) (e k : Z) : Z :=
  (if 0 <=? k then num m e / (den e * 10 ^ k)
   else (num m e * 10 ^ (- k)) / den e)%Z.

(** [x < 10^p] *)
Definition lt_pow10 (m : positive) (e p : Z) : bool :=
  (if 0 <=? p then num m e <? den e * 10 ^ p
   else num m e * 10 ^ (- p) <? den e)%Z.

(** The position of the decimal point: the [p] with [10^(p-1) <= x < 10^p],
    searched upwards from a lower estimate made from the binary exponent. *)
Definition decpt (m : positive) (e : Z) : Z :=
  let b := (Zpos (digits2_pos m) + e)%Z in
  let p := ((b * 1233) / 4096 - 1)%Z in
  if lt_pow10 m e p then p
  else if lt_pow10 m e (p + 1) then (p + 1)%Z
  else if lt_pow10 m e (p + 2) then (p + 2)%Z
  else (p + 3)%Z.

Definition same (m : positive) (e : Z) (x : float) : bool :=
  match x with
  | S754_finite false m' e' => Pos.eqb m m' && Z.eqb e e'
  | _ => false
  end.

(** Of the two decimals [lo * 10^k <= x <= (lo + 1) * 10^k], the nearer to
    [x]; [lo] when [x] is half way and [lo] is even. *)
Definition nearer (m : positive) (e k lo : Z) : Z :=
  let twice_x_scaled := (if 0 <=? k then 2 * num m e else 2 * num m e * 10 ^ (- k))%Z in
  let middle := (if 0 <=? k then (2 * lo + 1) * 10 ^ k * den e
                 else (2 * lo + 1) * den e)%Z in
  match (twice_x_scaled ?= middle)%Z with
  | Lt => lo
  | Gt => (lo + 1)%Z
  | Eq => if Z.even lo then lo else (lo + 1)%Z
  end.

(** The digits of the shortest numeral, as an integer [d] and a power [k]
    with [x] read back from [d * 10^k]: numerals of [n], [n + 1], ... digits
    are tried, up to 17 digits, which always suffice. *)
Fixpoint shortest (fuel : nat) (n : Z) (m : positive) (e p : Z) : Z * Z :=
  let k := (p - n)%Z in
  let lo := scaled_floor m e k in
  let hi := (lo + 1)%Z in
  match fuel with
  | O => (nearer m e k lo, k)
  | S fuel' =>
    let ok_lo := same m e (of_decimal false lo k) in
    let ok_hi := same m e (of_decimal false hi k) in
    if ok_lo && ok_hi then (nearer m e k lo, k)
    else if ok_lo then (lo, k)
    else if ok_hi then (hi, k)
    else shortest fuel' (n + 1) m e p
  end.

(** [str(z)] for an [int] [0 <= z] *)
Definition of_Z (z : Z) : string := NilZero.string_of_uint (N.to_uint (Z.to_N z)).

Fixpoint zeros (n : nat) : string :=
  match n with
  | O => ""
  | S n' => String "0" (zeros n')
  end.

(** The significant digits of [x] and the position of its decimal point. *)
Definition shortest_digits (m : positive) (e : Z) : string * Z :=
  let '(d, k) := shortest 16 1 m e (decpt m e) in
  let ds := of_Z d in
  (rstrip_by (Ascii.eqb "0") ds, (Z.of_nat (String.length ds) + k)%Z).

(** The layout of [repr]: scientific notation when the decimal point is
    more than 16 places to the right of the first digit or more than 3
    zeros to its left, positional notation with at least one digit after
    the point otherwise. *)
Definition layout (ds : string) (dp : Z) : string :=
  let n := Z.of_nat (String.length ds) in
  if ((dp <=? -4) || (16 <? dp))%Z then
    let x := (dp - 1)%Z in
    let xs := of_Z (Z.abs x) in
    take 1 ds ++ (if (1 <? n)%Z then "." ++ drop 1 ds else "")
    ++ "e" ++ (if (x <? 0)%Z then "-" else "+")
    ++ (if (Z.abs x <? 10)%Z then "0" else "") ++ xs
  else if (dp <=? 0)%Z then "0." ++ zeros (Z.to_nat (- dp)) ++ ds
  else if (n <=? dp)%Z then ds ++ zeros (Z.to_nat (dp - n)) ++ ".0"
  else take (Z.to_nat dp) ds ++ "." ++ drop (Z.to_nat dp) ds.

(** [repr(x)], which is also [str(x)] and ["{}".format(x)]. *)
Definition repr (x : float) : string :=
  match x with
  | S754_nan => "nan"
  | S754_infinity s => if s then "-inf" else "inf"
  | S754_zero s => if s then "-0.0" else "0.0"
  | S754_finite s m e =>
    let '(ds, dp) := shortest_digits m e in
    (if s then "-" else "") ++ layout ds dp
  end.

(** *** [round]

    [round(x, ndigits)] for [0 <= ndigits]: the exact value of [x] is rounded
    to [ndigits] decimal places, ties to even, and the decimal obtained is
    read back as a float.  A zero, an infinity and a NaN round to
    themselves. *)
Definition round (x : float) (ndigits : nat) : float :=
  match x with
  | S754_finite s m e =>
    let n := (Zpos m * 10 ^ Z.of_nat ndigits)%Z in
    let r :=
      (if 0 <=? e then n * 2 ^ e
       else
         let d := 2 ^ (- e) in
         let q := n / d in
         let t := 2 * (n mod d) in
         if t <? d then q
         else if d <? t then q + 1
         else if Z.even q then q else q + 1)%Z in
    of_decimal s r (- Z.of_nat ndigits)
  | _ => x
  end.

End Float.

(** ** [textwrap.fill]

    The wrapper runs with the defaults of [TextWrapper]: tabs are expanded,
    every whitespace character becomes a space, long words are broken, also
    after hyphens, whitespace at the ends of a line is dropped, and there is
    no indentation and no limit on the number of lines. *)

Module textwrap.
Import Str.

(** The width is an [int], or [float("inf")] when no wrapping is asked for. *)
Inductive width : Type :=
  | Width (n : Z)
  | Inf.

(** [n <= w] and [n > w] for a length [n]. *)
Definition le_width (n : nat) (w : width) : bool :=
  match w with
  | Width z => (Z.of_nat n <=? z)%Z
  | Inf => true
  end.

Definition gt_width (n : nat) (w : width) : bool := negb (le_width n w).

(** The characters of [textwrap._whitespace]: tab, line feed, vertical tab,
    form feed, carriage return and space. *)
Definition whitespace (c : ascii) : bool :=
  (((9 <=? ord c) && (ord c <=? 13)) || (ord c =? 32))%N.

Fixpoint spaces (n : nat) : string :=
  match n with
  | O => ""
  | S n' => String SP (spaces n')
  end.

(** [s.expandtabs(tabsize)]; [col] is the column reached so far. *)
Fixpoint expandtabs (tabsize col : nat) (s : string) : string :=
  match s with
  | "" => ""
  | String c s' =>
    if Ascii.eqb c TAB then
      match tabsize with
      | O => expandtabs tabsize col s'
      | S _ =>
        let incr := tabsize - col mod tabsize in
        spaces incr ++ expandtabs tabsize (col + incr) s'
      end
    else if Ascii.eqb c LF || Ascii.eqb c CR then
      String c (expandtabs tabsize 0 s')
    else String c (expandtabs tabsize (S col) s')
  end.

(** [s.translate(unicode_whitespace_trans)] *)
Fixpoint translate (s : string) : string :=
  match s with
  | "" => ""
  | String c s' => String (if whitespace c then SP else c) (translate s')
  end.

Definition _munge_whitespace (text : string) : string :=
  translate (expandtabs 8 0 text).

(** *** The classes of [wordsep_re] *)

Definition between (lo hi : N) (c : ascii) : bool :=
  ((lo <=? ord c) && (ord c <=? hi))%N.

(** [\d] *)
Definition re_digit (c : ascii) : bool := between 48 57 c.

(** [\w]: letters, digits and other numeric characters, and the underscore. *)
Definition re_word (c : ascii) : bool :=
  between 48 57 c || between 65 90 c || between 95 95 c || between 97 122 c
  || between 170 170 c || between 178 179 c || between 181 181 c
  || between 185 186 c || between 188 190 c || between 192 214 c
  || between 216 246 c || between 248 255 c.

(** [letter = [^\d\W]] *)
Definition letter (c : ascii) : bool := re_word c && negb (re_digit c).

(** [word_punct]: a word character or one of the seven punctuation marks
    exclamation mark, double quote, ampersand, apostrophe, comma, full stop
    and question mark. *)
Definition word_punct (c : ascii) : bool :=
  re_word c || between 33 34 c || between 38 39 c || between 44 44 c
  || between 46 46 c || between 63 63 c.

Definition hyphen (c : ascii) : bool := Ascii.eqb c "-".

(** The character [i] places into [s], if [s] is that long, is of class [p]. *)
Definition at_is (p : ascii -> bool) (i : nat) (s : string) : bool :=
  match String.get i s with
  | Some c => p c
  | None => false
  end.

(** The length of the run of characters of class [p] at the head of [s]. *)
Fixpoint run (p : ascii -> bool) (s : string) : nat :=
  match s with
  | String c s' => if p c then S (run p s') else 0
  | "" => 0
  end.

(** [(?=-{2,}\w)]: two hyphens or more, then a word character. *)
Definition emdash_ahead (s : string) : bool :=
  let n := run hyphen s in
  (2 <=? n)%nat && at_is re_word n s.

(** The third alternative of [wordsep_re], a word: [nws+?] takes as few
    characters as it can before one of the three ways a word ends.  With at
    least one character taken, [word_end prev s] is how many more the match
    takes; [prev] is the text before [s], last character first.

    - a hyphen after two letters, or after letter, hyphen, letter, and before
      letter, letter or letter, hyphen, letter: the match takes the hyphen;
    - whitespace or the end of the text;
    - after a [word_punct] and before an em-dash. *)
Fixpoint word_end (prev s : string) : nat :=
  match s with
  | "" => 0
  | String c s' =>
    if hyphen c
       && ((at_is letter 0 prev && at_is letter 1 prev)
           || (at_is letter 0 prev && at_is hyphen 1 prev && at_is letter 2 prev))
       && (at_is letter 0 s'
           && ((at_is hyphen 1 s' && at_is letter 2 s') || at_is letter 1 s'))
    then 1
    else if whitespace c then 0
    else if at_is word_punct 0 prev && emdash_ahead s then 0
    else S (word_end (String c prev) s')
  end.

(** The length of the match of [wordsep_re] at the head of [s]: a run of
    whitespace, or an em-dash between words, or a word. *)
Definition match_len (prev s : string) : nat :=
  match s with
  | "" => 0
  | String c s' =>
    if whitespace c then run whitespace s
    else if at_is word_punct 0 prev && emdash_ahead s then run hyphen s
    else S (word_end (String c prev) s')
  end.

(** [wordsep_re.split(text)] without the empty strings: the matches follow
    one another from the start of the text to its end. *)
Fixpoint split_chunks (fuel : nat) (prev s : string) : list string :=
  match fuel, s with
  | S fuel', String _ _ =>
    let n := match_len prev s in
    let chunk := take n s in
    chunk :: split_chunks fuel' (rev chunk ++ prev) (drop n s)
  | _, _ => []
  end.

Definition _split (text : string) : list string :=
  split_chunks (String.length text) "" text.

Definition _split_chunks (text : string) : list string :=
  _split (_munge_whitespace text).

(** [s.rfind(c, 0, stop)]: the last index below [stop] where [s] has [c];
    [i] is the index of the head of [s]. *)
Fixpoint rfind (c : ascii) (i stop : nat) (s : string) : option nat :=
  match stop, s with
  | S stop', String d s' =>
    match rfind c (S i) stop' s' with
    | Some j => Some j
    | None => if Ascii.eqb d c then Some i else None
    end
  | _, _ => None
  end.

(** [chunk.strip() == ''] *)
Definition blank (chunk : string) : bool := all isspace chunk.

Definition total (chunks : list string) : nat :=
  fold_right (fun c n => String.length c + n) 0 chunks.

(** [_handle_long_word]: the head of [chunks] is longer than [width]; as
    much of it as fits goes onto the current line, ending after the last
    hyphen that fits if there is one with something else before it. *)
Definition _handle_long_word (chunks cur_line : list string)
    (cur_len : nat) (width : Z) : list string * list string :=
  match chunks with
  | [] => (chunks, cur_line)
  | chunk :: rest =>
    let space_left :=
      if (width <? 1)%Z then 1 else Z.to_nat (width - Z.of_nat cur_len) in
    let end_ :=
      if (space_left <? String.length chunk)%nat then
        match rfind "-" 0 space_left chunk with
        | Some (S h) =>
          if negb (all hyphen (take (S h) chunk)) then S (S h) else space_left
        | _ => space_left
        end
      else space_left in
    (drop end_ chunk :: rest, (cur_line ++ [take end_ chunk])%list)
  end.

(** The inner loop of [_wrap_chunks]: chunks go onto the current line as
    long as they fit. *)
Fixpoint take_fitting (w : width) (cur_line : list string) (cur_len : nat)
    (chunks : list string) : list string * nat * list string :=
  match chunks with
  | [] => (cur_line, cur_len, [])
  | chunk :: rest =>
    let l := String.length chunk in
    if le_width (cur_len + l) w then
      take_fitting w (cur_line ++ [chunk])%list (cur_len + l) rest
    else (cur_line, cur_len, chunks)
  end.

(** The first chunk of a line is dropped when it is blank, unless the line
    is the first one. *)
Definition drop_leading (chunks lines : list string) : list string :=
  match chunks, lines with
  | chunk :: rest, _ :: _ => if blank chunk then rest else chunks
  | _, _ => chunks
  end.

(** The line is full; when the next chunk is too long for any line, it is
    broken. *)
Definition break_long (w : width) (chunks cur_line : list string)
    (cur_len : nat) : list string * list string :=
  match chunks, w with
  | chunk :: _, Width z =>
    if gt_width (String.length chunk) w
    then _handle_long_word chunks cur_line cur_len z
    else (chunks, cur_line)
  | _, _ => (chunks, cur_line)
  end.

(** The last chunk of the line is dropped when it is blank. *)
Definition drop_trailing (cur_line : list string) : list string :=
  match List.rev cur_line with
  | last :: before => if blank last then List.rev before else cur_line
  | [] => cur_line
  end.

(** The line, if anything is left of it, joins the lines made so far. *)
Definition emit (lines cur_line : list string) : list string :=
  match cur_line with
  | [] => lines
  | _ :: _ => (lines ++ [join "" cur_line])%list
  end.

(** One line of [_wrap_chunks]: the chunks left and the lines made. *)
Definition wrap_line (w : width) (chunks lines : list string)
    : list string * list string :=
  let chunks := drop_leading chunks lines in
  let '(cur_line, cur_len, chunks) := take_fitting w [] 0 chunks in
  let '(chunks, cur_line) := break_long w chunks cur_line cur_len in
  (chunks, emit lines (drop_trailing cur_line)).

(** The outer loop of [_wrap_chunks].  Every turn takes at least one
    character off the chunks, so that [fuel] above their total length is
    enough (lemma [wrap_loop_total]); [None] is for less fuel than that. *)
Fixpoint wrap_loop (fuel : nat) (w : width) (chunks lines : list string)
    : option (list string) :=
  match chunks with
  | [] => Some lines
  | _ :: _ =>
    match fuel with
    | O => None
    | S fuel' =>
      let '(chunks', lines') := wrap_line w chunks lines in
      wrap_loop fuel' w chunks' lines'
    end
  end.

(** [_wrap_chunks]: a width of 0 or less is refused.  The loop is given
    fuel that it never uses up on the chunks of a text (lemma
    [wrap_loop_total]), so that the case [None] below is never taken. *)
Definition _wrap_chunks (chunks : list string) (w : width)
    : result (list string) :=
  match w with
  | Width z =>
    if (z <=? 0)%Z then Raise ValueError
    else
      match wrap_loop (S (total chunks)) w chunks [] with
      | Some lines => Ok lines
      | None => Ok []
      end
  | Inf =>
    match wrap_loop (S (total chunks)) w chunks [] with
    | Some lines => Ok lines
    | None => Ok []
    end
  end.

(** [textwrap.wrap(text, width)] *)
Definition wrap (text : string) (w : width) : result (list string) :=
  _wrap_chunks (_split_chunks text) w.

(** [textwrap.fill(text, width)] *)
Definition fill (text : string) (w : width) : result string :=
  lines <- wrap text w ;;
  Ok (join nl lines).

End textwrap.

(** ** [class TBFSBS_Record] *)

Module TBFSBS_Record.
Import Str.

(** The four attributes; each is [None] until the constructor is given a
    value for it. *)
Record t : Type := {
  identifier : option string;
  target_value : option Float.float;
  description : option string;
  sequence : option string
}.

(** What [str.format] puts in place of a field that holds a [str] or
    [None]. *)
Definition format_str (v : option string) : string :=
  match v with
  | Some s => s
  | None => "None"
  end.

(** What [str.format] puts in place of a field that holds a [float] or
    [None]. *)
Definition format_float (v : option Float.float) : string :=
  match v with
  | Some x => Float.repr x
  | None => "None"
  end.

(** [len(x)] for an attribute that holds a [str] or [None]. *)
Definition len (v : option string) : result nat :=
  match v with
  | Some s => Ok (String.length s)
  | None => Raise TypeError
  end.

(** [__str__]: the four-line summary of the record. *)
Definition __str__ (self : t) : result string :=
  let value :=
    match target_value self with
    | Some x => if Float.truthy x then Some (Float.round x 1) else Some x
    | None => None
    end in
  seq_length <- len (sequence self) ;;
  Ok ("ID: " ++ format_str (identifier self) ++ nl
      ++ "Value: " ++ format_float value ++ nl
      ++ "Description: " ++ format_str (description self) ++ nl
      ++ "Sequence length: " ++ of_nat seq_length ++ nl).

End TBFSBS_Record.

(** ** [class TBFSBS] *)

Module TBFSBS.
Import Str.

(** The collection holds its records in the list [_list]. *)
Record t : Type := { _list : list TBFSBS_Record.t }.

Definition __init__ : t := {| _list := [] |}.

Definition __len__ (self : t) : nat := List.length (_list self).

(** [self[i]] for an index [0 <= i] *)
Definition __getitem__ (self : t) (i : nat) : result TBFSBS_Record.t :=
  match nth_error (_list self) i with
  | Some r => Ok r
  | None => Raise IndexError
  end.

Definition append (self : t) (value : TBFSBS_Record.t) : t :=
  {| _list := (_list self ++ [value])%list |}.

(** [__iter__], which the class has from [collections.abc.Sequence]: the
    items [self[0]], [self[1]], ... up to the first [IndexError]. *)
Fixpoint iter_from (fuel i : nat) (self : t) : list TBFSBS_Record.t :=
  match fuel with
  | O => []
  | S fuel' =>
    match __getitem__ self i with
    | Ok r => r :: iter_from fuel' (S i) self
    | Raise _ => []
    end
  end.

Definition __iter__ (self : t) : list TBFSBS_Record.t :=
  iter_from (S (__len__ self)) 0 self.

(** [self._list.extend(value)] for a collection [value] other than [self]:
    the items [value] yields are appended one by one. *)
Definition extend (self value : t) : t :=
  fold_left append (__iter__ value) self.

(** [__str__]: the summaries of the records, an empty line after each. *)
Fixpoint str_records (l : list TBFSBS_Record.t) (records_str : string)
    : result string :=
  match l with
  | [] => Ok records_str
  | record :: l' =>
    s <- TBFSBS_Record.__str__ record ;;
    str_records l' (records_str ++ s ++ nl)
  end.

Definition __str__ (self : t) : result string := str_records (_list self) "".

(** *** [parse] *)

(** The local variables of [parse].  [header] starts as the empty string
    and then holds lists of tokens; it is only ever tested for being empty,
    so that the empty list stands for the empty string.  The other four are
    unbound, [None] here, until a header line binds them; [target_value] is
    then bound to a float or to Python's [None]. *)
Module Locals.

Record t : Type := {
  header : list string;
  iD : option string;
  target_value : option (option Float.float);
  description : option string;
  seq : option string
}.

Definition init : t :=
  {| header := []; iD := None; target_value := None; description := None;
     seq := None |}.

(** Reading a local variable. *)
Definition read {A : Type} (v : option A) : result A :=
  match v with
  | Some a => Ok a
  | None => Raise UnboundLocalError
  end.

End Locals.

(** [record = TBFSBS_Record(iD, target_value, description, seq)] and
    [self.append(record)] *)
Definition flush (self : t) (fr : Locals.t) : result t :=
  iD <- Locals.read (Locals.iD fr) ;;
  target_value <- Locals.read (Locals.target_value fr) ;;
  description <- Locals.read (Locals.description fr) ;;
  seq <- Locals.read (Locals.seq fr) ;;
  Ok (append self
        {| TBFSBS_Record.identifier := Some iD;
           TBFSBS_Record.target_value := target_value;
           TBFSBS_Record.description := Some description;
           TBFSBS_Record.sequence := Some seq |}).

(** How one turn of the loop ends: with the collection and the local
    variables as they are now, or with an exception and the collection as it
    is when the exception leaves [parse]. *)
Inductive step : Type :=
  | Continue (self : t) (fr : Locals.t)
  | Stop (e : exn) (self : t).

(** The [try] block: [float(header[2])] raises when there is no third token
    or when it is no numeral, and either way the description starts at
    token 2. *)
Definition value_and_description (header : list string)
    : option Float.float * string :=
  match nth_error header 2 with
  | Some token =>
    match Float.of_string token with
    | Some x => (Some x, join " " (skipn 3 header))
    | None => (None, join " " (skipn 2 header))
    end
  | None => (None, join " " (skipn 2 header))
  end.

(** The body of the loop for one [row]. *)
Definition parse_row (self : t) (fr : Locals.t) (row : string) : step :=
  if startswith row "%" then
    let flushed :=
      match Locals.header fr with
      | [] => Ok self
      | _ :: _ => flush self fr
      end in
    match flushed with
    | Raise e => Stop e self
    | Ok self =>
      let header := split row in
      match nth_error header 1 with
      | None => Stop IndexError self
      | Some iD =>
        let '(target_value, description) := value_and_description header in
        Continue self
          {| Locals.header := header;
             Locals.iD := Some iD;
             Locals.target_value := Some target_value;
             Locals.description := Some description;
             Locals.seq := Some "" |}
      end
    end
  else
    match Locals.read (Locals.seq fr) with
    | Raise e => Stop e self
    | Ok seq =>
      Continue self
        {| Locals.header := Locals.header fr;
           Locals.iD := Locals.iD fr;
           Locals.target_value := Locals.target_value fr;
           Locals.description := Locals.description fr;
           Locals.seq := Some (seq ++ rstrip row) |}
    end.

(** How a call of [parse] ends. *)
Inductive outcome : Type :=
  | Returned (self : t)
  | Raised (e : exn) (self : t).

(** The [for] loop over the rows and its [else] clause, which runs when the
    rows are exhausted. *)
Fixpoint parse_rows (self : t) (fr : Locals.t) (rows : list string)
    : outcome :=
  match rows with
  | [] =>
    match flush self fr with
    | Ok self' => Returned self'
    | Raise e => Raised e self
    end
  | row :: rows' =>
    match parse_row self fr row with
    | Continue self' fr' => parse_rows self' fr' rows'
    | Stop e self' => Raised e self'
    end
  end.

(** [self.parse(input_file)], on the content of the file. *)
Definition parse (self : t) (content : string) : outcome :=
  parse_rows self Locals.init (File.rows content).

(** *** [write] *)

(** The text of one record: its header line and its wrapped sequence. *)
Definition write_record (record : TBFSBS_Record.t) (wrap : textwrap.width)
    : result string :=
  let value :=
    match TBFSBS_Record.target_value record with
    | Some x => if Float.truthy x then Float.repr x ++ " " else ""
    | None => ""
    end in
  sequence <-
    match TBFSBS_Record.sequence record with
    | Some s => textwrap.fill s wrap
    | None => Raise AttributeError
    end ;;
  Ok ("% " ++ TBFSBS_Record.format_str (TBFSBS_Record.identifier record)
      ++ " " ++ value
      ++ TBFSBS_Record.format_str (TBFSBS_Record.description record)
      ++ nl ++ sequence ++ nl).

Fixpoint write_records (l : list TBFSBS_Record.t) (wrap : textwrap.width)
    (records_str : string) : result string :=
  match l with
  | [] => Ok records_str
  | record :: l' =>
    s <- write_record record wrap ;;
    write_records l' wrap (records_str ++ s)
  end.

(** [self.write(output_file, wrap)]: the text given to
    [output_file.write]. *)
Definition write (self : t) (wrap : textwrap.width) : result string :=
  records_str <- write_records (_list self) wrap "" ;;
  Ok (drop_last records_str).

End TBFSBS.

(** ** Item access

    [__getitem__], [__setitem__], [__delitem__] and [insert] hand their
    index to the list [_list]; the index is any [int] here. *)

Module PyList.

(** The position an index stands for in a list of [n] items: a negative
    index counts from the end, and an index outside [-n .. n-1] stands for
    no position.  (An integer that does not fit a [Py_ssize_t] is such an
    index: subscription raises [IndexError] for it too.) *)
Definition position (n : nat) (i : Z) : option nat :=
  let i' := (if i <? 0 then i + Z.of_nat n else i)%Z in
  if ((0 <=? i') && (i' <? Z.of_nat n))%Z then Some (Z.to_nat i') else None.

(** [l[i]] *)
Definition getitem {A : Type} (l : list A) (i : Z) : result A :=
  match position (List.length l) i with
  | Some k =>
    match nth_error l k with
    | Some x => Ok x
    | None => Raise IndexError
    end
  | None => Raise IndexError
  end.

(** [l[i] = value] *)
Definition setitem {A : Type} (l : list A) (i : Z) (value : A)
    : result (list A) :=
  match position (List.length l) i with
  | Some k => Ok (firstn k l ++ value :: skipn (S k) l)%list
  | None => Raise IndexError
  end.

(** [del l[i]] *)
Definition delitem {A : Type} (l : list A) (i : Z) : result (list A) :=
  match position (List.length l) i with
  | Some k => Ok (firstn k l ++ skipn (S k) l)%list
  | None => Raise IndexError
  end.

(** [sys.maxsize], the largest [Py_ssize_t], on a 64-bit build; and the
    integers that fit a [Py_ssize_t]. *)
Definition maxsize : Z := 2 ^ 63 - 1.

Definition fits_ssize (i : Z) : bool :=
  ((- maxsize - 1 <=? i) && (i <=? maxsize))%Z.

(** Where [l.insert(i, value)] puts the value, for an index that fits a
    [Py_ssize_t]: a negative index counts from the end, and an index beyond
    either end stands for that end. *)
Definition insert_position (n : nat) (i : Z) : nat :=
  let i' := (if i <? 0 then Z.max 0 (i + Z.of_nat n) else i)%Z in
  Z.to_nat (Z.min i' (Z.of_nat n)).

(** [l.insert(i, value)]: the index is converted to a [Py_ssize_t] first,
    which raises [OverflowError] for an integer that does not fit; an index
    that fits is never refused.  (The list is shorter than [maxsize] items,
    as every list in memory is.) *)
Definition insert {A : Type} (l : list A) (i : Z) (value : A)
    : result (list A) :=
  if fits_ssize i then
    let k := insert_position (List.length l) i in
    Ok (firstn k l ++ value :: skipn k l)%list
  else Raise OverflowError.

End PyList.

Module Items.

Definition __getitem__ (self : TBFSBS.t) (i : Z) : result TBFSBS_Record.t :=
  PyList.getitem (TBFSBS._list self) i.

Definition __setitem__ (self : TBFSBS.t) (i : Z) (value : TBFSBS_Record.t)
    : result TBFSBS.t :=
  l <- PyList.setitem (TBFSBS._list self) i value ;;
  Ok {| TBFSBS._list := l |}.

Definition __delitem__ (self : TBFSBS.t) (i : Z) : result TBFSBS.t :=
  l <- PyList.delitem (TBFSBS._list self) i ;;
  Ok {| TBFSBS._list := l |}.

Definition insert (self : TBFSBS.t) (i : Z) (value : TBFSBS_Record.t)
    : result TBFSBS.t :=
  l <- PyList.insert (TBFSBS._list self) i value ;;
  Ok {| TBFSBS._list := l |}.

End Items.

(** ** Inputs and values used in the statements below *)

Module Examples.
Import Str.

(** The float 1.5, that is [6755399441055744 * 2^-52]. *)
Definition one_and_a_half : Float.float :=
  S754_finite false 6755399441055744 (-52).

Definition record (identifier : string) (target_value : option Float.float)
    (description sequence : string) : TBFSBS_Record.t :=
  {| TBFSBS_Record.identifier := Some identifier;
     TBFSBS_Record.target_value := target_value;
     TBFSBS_Record.description := Some description;
     TBFSBS_Record.sequence := Some sequence |}.

(** A file of two records, the second without a target value. *)
Definition two_records : string :=
  "% A 1.5 desc one" ++ nl ++ "ACGT" ++ nl ++ "ACGT" ++ nl
  ++ "% B desc two" ++ nl ++ "TTTT" ++ nl.


(** A file whose only header line is the marker alone. *)
Definition marker_only : string := "%" ++ nl.

(** A file that starts with a sequence line. *)
Definition body_first : string := "ACGT" ++ nl ++ "% A 1 d" ++ nl ++ "TT" ++ nl.

(** A file of one record whose target value is zero. *)
Definition zero_valued : string := "% A 0 d" ++ nl ++ "ACGT" ++ nl.

End Examples.

(** The rows of the loop of [parse] without its [else] clause: the state
    after the last of [rows], or the exception one of them raised. *)
Fixpoint run_rows (self : TBFSBS.t) (fr : TBFSBS.Locals.t)
    (rows : list string) : TBFSBS.step :=
  match rows with
  | [] => TBFSBS.Continue self fr
  | row :: rows' =>
    match TBFSBS.parse_row self fr row with
    | TBFSBS.Continue self' fr' => run_rows self' fr' rows'
    | TBFSBS.Stop e self' => TBFSBS.Stop e self'
    end
  end.

(** Once a header line has been read, the four variables a record is made
    of are bound. *)
Definition bound_after_header (fr : TBFSBS.Locals.t) : Prop :=
  TBFSBS.Locals.header fr <> [] ->
  exists iD target_value description seq,
    TBFSBS.Locals.iD fr = Some iD
    /\ TBFSBS.Locals.target_value fr = Some target_value
    /\ TBFSBS.Locals.description fr = Some description
    /\ TBFSBS.Locals.seq fr = Some seq.

(** A string without any character of [str.isspace]. *)
Definition nospace (s : string) : bool :=
  Str.all (fun c => negb (Str.isspace c)) s.

(** A width [textwrap] accepts: a positive integer, or infinity. *)
Definition positive_width (w : textwrap.width) : Prop :=
  match w with
  | textwrap.Width z => (1 <= z)%Z
  | textwrap.Inf => True
  end.

(** A line no longer than the width. *)
Definition within (w : textwrap.width) (line : string) : Prop :=
  textwrap.le_width (String.length line) w = true.

(** *** What [parse] makes and what [write] writes back

    A record made by [parse] has an identifier, a description that is a
    list of words put together with single spaces, and a sequence; they are
    the [fields] below. *)

(** A token of [str.split]: not empty, and without whitespace. *)
Definition token (t : string) : Prop := t <> "" /\ nospace t = true.

(** A string without carriage return. *)
Definition nocr (s : string) : bool :=
  Str.all (fun c => negb (Ascii.eqb c Str.CR)) s.

(** A string without line feed. *)
Definition nolf (s : string) : bool :=
  Str.all (fun c => negb (Ascii.eqb c Str.LF)) s.

(** A string that [textwrap] leaves as it is: of the six characters of
    [textwrap._whitespace] it has the space only. *)
Definition plain (s : string) : bool :=
  Str.all (fun c => negb (textwrap.whitespace c) || Ascii.eqb c Str.SP) s.

Record fields : Type := {
  f_id : string;
  f_value : option Float.float;
  f_words : list string;
  f_seq : string
}.

Definition record_of (f : fields) : TBFSBS_Record.t :=
  {| TBFSBS_Record.identifier := Some (f_id f);
     TBFSBS_Record.target_value := f_value f;
     TBFSBS_Record.description := Some (Str.join " " (f_words f));
     TBFSBS_Record.sequence := Some (f_seq f) |}.

(** The first word of a description is no numeral. *)
Definition first_not_float (words : list string) : Prop :=
  match words with
  | [] => True
  | t :: _ => Float.of_string t = None
  end.

(** What holds of the fields of a record made by [parse]: identifier and
    words are tokens, the first word is no numeral unless a target value
    came before it, and the sequence neither ends with whitespace nor
    starts with the marker. *)
Definition well_parsed (f : fields) : Prop :=
  token (f_id f)
  /\ Forall token (f_words f)
  /\ (f_value f = None -> first_not_float (f_words f))
  /\ Str.rstrip (f_seq f) = f_seq f
  /\ Str.startswith (f_seq f) "%" = false.

(** A target value that [write] shows and that [float] reads back from what
    [write] shows. *)
Definition shown_and_read_back (v : Float.float) : Prop :=
  Float.truthy v = true /\ Float.of_string (Float.repr v) = Some v.

(** Fields that [write] writes in full, without wrapping: the target value,
    if there is one, is as above, and [textwrap] leaves the sequence as it
    is. *)
Definition writable (f : fields) : Prop :=
  match f_value f with
  | Some v => shown_and_read_back v
  | None => True
  end
  /\ plain (f_seq f) = true.

(** The header line [write] makes, without its line feed. *)
Definition header_text (f : fields) : string :=
  "% " ++ f_id f ++ " "
  ++ match f_value f with
     | Some v => if Float.truthy v then Float.repr v ++ " " else ""
     | None => ""
     end
  ++ Str.join " " (f_words f).

(** The text [write] makes after the header line of a record with the
    sequence [seq], [fs] being the records after it; and the rows of that
    text. *)
Fixpoint text_from (seq : string) (fs : list fields) : string :=
  match fs with
  | [] => seq
  | f :: fs' =>
    seq ++ Str.nl ++ header_text f ++ Str.nl ++ text_from (f_seq f) fs'
  end.

Fixpoint rows_from (seq : string) (fs : list fields) : list string :=
  match fs with
  | [] => match seq with "" => [] | _ => [seq] end
  | f :: fs' =>
    (seq ++ Str.nl) :: (header_text f ++ Str.nl) :: rows_from (f_seq f) fs'
  end.

(** The local variables of [parse] after the header line of [f] and [seq]
    read of its sequence. *)
Definition frame_of (f : fields) (seq : string) : TBFSBS.Locals.t :=
  {| TBFSBS.Locals.header := Str.split (header_text f ++ Str.nl);
     TBFSBS.Locals.iD := Some (f_id f);
     TBFSBS.Locals.target_value := Some (f_value f);
     TBFSBS.Locals.description := Some (Str.join " " (f_words f));
     TBFSBS.Locals.seq := Some seq |}.

(** The local variables of [parse]: no header line has been read and
    nothing is bound, or they hold the fields of a record in the making. *)
Definition frame_parsed (fr : TBFSBS.Locals.t) : Prop :=
  (TBFSBS.Locals.header fr = []
   /\ TBFSBS.Locals.iD fr = None /\ TBFSBS.Locals.seq fr = None)
  \/ (TBFSBS.Locals.header fr <> []
      /\ exists f,
           well_parsed f
           /\ TBFSBS.Locals.iD fr = Some (f_id f)
           /\ TBFSBS.Locals.target_value fr = Some (f_value f)
           /\ TBFSBS.Locals.description fr = Some (Str.join " " (f_words f))
           /\ TBFSBS.Locals.seq fr = Some (f_seq f)).

(** A collection whose records all are as [parse] makes them. *)
Definition collection_parsed (self : TBFSBS.t) : Prop :=
  exists fs, TBFSBS._list self = map record_of fs /\ Forall well_parsed fs.

(** A string without line feed and carriage return. *)
Definition oneline (s : string) : bool :=
  Str.all (fun c => negb (Ascii.eqb c Str.LF) && negb (Ascii.eqb c Str.CR)) s.

(** *** Rows and local variables, for the statements on [parse] *)

(** A header line has been read: the five local variables are bound. *)
Definition header_seen (fr : TBFSBS.Locals.t) : Prop :=
  TBFSBS.Locals.header fr <> []
  /\ exists iD target_value description seq,
       TBFSBS.Locals.iD fr = Some iD
       /\ TBFSBS.Locals.target_value fr = Some target_value
       /\ TBFSBS.Locals.description fr = Some description
       /\ TBFSBS.Locals.seq fr = Some seq.

(** The row is a header line. *)
Definition is_header (row : string) : bool := Str.startswith row "%".

(** The row is no header line, or a header line with a token after the
    first one. *)
Definition has_identifier (row : string) : bool :=
  negb (is_header row)
  || match nth_error (Str.split row) 1 with
     | Some _ => true
     | None => false
     end.

(** A string without the marker. *)
Definition no_marker (s : string) : bool :=
  Str.all (fun c => negb (Ascii.eqb c "%")) s.

(** *** What [write] writes with a width *)

(** The lines [textwrap.wrap] makes of a sequence; there are none when it
    raises. *)
Definition wrapped_lines (w : textwrap.width) (s : string) : list string :=
  match textwrap.wrap s w with
  | Ok lines => lines
  | Raise _ => []
  end.

(** The text [write] makes for the records of [fs], before it cuts the last
    character off. *)
Fixpoint records_text (w : textwrap.width) (fs : list fields) : string :=
  match fs with
  | [] => ""
  | f :: fs' =>
    header_text f ++ Str.nl
    ++ Str.join Str.nl (wrapped_lines w (f_seq f)) ++ Str.nl
    ++ records_text w fs'
  end.

(** The rows of the lines of a sequence, each with its line feed; a
    sequence without lines is written as an empty line. *)
Definition lines_rows (lines : list string) : list string :=
  match lines with
  | [] => [Str.nl]
  | _ :: _ => map (fun l => l ++ Str.nl) lines
  end.

Fixpoint records_rows (w : textwrap.width) (fs : list fields) : list string :=
  match fs with
  | [] => []
  | f :: fs' =>
    (header_text f ++ Str.nl)
    :: (lines_rows (wrapped_lines w (f_seq f)) ++ records_rows w fs')%list
  end.

(** A string without hyphen. *)
Definition nohyphen (s : string) : bool :=
  Str.all (fun c => negb (textwrap.hyphen c)) s.

(** The string cut into pieces of [n] characters, the last one of [n] or
    fewer; [fuel] is for the length of the string. *)
Fixpoint slices (fuel n : nat) (s : string) : list string :=
  match fuel, s with
  | S fuel', String _ _ => Str.take n s :: slices fuel' n (Str.drop n s)
  | _, _ => []
  end.

(** *** One decimal place *)

(** [k] is the integer nearest to ten times [m * 2^e], the even one of the
    two nearest when [m * 2^e] is half way between them. *)
Definition nearest_tenth (m : positive) (e : Z) (k : Z) : Prop :=
  (2 * Z.abs (10 * Float.num m e - k * Float.den e) <= Float.den e)%Z
  /\ ((2 * Z.abs (10 * Float.num m e - k * Float.den e) = Float.den e)%Z ->
      Z.even k = true).

(** The numeral of [k] tenths, with one digit after the point. *)
Definition one_decimal (neg : bool) (k : Z) : string :=
  (if neg then "-" else "")
  ++ Float.of_Z (k / 10) ++ "." ++ Float.of_Z (k mod 10).

(** [r] is [x] rounded to one decimal place: for a finite [x] that is not
    zero, [r] is the float nearest to [k] tenths, the float that [float]
    reads from the numeral of [k] tenths, [k] being the integer nearest to
    ten times [x]; a zero, an infinity and a NaN are left as they are. *)
Definition rounded_to_tenth (x r : Float.float) : Prop :=
  match x with
  | S754_finite neg m e =>
    exists k : Z,
      (0 <= k)%Z
      /\ nearest_tenth m e k
      /\ r = Float.of_decimal neg k (-1)
      /\ Float.of_string (one_decimal neg k) = Some r
  | _ => r = x
  end.

(** The string does not start with a digit. *)
Definition no_digit_ahead (t : string) : Prop :=
  match t with
  | "" => True
  | String c _ => Float.is_digit c = false
  end.

(** *** Line ends *)

(** The text with [eol] in place of every line feed. *)
Fixpoint with_line_ends (eol : string) (s : string) : string :=
  match s with
  | "" => ""
  | String c s' =>
    if Ascii.eqb c Str.LF then eol ++ with_line_ends eol s'
    else String c (with_line_ends eol s')
  end.

(** * Properties of [parse] *)

Section Parse.
Import Str TBFSBS.

Lemma startswith_marker_not_space (row : string) :
  startswith row "%" = true ->
  exists rest, row = String "%" rest.
Proof.
  destruct row as [|c rest]; cbn [startswith]; [discriminate|].
  destruct (Ascii.eqb_spec "%"%char c) as [<-|]; [|discriminate].
  intros _. now exists rest.
Qed.

(** A word being scanned always ends up as a token. *)
Lemma split_from_word_nonempty (s : string) (c : ascii) (word : string) :
  split_from (String c word) s <> [].
Proof.
  revert c word. induction s as [|d s IH]; intros c word; simpl.
  - discriminate.
  - destruct (isspace d); [discriminate | apply IH].
Qed.

Lemma split_header_nonempty (row : string) :
  startswith row "%" = true -> split row <> [].
Proof.
  intros H. destruct (startswith_marker_not_space row H) as [rest ->].
  unfold split. simpl. apply split_from_word_nonempty.
Qed.

(** A header line without an identifier stops the loop with an
    [IndexError]; the record pending from the header before it, if any, has
    been appended by then. *)
Lemma parse_row_no_identifier (self : t) (fr : Locals.t) (row : string) :
  bound_after_header fr ->
  startswith row "%" = true ->
  nth_error (split row) 1 = None ->
  exists self',
    parse_row self fr row = Stop IndexError self'
    /\ (self' = self \/ exists r, self' = append self r).
Proof.
  intros Hb Hs Hn. unfold parse_row. rewrite Hs.
  destruct (Locals.header fr) as [|h hs] eqn:Hh.
  - rewrite Hn. exists self. auto.
  - destruct Hb as (i & v & d & s & Hi & Hv & Hd & Hq).
    + rewrite Hh. discriminate.
    + unfold flush. rewrite Hi, Hv, Hd, Hq. cbn [bind Locals.read]. rewrite Hn.
      eexists. split; [reflexivity|]. right. eexists. reflexivity.
Qed.

Lemma parse_row_bound (self self' : t) (fr fr' : Locals.t) (row : string) :
  bound_after_header fr ->
  parse_row self fr row = Continue self' fr' ->
  bound_after_header fr'.
Proof.
  intros Hb. unfold parse_row.
  destruct (startswith row "%").
  - destruct (match Locals.header fr with [] => Ok self | _ :: _ => flush self fr end);
      [|discriminate].
    destruct (nth_error (split row) 1); [|discriminate].
    destruct (value_and_description (split row)) as [v d].
    intros [= <- <-] _. simpl. eauto 10.
  - destruct (Locals.seq fr) as [q|] eqn:Hq; simpl; [|discriminate].
    intros [= <- <-]. unfold bound_after_header in *. simpl.
    intros Hh. destruct (Hb Hh) as (i & v & d & s & Hi & Hv & Hd & _).
    eauto 10.
Qed.

Lemma run_rows_bound (rows : list string) :
  forall (self self' : t) (fr fr' : Locals.t),
  bound_after_header fr ->
  run_rows self fr rows = Continue self' fr' ->
  bound_after_header fr'.
Proof.
  induction rows as [|row rows IH]; intros self self' fr fr' Hb; simpl.
  - now intros [= <- <-].
  - destruct (parse_row self fr row) as [s1 f1|] eqn:Hr; [|discriminate].
    apply IH. eapply parse_row_bound; eauto.
Qed.

Lemma init_bound : bound_after_header Locals.init.
Proof. intros H. now contradiction H. Qed.

(** The loop over [pre ++ rest] is the loop over [rest] from the state the
    rows of [pre] lead to. *)
Lemma parse_rows_app (pre rest : list string) :
  forall (self : t) (fr : Locals.t),
  parse_rows self fr (pre ++ rest) =
  match run_rows self fr pre with
  | Continue self' fr' => parse_rows self' fr' rest
  | Stop e self' => Raised e self'
  end.
Proof.
  induction pre as [|row pre IH]; intros self fr; simpl.
  - reflexivity.
  - destruct (parse_row self fr row); [apply IH | reflexivity].
Qed.

(** With no header line read yet, a row that is no header line stops the
    loop: [seq] is unbound. *)
Lemma parse_row_body_first (self : t) (row : string) :
  startswith row "%" = false ->
  parse_row self Locals.init row = Stop UnboundLocalError self.
Proof. intros H. unfold parse_row. now rewrite H. Qed.

(** C2.  The claim: an input without any header line, the empty file in
    particular, parses to zero records.  The code: the [else] clause of the
    loop makes a record whatever the rows were, so that with no header line
    read [parse] raises [UnboundLocalError], at the first row if there is
    one and in the [else] clause if the file is empty; the collection is
    left as it was. *)
Theorem parse_without_header_raises (self : t) (content : string) :
  Forall (fun row => startswith row "%" = false) (File.rows content) ->
  parse self content = Raised UnboundLocalError self.
Proof.
  unfold parse. intros H.
  destruct (File.rows content) as [|row rows]; cbn [parse_rows].
  - reflexivity.
  - inversion H as [|? ? Hrow _]; subst.
    now rewrite (parse_row_body_first self row Hrow).
Qed.

Lemma parse_without_header_raises_witness :
  let body := "ACGT" ++ nl ++ "TT" ++ nl in
  (Forall (fun row => startswith row "%" = false) (File.rows "")
   /\ parse __init__ "" = Raised UnboundLocalError __init__)
  /\ (Forall (fun row => startswith row "%" = false) (File.rows body)
      /\ parse __init__ body = Raised UnboundLocalError __init__).
Proof.
  intros body.
  assert (H0 : Forall (fun row => startswith row "%" = false) (File.rows ""))
    by constructor.
  assert (H1 : Forall (fun row => startswith row "%" = false) (File.rows body))
    by (repeat constructor).
  split; (split; [assumption|]).
  - exact (parse_without_header_raises __init__ "" H0).
  - exact (parse_without_header_raises __init__ body H1).
Defined.

(** C4.  A header line without an identifier token, such as a line made of
    the marker alone, makes [parse] fail: wherever the line stands in the
    file, if the rows before it were read without an exception then
    [header[1]] raises [IndexError], which leaves [parse].  The collection
    then holds what the rows before had put in it and the record that was
    pending, if any. *)
Theorem parse_header_without_identifier_raises
    (self self1 : t) (fr1 : Locals.t) (content : string)
    (pre rest : list string) (row : string) :
  File.rows content = (pre ++ row :: rest)%list ->
  run_rows self Locals.init pre = Continue self1 fr1 ->
  startswith row "%" = true ->
  nth_error (split row) 1 = None ->
  exists self2,
    parse self content = Raised IndexError self2
    /\ (self2 = self1 \/ exists r, self2 = append self1 r).
Proof.
  intros Hrows Hpre Hs Hn. unfold parse.
  rewrite Hrows, parse_rows_app, Hpre. cbn [parse_rows].
  destruct (parse_row_no_identifier self1 fr1 row) as (self2 & -> & Hself2);
    auto.
  - eapply run_rows_bound; [apply init_bound | exact Hpre].
  - now exists self2.
Qed.

Lemma parse_header_without_identifier_raises_witness :
  File.rows Examples.marker_only = ([] ++ Examples.marker_only :: [])%list
  /\ run_rows __init__ Locals.init [] = Continue __init__ Locals.init
  /\ startswith Examples.marker_only "%" = true
  /\ nth_error (split Examples.marker_only) 1 = None
  /\ exists self2,
       parse __init__ Examples.marker_only = Raised IndexError self2
       /\ (self2 = __init__ \/ exists r, self2 = append __init__ r).
Proof.
  split; [reflexivity|]. split; [reflexivity|].
  split; [reflexivity|]. split; [reflexivity|].
  apply (parse_header_without_identifier_raises __init__ __init__ Locals.init
           Examples.marker_only [] [] Examples.marker_only);
    reflexivity.
Defined.

(** C6.  The file
    ["% A 1.5 desc one\nACGT\nACGT\n% B desc two\nTTTT\n"] parses to two
    records: A with the value 1.5, the description "desc one" and the
    sequence "ACGTACGT", and B without a value, with the description
    "desc two" and the sequence "TTTT". *)
Theorem parse_two_records :
  parse __init__ Examples.two_records =
  Returned
    {| _list :=
         [ Examples.record "A" (Some Examples.one_and_a_half) "desc one"
             "ACGTACGT";
           Examples.record "B" None "desc two" "TTTT" ] |}.
Proof. vm_compute. reflexivity. Qed.


(** C10.  When the first line of the input is not a header line, [parse]
    raises [UnboundLocalError] at that line, [seq] being unbound until a
    header line is read, and no record has been appended. *)
Theorem parse_body_first_raises
    (self : t) (content row : string) (rows : list string) :
  File.rows content = row :: rows ->
  startswith row "%" = false ->
  parse self content = Raised UnboundLocalError self.
Proof.
  intros Hrows Hrow. unfold parse. rewrite Hrows. cbn [parse_rows].
  now rewrite (parse_row_body_first self row Hrow).
Qed.

Lemma parse_body_first_raises_witness :
  File.rows Examples.body_first =
    ("ACGT" ++ nl) :: ["% A 1 d" ++ nl; "TT" ++ nl]
  /\ startswith ("ACGT" ++ nl) "%" = false
  /\ parse __init__ Examples.body_first = Raised UnboundLocalError __init__.
Proof.
  split; [reflexivity|]. split; [reflexivity|].
  apply (parse_body_first_raises __init__ Examples.body_first ("ACGT" ++ nl)
           ["% A 1 d" ++ nl; "TT" ++ nl]);
    reflexivity.
Defined.

End Parse.

(** * Properties of [append] and [extend] *)

Section Aggregation.
Import TBFSBS.

Lemma iter_from_skipn (self : t) :
  forall fuel i,
  List.length (_list self) < fuel + i ->
  iter_from fuel i self = skipn i (_list self).
Proof.
  induction fuel as [|fuel IH]; intros i Hlen.
  - simpl in *. symmetry. apply skipn_all2. lia.
  - cbn [iter_from]. unfold __getitem__.
    destruct (nth_error (_list self) i) as [r|] eqn:Hi.
    + rewrite IH by lia.
      clear IH Hlen. revert i Hi.
      induction (_list self) as [|x l IHl]; intros [|i] Hi; simpl in *;
        try discriminate.
      * now injection Hi as ->.
      * now apply IHl.
    + apply nth_error_None in Hi. symmetry. now apply skipn_all2.
Qed.

(** Iterating over a collection yields its records in order. *)
Lemma iter_list (self : t) : __iter__ self = _list self.
Proof.
  unfold __iter__, __len__. rewrite iter_from_skipn by lia. reflexivity.
Qed.

Lemma fold_append_list (l : list TBFSBS_Record.t) :
  forall self : t, _list (fold_left append l self) = (_list self ++ l)%list.
Proof.
  induction l as [|r l IH]; intros self; simpl.
  - now rewrite app_nil_r.
  - rewrite IH. simpl. now rewrite <- app_assoc.
Qed.

Lemma extend_list (A B : t) : _list (extend A B) = (_list A ++ _list B)%list.
Proof. unfold extend. now rewrite fold_append_list, iter_list. Qed.

(** C9.  Extending a collection [A] of [n] records with a collection [B] of
    [m] records, 3 and 2 for instance, gives a collection of [n + m]
    records: those of [A] in their order at the first [n] positions, then
    those of [B] in their order.  Appending one record keeps the records
    already there in their order and puts the new one last. *)
Theorem extend_keeps_order (A B : t) (n m : nat) :
  __len__ A = n ->
  __len__ B = m ->
  __len__ (extend A B) = n + m
  /\ firstn n (_list (extend A B)) = _list A
  /\ skipn n (_list (extend A B)) = _list B
  /\ forall r : TBFSBS_Record.t,
       __len__ (append A r) = S n
       /\ firstn n (_list (append A r)) = _list A
       /\ skipn n (_list (append A r)) = [r].
Proof.
  unfold __len__. intros HA HB. rewrite extend_list. subst n m.
  repeat split.
  - apply length_app.
  - now rewrite firstn_app, Nat.sub_diag, firstn_all, app_nil_r.
  - now rewrite skipn_app, Nat.sub_diag, skipn_all.
  - simpl. rewrite length_app. simpl. lia.
  - simpl. now rewrite firstn_app, Nat.sub_diag, firstn_all, app_nil_r.
  - simpl. now rewrite skipn_app, Nat.sub_diag, skipn_all.
Qed.

Lemma extend_keeps_order_witness :
  let a i := Examples.record i None "" "" in
  let A := {| _list := [a "1"; a "2"; a "3"] |} in
  let B := {| _list := [a "4"; a "5"] |} in
  __len__ A = 3 /\ __len__ B = 2
  /\ __len__ (extend A B) = 3 + 2
  /\ firstn 3 (_list (extend A B)) = _list A
  /\ skipn 3 (_list (extend A B)) = _list B
  /\ forall r : TBFSBS_Record.t,
       __len__ (append A r) = 4
       /\ firstn 3 (_list (append A r)) = _list A
       /\ skipn 3 (_list (append A r)) = [r].
Proof.
  intros a A B.
  split; [reflexivity|]. split; [reflexivity|].
  apply (extend_keeps_order A B 3 2); reflexivity.
Defined.

End Aggregation.

(** * Properties of the summary of a record *)

Section Summary.
Import Str TBFSBS_Record.

(** Rounding a float that is false, a zero, gives the float itself: the
    test on [target_value] in [__str__] does not show in the summary. *)
Lemma round_falsy (x : Float.float) (ndigits : nat) :
  Float.truthy x = false -> Float.round x ndigits = x.
Proof. destruct x; simpl; intros H; [reflexivity | discriminate ..]. Qed.

End Summary.

(** * Properties of [write] *)

Section Write.
Import Str TBFSBS.

(** C3.  The claim: the header line shows every target value that is set,
    zero included.  The code: [write] tests the target value for truth, and
    a zero is false, so that the header line of a record whose value is 0.0
    has no value at all, where the claim has ["% A 0.0 d"]. *)
Theorem write_omits_zero_value :
  Float.repr Float.zero = "0.0"
  /\ write_record (Examples.record "A" (Some Float.zero) "d" "ACGT")
       textwrap.Inf
     = Ok ("% A d" ++ nl ++ "ACGT" ++ nl)
  /\ write_record (Examples.record "A" (Some Examples.one_and_a_half) "d" "ACGT")
       textwrap.Inf
     = Ok ("% A 1.5 d" ++ nl ++ "ACGT" ++ nl)
  /\ write_record (Examples.record "A" None "d" "ACGT") textwrap.Inf
     = Ok ("% A d" ++ nl ++ "ACGT" ++ nl).
Proof. repeat split; vm_compute; reflexivity. Qed.

(** C1, as the claim has it, fails in two ways.  A sequence line with a
    tab in it is read as it is, and [textwrap.fill], which expands tabs,
    writes spaces for the tab.  A record parsed with the target value 0 is
    written without it, as in C3, and parses back without a target
    value. *)
Lemma roundtrip_fails :
  let tabbed := "AC" ++ String TAB "GT" in
  let C := {| _list := [Examples.record "A" None "d" tabbed] |} in
  let C' := {| _list := [Examples.record "A" None "d" "AC      GT"] |} in
  let Z := {| _list := [Examples.record "A" (Some Float.zero) "d" "ACGT"] |} in
  let Z' := {| _list := [Examples.record "A" None "d" "ACGT"] |} in
  (parse __init__ ("% A d" ++ nl ++ tabbed ++ nl) = Returned C
   /\ write C textwrap.Inf = Ok ("% A d" ++ nl ++ "AC      GT")
   /\ parse __init__ ("% A d" ++ nl ++ "AC      GT") = Returned C'
   /\ C <> C')
  /\ (parse __init__ Examples.zero_valued = Returned Z
      /\ write Z textwrap.Inf = Ok ("% A d" ++ nl ++ "ACGT")
      /\ parse __init__ ("% A d" ++ nl ++ "ACGT") = Returned Z'
      /\ Z <> Z').
Proof.
  cbv zeta. split.
  - split; [vm_compute; reflexivity|]. split; [vm_compute; reflexivity|].
    split; [vm_compute; reflexivity | discriminate].
  - split; [vm_compute; reflexivity|]. split; [vm_compute; reflexivity|].
    split; [vm_compute; reflexivity | discriminate].
Qed.

End Write.

(** * Facts on strings *)

Section StrFacts.
Import Str.

Lemma append_nil_r (s : string) : s ++ "" = s.
Proof. induction s as [|c s IH]; simpl; [reflexivity | now rewrite IH]. Qed.

Lemma append_assoc (s t u : string) : (s ++ t) ++ u = s ++ t ++ u.
Proof. induction s as [|c s IH]; simpl; [reflexivity | now rewrite IH]. Qed.

Lemma length_append (s t : string) :
  String.length (s ++ t) = String.length s + String.length t.
Proof. induction s as [|c s IH]; simpl; [reflexivity | now rewrite IH]. Qed.

Lemma take_drop (n : nat) (s : string) : take n s ++ drop n s = s.
Proof.
  revert s. induction n as [|n IH]; intros [|c s]; simpl; try reflexivity.
  now rewrite IH.
Qed.

Lemma length_take (n : nat) (s : string) :
  String.length (take n s) = Nat.min n (String.length s).
Proof.
  revert s. induction n as [|n IH]; intros [|c s]; simpl; try reflexivity.
  now rewrite IH.
Qed.

Lemma length_drop (n : nat) (s : string) :
  String.length (drop n s) = String.length s - n.
Proof.
  revert s. induction n as [|n IH]; intros [|c s]; simpl; try reflexivity.
  now rewrite IH.
Qed.

Lemma length_zero (s : string) : String.length s = 0 -> s = "".
Proof. destruct s; [reflexivity | discriminate]. Qed.

Lemma all_take (p : ascii -> bool) (n : nat) (s : string) :
  all p s = true -> all p (take n s) = true.
Proof.
  revert s. induction n as [|n IH]; intros [|c s]; simpl; try reflexivity.
  intros [Hc Hs]%andb_prop. rewrite Hc. now apply IH.
Qed.

Lemma all_drop (p : ascii -> bool) (n : nat) (s : string) :
  all p s = true -> all p (drop n s) = true.
Proof.
  revert s. induction n as [|n IH]; intros [|c s]; simpl; try tauto.
  intros [Hc Hs]%andb_prop. now apply IH.
Qed.

(** Joining with the empty separator concatenates. *)
Lemma join_empty_cons (x : string) (l : list string) :
  join "" (x :: l) = x ++ join "" l.
Proof. destruct l; simpl; [now rewrite append_nil_r | reflexivity]. Qed.

Lemma join_empty_app (l1 l2 : list string) :
  join "" (l1 ++ l2) = join "" l1 ++ join "" l2.
Proof.
  induction l1 as [|x l1 IH]; [reflexivity|].
  rewrite <- app_comm_cons, !join_empty_cons, IH. now rewrite append_assoc.
Qed.

Lemma length_join_empty (l : list string) :
  String.length (join "" l) = textwrap.total l.
Proof.
  induction l as [|x l IH]; [reflexivity|].
  rewrite join_empty_cons, length_append, IH. reflexivity.
Qed.

Lemma total_app (l1 l2 : list string) :
  textwrap.total (l1 ++ l2) = textwrap.total l1 + textwrap.total l2.
Proof. induction l1 as [|x l1 IH]; simpl; [reflexivity | rewrite IH; lia]. Qed.

End StrFacts.

(** ** Reversal, [rstrip] and [s[:-1]] *)

Section StrFacts2.
Import Str.

Lemma all_app (p : ascii -> bool) (s t : string) :
  all p (s ++ t) = all p s && all p t.
Proof.
  induction s as [|c s IH]; simpl; [reflexivity|].
  now rewrite IH, andb_assoc.
Qed.

Lemma all_impl (p q : ascii -> bool) (s : string) :
  (forall c, p c = true -> q c = true) -> all p s = true -> all q s = true.
Proof.
  intros Hpq. induction s as [|c s IH]; simpl; [reflexivity|].
  intros [Hc Hs]%andb_prop. now rewrite (Hpq c Hc), IH.
Qed.

Lemma rev_app (s t : string) : rev (s ++ t) = rev t ++ rev s.
Proof.
  induction s as [|c s IH]; simpl.
  - now rewrite append_nil_r.
  - now rewrite IH, append_assoc.
Qed.

Lemma rev_rev (s : string) : rev (rev s) = s.
Proof.
  induction s as [|c s IH]; simpl; [reflexivity|].
  now rewrite rev_app, IH.
Qed.

Lemma rev_empty (s : string) : rev s = "" -> s = "".
Proof. intros H. now rewrite <- (rev_rev s), H. Qed.

Lemma append_nonempty_r (s t : string) : t <> "" -> s ++ t <> "".
Proof. destruct s; simpl; [auto | discriminate]. Qed.

(** [rstrip] *)

Lemma rstrip_by_all (p : ascii -> bool) (t : string) :
  all p t = true -> rstrip_by p t = "".
Proof.
  induction t as [|c t IH]; simpl; [reflexivity|].
  intros [Hc Ht]%andb_prop. now rewrite (IH Ht), Hc.
Qed.

Lemma rstrip_by_app_all (p : ascii -> bool) (s t : string) :
  all p t = true -> rstrip_by p (s ++ t) = rstrip_by p s.
Proof.
  intros Ht. induction s as [|c s IH]; simpl.
  - now apply rstrip_by_all.
  - now rewrite IH.
Qed.

Lemma rstrip_by_app_fixed (p : ascii -> bool) (a b : string) :
  rstrip_by p b = b -> b <> "" -> rstrip_by p (a ++ b) = a ++ b.
Proof.
  intros Hb Hne. induction a as [|c a IH]; simpl; [exact Hb|].
  rewrite IH. destruct (a ++ b) eqn:Hab; [|reflexivity].
  exfalso. now apply (append_nonempty_r a b Hne).
Qed.

Lemma length_rstrip_by (p : ascii -> bool) (s : string) :
  String.length (rstrip_by p s) <= String.length s.
Proof.
  induction s as [|c s IH]; simpl; [lia|].
  destruct (rstrip_by p s); [destruct (p c)|]; simpl in *; lia.
Qed.

(** What [rstrip] leaves of a string starts as the string does. *)
Lemma rstrip_by_head (p : ascii -> bool) (c : ascii) (s : string) :
  rstrip_by p (String c s) = ""
  \/ exists r, rstrip_by p (String c s) = String c r.
Proof.
  simpl. destruct (rstrip_by p s); [destruct (p c)|]; eauto.
Qed.

Lemma startswith_nil (s : string) : startswith s "" = true.
Proof. destruct s; reflexivity. Qed.

Lemma startswith_append (s t : string) (c : ascii) :
  s <> "" ->
  startswith (s ++ t) (String c "") = startswith s (String c "").
Proof.
  destruct s as [|a s]; [congruence|]. intros _.
  cbn [append startswith]. now rewrite !startswith_nil.
Qed.

Lemma startswith_rstrip (row : string) :
  startswith row "%" = false -> startswith (rstrip row) "%" = false.
Proof.
  destruct row as [|c row]; [reflexivity|]. unfold rstrip.
  destruct (rstrip_by_head isspace c row) as [-> | [r ->]]; [reflexivity|].
  cbn [startswith]. now rewrite !startswith_nil.
Qed.

(** [drop_last] *)

Lemma drop_last_app (s t : string) :
  t <> "" -> drop_last (s ++ t) = s ++ drop_last t.
Proof.
  intros Ht. induction s as [|c s IH]; [reflexivity|].
  cbn [append drop_last]. rewrite IH.
  destruct (s ++ t) eqn:Hst; [|reflexivity].
  exfalso. now apply (append_nonempty_r s t Ht).
Qed.

Lemma drop_last_nl (s : string) : drop_last (s ++ nl) = s.
Proof.
  rewrite drop_last_app by discriminate. simpl. apply append_nil_r.
Qed.

End StrFacts2.

(** * Properties of [textwrap] *)

Section Wrap.
Import Str textwrap.

Lemma whitespace_isspace (c : ascii) : whitespace c = true -> isspace c = true.
Proof.
  unfold whitespace, isspace. cbn zeta. generalize (ord c). intros n H.
  apply orb_prop in H as [[H1 H2]%andb_prop | H].
  - now rewrite H1, H2.
  - apply N.eqb_eq in H. now subst.
Qed.

Lemma nospace_not_blank (s : string) :
  nospace s = true -> s <> "" -> blank s = false.
Proof.
  destruct s as [|c s]; [congruence|]. unfold nospace, blank. simpl.
  intros [Hc _]%andb_prop _. now apply negb_true_iff in Hc as ->.
Qed.

(** Nothing in a string without whitespace is munged. *)
Lemma expandtabs_nospace (tabsize : nat) (s : string) :
  forall col, nospace s = true -> expandtabs tabsize col s = s.
Proof.
  induction s as [|c s IH]; intros col; [reflexivity|].
  unfold nospace. cbn [all expandtabs].
  intros [Hc Hs]%andb_prop. apply negb_true_iff in Hc.
  destruct (Ascii.eqb_spec c TAB) as [->|_]; [discriminate|].
  destruct (Ascii.eqb_spec c LF) as [->|_]; [discriminate|].
  destruct (Ascii.eqb_spec c CR) as [->|_]; [discriminate|].
  cbn [orb]. now rewrite IH.
Qed.

Lemma translate_nospace (s : string) : nospace s = true -> translate s = s.
Proof.
  induction s as [|c s IH]; [reflexivity|].
  unfold nospace. cbn [all translate].
  intros [Hc Hs]%andb_prop. apply negb_true_iff in Hc.
  destruct (whitespace c) eqn:Hw.
  - apply whitespace_isspace in Hw. congruence.
  - now rewrite IH.
Qed.

Lemma munge_nospace (s : string) : nospace s = true -> _munge_whitespace s = s.
Proof.
  intros H. unfold _munge_whitespace.
  now rewrite expandtabs_nospace, translate_nospace.
Qed.

(** *** The chunks *)

Lemma match_len_pos (prev : string) (c : ascii) (s : string) :
  1 <= match_len prev (String c s).
Proof.
  unfold match_len.
  destruct (whitespace c) eqn:Hw.
  - cbn [run]. rewrite Hw. lia.
  - destruct (at_is word_punct 0 prev && emdash_ahead (String c s)) eqn:He;
      [|lia].
    apply andb_prop in He as [_ He]. unfold emdash_ahead in He.
    apply andb_prop in He as [He _]. apply Nat.leb_le in He. lia.
Qed.

(** The chunks of a text are not empty, they make up the text, and they
    have no whitespace when the text has none. *)
Lemma split_chunks_spec :
  forall fuel prev s,
  String.length s <= fuel ->
  join "" (split_chunks fuel prev s) = s
  /\ Forall (fun c => c <> "") (split_chunks fuel prev s)
  /\ (nospace s = true ->
      Forall (fun c => nospace c = true) (split_chunks fuel prev s)).
Proof.
  induction fuel as [|fuel IH]; intros prev s Hlen.
  - assert (s = "") as -> by (apply length_zero; lia). simpl. auto.
  - destruct s as [|c s]; [simpl; auto|].
    cbn [split_chunks].
    pose proof (match_len_pos prev c s) as Hn.
    set (n := match_len prev (String c s)) in *.
    destruct (IH (rev (take n (String c s)) ++ prev) (drop n (String c s)))
      as (Hj & Hne & Hns).
    { rewrite length_drop. clearbody n. cbn [String.length] in *. lia. }
    split; [|split].
    + rewrite join_empty_cons, Hj. apply take_drop.
    + constructor; [|exact Hne].
      destruct n; [lia | discriminate].
    + intros H. constructor.
      * now apply all_take.
      * apply Hns. now apply all_drop.
Qed.

Lemma split_nonempty (text : string) : Forall (fun c => c <> "") (_split text).
Proof. now apply split_chunks_spec. Qed.

(** *** One line *)

Lemma le_width_0 (w : width) : positive_width w -> le_width 0 w = true.
Proof. destruct w as [z|]; simpl; [intros H; apply Z.leb_le; lia | reflexivity]. Qed.

Lemma le_width_mono (w : width) (n m : nat) :
  n <= m -> le_width m w = true -> le_width n w = true.
Proof.
  destruct w as [z|]; simpl; [|reflexivity].
  intros Hnm H%Z.leb_le. apply Z.leb_le. lia.
Qed.

(** The chunks that fit are a prefix of the chunks, the line is within the
    width, and the first chunk left, if any, does not fit any more. *)
Lemma take_fitting_spec (w : width) :
  forall chunks cur_line cur_len,
  exists taken rest,
    take_fitting w cur_line cur_len chunks =
      ((cur_line ++ taken)%list, cur_len + total taken, rest)
    /\ chunks = (taken ++ rest)%list
    /\ (le_width cur_len w = true ->
        le_width (cur_len + total taken) w = true)
    /\ match rest with
       | [] => True
       | c :: _ =>
         le_width (cur_len + total taken + String.length c) w = false
       end.
Proof.
  induction chunks as [|c chunks IH]; intros cur_line cur_len.
  - exists [], []. simpl. rewrite app_nil_r, Nat.add_0_r. auto.
  - cbn [take_fitting].
    destruct (le_width (cur_len + String.length c) w) eqn:Hfit.
    + destruct (IH (cur_line ++ [c])%list (cur_len + String.length c))
        as (taken & rest & Heq & -> & Hle & Hrest).
      exists (c :: taken), rest. rewrite Heq. cbn [total fold_right].
      fold (total taken). rewrite <- app_assoc, Nat.add_assoc.
      repeat split; auto.
    + exists [], (c :: chunks). simpl. rewrite app_nil_r, Nat.add_0_r. auto.
Qed.

Lemma rfind_bounds (c : ascii) (s : string) :
  forall stop i j, rfind c i stop s = Some j -> i <= j < i + stop.
Proof.
  induction s as [|d s IH]; intros [|stop] i j; simpl; try discriminate.
  destruct (rfind c (S i) stop s) as [k|] eqn:Hk.
  - intros [= <-]. apply IH in Hk. lia.
  - destruct (Ascii.eqb d c); [intros [= <-]; lia | discriminate].
Qed.

(** A word too long for the line is cut where the line ends or before:
    what stays on the line fits, what is left is not empty, and something
    is cut off when the line has room. *)
Lemma handle_long_word_spec
    (chunk : string) (rest cur_line : list string) (cur_len : nat) (z : Z) :
  (1 <= z)%Z ->
  cur_len <= Z.to_nat z ->
  Z.to_nat z < String.length chunk ->
  exists e,
    _handle_long_word (chunk :: rest) cur_line cur_len z =
      (drop e chunk :: rest, (cur_line ++ [take e chunk])%list)
    /\ cur_len + e <= Z.to_nat z
    /\ e < String.length chunk
    /\ (cur_len < Z.to_nat z -> 1 <= e).
Proof.
  intros Hz Hcur Hlong. unfold _handle_long_word.
  assert ((z <? 1)%Z = false) as -> by (apply Z.ltb_ge; lia).
  assert (Z.to_nat (z - Z.of_nat cur_len) = Z.to_nat z - cur_len) as -> by lia.
  set (space_left := Z.to_nat z - cur_len).
  assert ((space_left <? String.length chunk)%nat = true) as ->
    by (apply Nat.ltb_lt; lia).
  destruct (rfind "-" 0 space_left chunk) as [[|h]|] eqn:Hh.
  - exists space_left. repeat split; lia.
  - apply rfind_bounds in Hh.
    destruct (negb (all hyphen (take (S h) chunk))).
    + exists (S (S h)). repeat split; lia.
    + exists space_left. repeat split; lia.
  - exists space_left. repeat split; lia.
Qed.

Lemma total_nonempty_pos (c : string) (l : list string) :
  c <> "" -> 0 < total (c :: l).
Proof. destruct c; [congruence | simpl; lia]. Qed.

Lemma nospace_blank_empty (c : string) :
  nospace c = true -> blank c = true -> c = "".
Proof.
  intros Hn Hb. destruct c as [|a c]; [reflexivity|].
  rewrite nospace_not_blank in Hb; [discriminate | assumption | discriminate].
Qed.

Lemma drop_leading_spec (chunks lines : list string) :
  drop_leading chunks lines = chunks
  \/ exists c, chunks = c :: drop_leading chunks lines /\ blank c = true.
Proof.
  unfold drop_leading. destruct chunks as [|c rest]; [now left|].
  destruct lines; [now left|].
  destruct (blank c) eqn:Hb; [right; now exists c | now left].
Qed.

Lemma rev_cons_inv {A : Type} (l before : list A) (last : A) :
  List.rev l = last :: before -> l = (List.rev before ++ [last])%list.
Proof.
  intros H. rewrite <- (rev_involutive l), H. reflexivity.
Qed.

Lemma drop_trailing_total (l : list string) : total (drop_trailing l) <= total l.
Proof.
  unfold drop_trailing. destruct (List.rev l) as [|last before] eqn:Hr; [lia|].
  destruct (blank last); [|lia].
  apply rev_cons_inv in Hr. subst l. rewrite total_app. lia.
Qed.

Lemma drop_trailing_nospace (l : list string) :
  Forall (fun c => nospace c = true) l ->
  join "" (drop_trailing l) = join "" l.
Proof.
  intros Hl. unfold drop_trailing.
  destruct (List.rev l) as [|last before] eqn:Hr; [reflexivity|].
  destruct (blank last) eqn:Hb; [|reflexivity].
  apply rev_cons_inv in Hr. subst l.
  apply Forall_app in Hl as [_ Hlast]. inversion Hlast as [|? ? Hn _]; subst.
  rewrite (nospace_blank_empty last Hn Hb), join_empty_app. simpl.
  now rewrite append_nil_r.
Qed.

Lemma emit_join (lines cur_line : list string) :
  join "" (emit lines cur_line) = join "" lines ++ join "" cur_line.
Proof.
  destruct cur_line as [|c l]; unfold emit.
  - simpl. now rewrite append_nil_r.
  - now rewrite join_empty_app, (join_empty_cons (join "" (c :: l)) []),
      append_nil_r.
Qed.

Lemma emit_within (w : width) (lines cur_line : list string) :
  le_width (total cur_line) w = true ->
  Forall (within w) lines -> Forall (within w) (emit lines cur_line).
Proof.
  intros Hw Hl. destruct cur_line as [|c l]; [exact Hl|].
  unfold emit. apply Forall_app. split; [exact Hl|].
  constructor; [|constructor]. unfold within. now rewrite length_join_empty.
Qed.

(** Breaking the chunk that does not fit keeps the text, keeps the line
    within the width and, on an empty line, shortens the chunks. *)
Lemma break_long_spec (w : width) (rest taken : list string) :
  positive_width w ->
  le_width (total taken) w = true ->
  Forall (fun c => c <> "") rest ->
  match rest with
  | [] => True
  | c :: _ => le_width (total taken + String.length c) w = false
  end ->
  exists chunks' cur_line',
    break_long w rest taken (total taken) = (chunks', cur_line')
    /\ join "" cur_line' ++ join "" chunks' = join "" taken ++ join "" rest
    /\ le_width (total cur_line') w = true
    /\ Forall (fun c => c <> "") chunks'
    /\ total chunks' <= total rest
    /\ (taken = [] -> rest <> [] -> total chunks' < total rest)
    /\ (Forall (fun c => nospace c = true) taken ->
        Forall (fun c => nospace c = true) rest ->
        Forall (fun c => nospace c = true) chunks'
        /\ Forall (fun c => nospace c = true) cur_line').
Proof.
  intros Hw Hle Hne Hfull. destruct rest as [|c rest'].
  - exists [], taken. destruct w; simpl; repeat split; auto; congruence.
  - destruct w as [z|]; [|discriminate].
    cbn [break_long]. pose proof Hle as Hle0. simpl in Hw, Hle, Hfull.
    apply Z.leb_le in Hle. apply Z.leb_gt in Hfull.
    inversion Hne as [|? ? Hc Hrest']; subst.
    destruct (gt_width (String.length c) (Width z)) eqn:Hgt.
    + unfold gt_width in Hgt. simpl in Hgt.
      apply negb_true_iff, Z.leb_gt in Hgt.
      destruct (handle_long_word_spec c rest' taken (total taken) z)
        as (e & -> & He1 & He2 & He3); try lia.
      exists (drop e c :: rest'), (taken ++ [take e c])%list.
      assert (Hlen : String.length (take e c) = e)
        by (rewrite length_take; lia).
      split; [reflexivity|]. split; [|split; [|split; [|split; [|split]]]].
      * rewrite join_empty_app, !join_empty_cons. simpl.
        rewrite append_nil_r, append_assoc.
        now rewrite <- (append_assoc (take e c)), take_drop.
      * rewrite total_app. simpl. rewrite Hlen. apply Z.leb_le. lia.
      * constructor; [|exact Hrest'].
        intros Hd. apply (f_equal String.length) in Hd.
        rewrite length_drop in Hd. simpl in Hd. lia.
      * simpl. rewrite length_drop. lia.
      * intros -> _. simpl in *. rewrite length_drop. lia.
      * intros Ht Hr. inversion Hr; subst. split.
        -- constructor; [now apply all_drop | assumption].
        -- apply Forall_app. split; [assumption|].
           constructor; [now apply all_take | constructor].
    + unfold gt_width in Hgt. simpl in Hgt.
      apply negb_false_iff, Z.leb_le in Hgt.
      exists (c :: rest'), taken.
      split; [reflexivity|]. split; [reflexivity|]. split; [exact Hle0|].
      split; [exact Hne|]. split; [lia|]. split; [|auto].
      intros -> _. simpl in Hfull. lia.
Qed.

(** One turn of the outer loop: the chunks get shorter, the lines stay
    within the width, and no character is lost when there is no
    whitespace. *)
Lemma wrap_line_spec (w : width) (chunks lines : list string) :
  positive_width w ->
  chunks <> [] ->
  Forall (fun c => c <> "") chunks ->
  exists chunks' lines',
    wrap_line w chunks lines = (chunks', lines')
    /\ total chunks' < total chunks
    /\ Forall (fun c => c <> "") chunks'
    /\ (Forall (within w) lines -> Forall (within w) lines')
    /\ (Forall (fun c => nospace c = true) chunks ->
        Forall (fun c => nospace c = true) chunks'
        /\ join "" lines' ++ join "" chunks' = join "" lines ++ join "" chunks).
Proof.
  intros Hw Hnil Hne. unfold wrap_line.
  set (chunks1 := drop_leading chunks lines).
  assert (H1 : Forall (fun c => c <> "") chunks1
               /\ total chunks1 <= total chunks
               /\ (chunks1 = [] -> 0 < total chunks)
               /\ (Forall (fun c => nospace c = true) chunks ->
                   chunks1 = chunks)).
  { destruct (drop_leading_spec chunks lines) as [Heq | (c & Heq & Hb)];
      fold chunks1 in Heq; clearbody chunks1.
    - subst chunks1. repeat split; auto. intros H. congruence.
    - subst chunks. inversion Hne as [|? ? Hc Hrest]; subst.
      repeat split; auto.
      + simpl. lia.
      + intros _. now apply total_nonempty_pos.
      + intros Hns. inversion Hns as [|? ? Hn _]; subst.
        contradiction Hc. now apply nospace_blank_empty. }
  destruct H1 as (Hne1 & Htot1 & Hnil1 & Hsame).
  destruct (take_fitting_spec w chunks1 [] 0)
    as (taken & rest & -> & Hsplit & Hle & Hfull).
  cbn [app Nat.add] in *.
  specialize (Hle (le_width_0 w Hw)).
  rewrite Hsplit in Hne1. apply Forall_app in Hne1 as [Hnet Hner].
  destruct (break_long_spec w rest taken Hw Hle Hner Hfull)
    as (chunks' & cur_line' & -> & Hjoin & Hlew & Hne' & Htot & Hstrict & Hns').
  exists chunks', (emit lines (drop_trailing cur_line')).
  split; [reflexivity|]. split; [|split; [exact Hne'|split]].
  - rewrite Hsplit, total_app in Htot1.
    destruct taken as [|t taken'].
    + destruct rest as [|c rest'].
      * simpl in Htot. specialize (Hnil1 Hsplit). lia.
      * assert (total chunks' < total (c :: rest'))
          by (apply Hstrict; congruence).
        simpl in *. lia.
    + inversion Hnet as [|? ? Ht _]; subst.
      pose proof (total_nonempty_pos t taken' Ht). lia.
  - apply emit_within.
    eapply le_width_mono; [apply drop_trailing_total | exact Hlew].
  - intros Hns. rewrite (Hsame Hns) in Hsplit. rewrite Hsplit in Hns |- *.
    apply Forall_app in Hns as [Hnst Hnsr].
    destruct (Hns' Hnst Hnsr) as [Hc' Hl']. split; [exact Hc'|].
    rewrite emit_join, (drop_trailing_nospace _ Hl'), join_empty_app.
    now rewrite append_assoc, Hjoin.
Qed.

(** *** The loop *)

(** With fuel above the total length of the chunks, the loop comes to its
    end; its lines are within the width, and without whitespace they are the
    text cut into pieces. *)
Lemma wrap_loop_spec (w : width) :
  positive_width w ->
  forall fuel chunks lines,
  Forall (fun c => c <> "") chunks ->
  total chunks < fuel ->
  exists r,
    wrap_loop fuel w chunks lines = Some r
    /\ (Forall (within w) lines -> Forall (within w) r)
    /\ (Forall (fun c => nospace c = true) chunks ->
        join "" r = join "" lines ++ join "" chunks).
Proof.
  intros Hw. induction fuel as [|fuel IH]; intros chunks lines Hne Hfuel;
    [lia|].
  destruct chunks as [|c cs].
  - exists lines. simpl. rewrite append_nil_r. auto.
  - cbn [wrap_loop].
    destruct (wrap_line_spec w (c :: cs) lines Hw) as
      (chunks' & lines' & -> & Hlt & Hne' & Hwi & Hns); [discriminate | exact Hne |].
    destruct (IH chunks' lines' Hne') as (r & -> & Hwr & Hjr); [lia|].
    exists r. split; [reflexivity|]. split; [auto|].
    intros H. destruct (Hns H) as [Hc' Hj]. now rewrite (Hjr Hc'), Hj.
Qed.

(** [_wrap_chunks] never runs out of fuel on the chunks of a text. *)
Lemma wrap_loop_total (w : width) (text : string) :
  positive_width w ->
  wrap_loop (S (total (_split_chunks text))) w (_split_chunks text) [] <> None.
Proof.
  intros Hw.
  destruct (wrap_loop_spec w Hw (S (total (_split_chunks text)))
              (_split_chunks text) []) as (r & -> & _); [|lia|discriminate].
  apply split_nonempty.
Qed.

(** *** Wrapping a sequence *)

(** C5, as the claim has it, fails on a sequence with whitespace in it,
    which [parse] can produce: the line ["AB CD"] is read as the sequence
    ["AB CD"], wrapped at width 2 into the lines ["AB"] and ["CD"], and the
    space between them is gone. *)
Lemma wrap_drops_whitespace :
  TBFSBS.parse TBFSBS.__init__ ("% A d" ++ nl ++ "AB CD" ++ nl) =
    TBFSBS.Returned
      {| TBFSBS._list := [Examples.record "A" None "d" "AB CD"] |}
  /\ wrap "AB CD" (Width 2) = Ok ["AB"; "CD"]
  /\ fill "AB CD" (Width 2) = Ok ("AB" ++ nl ++ "CD")
  /\ join "" ["AB"; "CD"] <> "AB CD".
Proof.
  split; [vm_compute; reflexivity|].
  split; [vm_compute; reflexivity|].
  split; [vm_compute; reflexivity|].
  discriminate.
Qed.

(** C5, amended.  For a sequence without whitespace and a width of at
    least 1, [textwrap.wrap] returns lines that, put end to end, are the
    sequence, each of them no longer than the width; [textwrap.fill], which
    [write] calls, returns these lines with a line feed between them. *)
Theorem wrap_rejoins (s : string) (z : Z) :
  (1 <= z)%Z ->
  nospace s = true ->
  exists lines,
    wrap s (Width z) = Ok lines
    /\ join "" lines = s
    /\ Forall (fun line => (Z.of_nat (String.length line) <= z)%Z) lines
    /\ fill s (Width z) = Ok (join nl lines).
Proof.
  intros Hz Hs. unfold fill, wrap, _wrap_chunks, _split_chunks.
  rewrite (munge_nospace s Hs).
  assert ((z <=? 0)%Z = false) as -> by (apply Z.leb_gt; lia).
  destruct (split_chunks_spec (String.length s) "" s (le_n _))
    as (Hjoin & Hne & Hns). fold (_split s) in Hjoin, Hne, Hns.
  destruct (wrap_loop_spec (Width z) Hz (S (total (_split s))) (_split s) []
              Hne (Nat.lt_succ_diag_r _)) as (lines & -> & Hwi & Hj).
  exists lines. split; [reflexivity|]. split; [|split; [|reflexivity]].
  - now rewrite (Hj (Hns Hs)), Hjoin.
  - specialize (Hwi (Forall_nil _)).
    eapply Forall_impl; [|exact Hwi].
    intros line H. now apply Z.leb_le.
Qed.

Lemma wrap_rejoins_witness :
  (1 <= 4)%Z
  /\ nospace "ACGTACGTAC" = true
  /\ exists lines,
       wrap "ACGTACGTAC" (Width 4) = Ok lines
       /\ join "" lines = "ACGTACGTAC"
       /\ Forall (fun line => (Z.of_nat (String.length line) <= 4)%Z) lines
       /\ fill "ACGTACGTAC" (Width 4) = Ok (join nl lines).
Proof.
  split; [lia|]. split; [reflexivity|].
  apply (wrap_rejoins "ACGTACGTAC" 4); [lia | reflexivity].
Defined.

End Wrap.

(** * Tokens *)

Section Tokens.
Import Str.

Lemma all_rev (p : ascii -> bool) (s : string) : all p (rev s) = all p s.
Proof.
  induction s as [|c s IH]; simpl; [reflexivity|].
  rewrite all_app, IH. simpl. rewrite andb_true_r. apply andb_comm.
Qed.

Lemma all_rstrip_by (q p : ascii -> bool) (s : string) :
  all q s = true -> all q (rstrip_by p s) = true.
Proof.
  induction s as [|c s IH]; simpl; [reflexivity|].
  intros [Hc Hs]%andb_prop. specialize (IH Hs).
  destruct (rstrip_by p s); [destruct (p c)|]; simpl in *;
    rewrite ?Hc, ?IH; reflexivity.
Qed.

Lemma token_rev (word : string) :
  word <> "" -> nospace word = true -> token (rev word).
Proof.
  intros Hne Hns. split.
  - intros H. now apply rev_empty in H.
  - unfold nospace. now rewrite all_rev.
Qed.

(** Every item [split] returns is a token. *)
Lemma split_from_tokens (s : string) :
  forall word, nospace word = true -> Forall token (split_from word s).
Proof.
  induction s as [|c s IH]; intros word Hw; cbn [split_from].
  - destruct word; constructor; [|constructor].
    apply token_rev; [discriminate | exact Hw].
  - destruct (isspace c) eqn:Hc.
    + destruct word; [now apply IH|].
      constructor; [|now apply IH].
      apply token_rev; [discriminate | exact Hw].
    + apply IH. unfold nospace in *. simpl. now rewrite Hc.
Qed.

Lemma split_tokens (s : string) : Forall token (split s).
Proof. now apply split_from_tokens. Qed.

Lemma split_from_nospace (t : string) :
  forall word s,
  nospace t = true -> split_from word (t ++ s) = split_from (rev t ++ word) s.
Proof.
  induction t as [|c t IH]; intros word s; [reflexivity|].
  unfold nospace. cbn [all]. intros [Hc Ht]%andb_prop.
  apply negb_true_iff in Hc.
  cbn [append split_from rev]. rewrite Hc, (IH _ _ Ht), append_assoc.
  reflexivity.
Qed.

(** A token followed by whitespace is the first item [split] returns. *)
Lemma split_token (t : string) (c : ascii) (rest : string) :
  token t -> isspace c = true -> split (t ++ String c rest) = t :: split rest.
Proof.
  intros [Hne Hns] Hc. unfold split.
  rewrite (split_from_nospace t "" _ Hns), append_nil_r.
  cbn [split_from]. rewrite Hc.
  destruct (rev t) eqn:Hr.
  - apply rev_empty in Hr. contradiction.
  - now rewrite <- Hr, rev_rev.
Qed.

(** Words joined with single spaces are split into the words again. *)
Lemma split_join_words (words : list string) :
  Forall token words -> split (join " " words ++ nl) = words.
Proof.
  induction words as [|t words IH]; intros H; [reflexivity|].
  inversion H as [|? ? Ht Hwords]; subst.
  destruct words as [|t2 words'].
  - cbn [join]. unfold nl. now rewrite (split_token t LF "" Ht).
  - change (join " " (t :: t2 :: words'))
      with (t ++ " " ++ join " " (t2 :: words')).
    rewrite append_assoc.
    change ((" " ++ join " " (t2 :: words')) ++ nl)
      with (String " " (join " " (t2 :: words') ++ nl)).
    rewrite (split_token t " " _ Ht) by reflexivity.
    now rewrite IH.
Qed.

End Tokens.

(** * What [repr] prints is a token *)

Section ReprToken.
Import Str Float.

Lemma digit_not_space (c : ascii) : is_digit c = true -> negb (isspace c) = true.
Proof.
  destruct c as [[|] [|] [|] [|] [|] [|] [|] [|]]; intros H;
    first [reflexivity | discriminate H].
Qed.

Lemma digits_nospace (s : string) : all is_digit s = true -> nospace s = true.
Proof. apply all_impl, digit_not_space. Qed.

Lemma string_of_uint_digits (d : Decimal.uint) :
  all is_digit (NilEmpty.string_of_uint d) = true.
Proof. induction d; simpl; auto. Qed.

Lemma of_Z_digits (z : Z) : all is_digit (of_Z z) = true.
Proof.
  unfold of_Z, NilZero.string_of_uint.
  destruct (N.to_uint (Z.to_N z)) eqn:E; try reflexivity;
    rewrite <- E; apply string_of_uint_digits.
Qed.

Lemma zeros_digits (n : nat) : all is_digit (zeros n) = true.
Proof. induction n; simpl; auto. Qed.

Lemma layout_nospace (ds : string) (dp : Z) :
  all is_digit ds = true -> nospace (layout ds dp) = true.
Proof.
  intros Hds. pose proof (digits_nospace ds Hds) as Hns.
  unfold layout, nospace.
  repeat match goal with
         | |- context [if ?b then _ else _] => destruct b
         end;
    rewrite ?all_app;
    repeat (apply andb_true_intro; split);
    first [ reflexivity
          | now apply all_take
          | now apply all_drop
          | exact Hns
          | apply digits_nospace, zeros_digits
          | apply digits_nospace, of_Z_digits ].
Qed.

Lemma layout_nonempty (ds : string) (dp : Z) : layout ds dp <> "".
Proof.
  unfold layout.
  repeat match goal with
         | |- context [if ?b then _ else _] => destruct b
         end;
    repeat first [ discriminate
                 | apply append_nonempty_r ].
Qed.

Lemma repr_token (x : float) : token (repr x).
Proof.
  destruct x as [s|s| |s m e].
  - destruct s; (split; [discriminate | reflexivity]).
  - destruct s; (split; [discriminate | reflexivity]).
  - split; [discriminate | reflexivity].
  - unfold repr. destruct (shortest_digits m e) as [ds dp] eqn:E.
    assert (Hds : all is_digit ds = true).
    { unfold shortest_digits in E.
      destruct (shortest 16 1 m e (decpt m e)) as [d k].
      injection E as <- _. apply all_rstrip_by, of_Z_digits. }
    split.
    + apply append_nonempty_r, layout_nonempty.
    + unfold nospace. rewrite all_app. apply andb_true_intro. split.
      * now destruct s.
      * now apply layout_nospace.
Qed.

End ReprToken.

(** * What [parse] makes *)

Section Parsed.
Import Str TBFSBS.

Lemma rstrip_idem (s : string) : rstrip (rstrip s) = rstrip s.
Proof.
  unfold rstrip. induction s as [|c s IH]; [reflexivity|].
  cbn [rstrip_by].
  destruct (rstrip_by isspace s) as [|d r] eqn:E.
  - destruct (isspace c) eqn:Hc; [reflexivity|]. simpl. now rewrite Hc.
  - change (rstrip_by isspace (String c (String d r)))
      with (match rstrip_by isspace (String d r) with
            | "" => if isspace c then "" else String c ""
            | String a r0 => String c (String a r0)
            end).
    now rewrite IH.
Qed.

(** Reading one more row of a sequence keeps it as [well_parsed] has it. *)
Lemma seq_row (seq row : string) :
  rstrip seq = seq ->
  startswith seq "%" = false ->
  startswith row "%" = false ->
  rstrip (seq ++ rstrip row) = seq ++ rstrip row
  /\ startswith (seq ++ rstrip row) "%" = false.
Proof.
  intros Hfix Hseq Hrow. split.
  - destruct (rstrip row) eqn:E.
    + now rewrite append_nil_r.
    + rewrite <- E. apply rstrip_by_app_fixed.
      * apply rstrip_idem.
      * rewrite E. discriminate.
  - destruct seq as [|c seq].
    + now apply startswith_rstrip.
    + rewrite startswith_append by discriminate. exact Hseq.
Qed.

(** The tokens after the identifier give the target value and the
    description. *)
Lemma value_and_description_spec (header : list string) :
  Forall token header ->
  exists value words,
    value_and_description header = (value, join " " words)
    /\ Forall token words
    /\ (value = None -> first_not_float words).
Proof.
  intros Hh. unfold value_and_description.
  assert (H2 : Forall token (skipn 2 header)).
  { rewrite <- (firstn_skipn 2 header) in Hh. now apply Forall_app in Hh. }
  assert (H3 : Forall token (skipn 3 header)).
  { rewrite <- (firstn_skipn 3 header) in Hh. now apply Forall_app in Hh. }
  destruct (nth_error header 2) as [tok|] eqn:E.
  - destruct (Float.of_string tok) as [x|] eqn:Ex.
    + exists (Some x), (skipn 3 header). repeat split; auto. discriminate.
    + exists None, (skipn 2 header). repeat split; auto. intros _.
      destruct header as [|a [|b [|c h]]]; try discriminate.
      simpl in *. now injection E as ->.
  - exists None, (skipn 2 header). repeat split; auto. intros _.
    destruct header as [|a [|b [|c h]]]; try discriminate; exact I.
Qed.

Lemma flush_frame (self : t) (fr : Locals.t) (f : fields) :
  Locals.iD fr = Some (f_id f) ->
  Locals.target_value fr = Some (f_value f) ->
  Locals.description fr = Some (join " " (f_words f)) ->
  Locals.seq fr = Some (f_seq f) ->
  flush self fr = Ok (append self (record_of f)).
Proof. intros Hi Hv Hd Hs. unfold flush. now rewrite Hi, Hv, Hd, Hs. Qed.

Lemma append_parsed (self : t) (f : fields) :
  collection_parsed self -> well_parsed f ->
  collection_parsed (append self (record_of f)).
Proof.
  intros (fs & Hfs & Hwf) Hf. exists (fs ++ [f])%list. split.
  - simpl. now rewrite Hfs, map_app.
  - apply Forall_app. auto.
Qed.

(** One row keeps the collection and the local variables as [parse] makes
    them. *)
Lemma parse_row_parsed (self self' : t) (fr fr' : Locals.t) (row : string) :
  collection_parsed self ->
  frame_parsed fr ->
  parse_row self fr row = Continue self' fr' ->
  collection_parsed self' /\ frame_parsed fr'.
Proof.
  intros Hself Hfr. unfold parse_row.
  destruct (startswith row "%") eqn:Hrow.
  - assert (Hflushed : exists self1,
              match Locals.header fr with
              | [] => Ok self
              | _ :: _ => flush self fr
              end = Ok self1 /\ collection_parsed self1).
    { destruct Hfr as [(Hh & _) | (Hh & f & Hf & Hi & Hv & Hd & Hs)].
      - rewrite Hh. eauto.
      - destruct (Locals.header fr); [congruence|].
        rewrite (flush_frame self fr f Hi Hv Hd Hs).
        eexists. split; [reflexivity|]. now apply append_parsed. }
    destruct Hflushed as (self1 & -> & Hself1).
    pose proof (split_tokens row) as Htok.
    destruct (nth_error (split row) 1) as [id|] eqn:Hid; [|discriminate].
    destruct (value_and_description_spec (split row) Htok)
      as (value & words & -> & Hwords & Hfirst).
    intros [= <- <-]. split; [exact Hself1|]. right. cbn. split.
    + now apply split_header_nonempty.
    + exists {| f_id := id; f_value := value; f_words := words; f_seq := "" |}.
      cbn. repeat split; auto.
      * eapply Forall_forall in Htok; [apply Htok | eapply nth_error_In, Hid].
      * eapply Forall_forall in Htok; [apply Htok | eapply nth_error_In, Hid].
  - destruct Hfr as [(_ & _ & Hs) | (Hh & f & Hf & Hi & Hv & Hd & Hs)];
      rewrite Hs; cbn [Locals.read]; [discriminate|].
    intros [= <- <-]. split; [exact Hself|]. right. cbn. split; [exact Hh|].
    exists {| f_id := f_id f; f_value := f_value f; f_words := f_words f;
              f_seq := f_seq f ++ rstrip row |}.
    destruct Hf as (H1 & H2 & H3 & H4 & H5).
    destruct (seq_row (f_seq f) row H4 H5 Hrow) as [H6 H7].
    cbn. repeat split; auto; apply H1.
Qed.

(** The records of a collection [parse] returns are as [well_parsed] has
    them, and there is one at least. *)
Lemma parse_rows_parsed (rows : list string) :
  forall (self C : t) (fr : Locals.t),
  collection_parsed self ->
  frame_parsed fr ->
  parse_rows self fr rows = Returned C ->
  collection_parsed C /\ _list C <> [].
Proof.
  induction rows as [|row rows IH]; intros self C fr Hself Hfr; cbn [parse_rows].
  - destruct Hfr as [(_ & Hi & _) | (Hh & f & Hf & Hi & Hv & Hd & Hs)].
    + unfold flush. rewrite Hi. discriminate.
    + rewrite (flush_frame self fr f Hi Hv Hd Hs). intros [= <-]. split.
      * now apply append_parsed.
      * simpl. now destruct (_list self).
  - destruct (parse_row self fr row) as [self1 fr1|] eqn:E; [|discriminate].
    destruct (parse_row_parsed _ _ _ _ _ Hself Hfr E). now apply IH.
Qed.

Lemma init_parsed : collection_parsed __init__ /\ frame_parsed Locals.init.
Proof.
  split.
  - exists []. split; [reflexivity | constructor].
  - left. repeat split.
Qed.

End Parsed.

(** * Writing without wrapping *)

Section Unwrapped.
Import Str textwrap.

Lemma plain_char (c : ascii) :
  negb (whitespace c) || Ascii.eqb c SP = true ->
  Ascii.eqb c TAB = false /\ Ascii.eqb c LF = false /\ Ascii.eqb c CR = false
  /\ (if whitespace c then SP else c) = c.
Proof.
  intros H. repeat split.
  - destruct (Ascii.eqb_spec c TAB) as [->|]; [discriminate H | reflexivity].
  - destruct (Ascii.eqb_spec c LF) as [->|]; [discriminate H | reflexivity].
  - destruct (Ascii.eqb_spec c CR) as [->|]; [discriminate H | reflexivity].
  - destruct (whitespace c); [|reflexivity].
    simpl in H. now destruct (Ascii.eqb_spec c SP).
Qed.

Lemma expandtabs_plain (tabsize : nat) (s : string) :
  forall col, plain s = true -> expandtabs tabsize col s = s.
Proof.
  induction s as [|c s IH]; intros col; [reflexivity|].
  unfold plain. cbn [all expandtabs]. intros [Hc Hs]%andb_prop.
  destruct (plain_char c Hc) as (-> & -> & -> & _).
  cbn [orb]. now rewrite IH.
Qed.

Lemma translate_plain (s : string) : plain s = true -> translate s = s.
Proof.
  induction s as [|c s IH]; [reflexivity|].
  unfold plain. cbn [all translate]. intros [Hc Hs]%andb_prop.
  destruct (plain_char c Hc) as (_ & _ & _ & ->). now rewrite IH.
Qed.

Lemma plain_oneline (s : string) : plain s = true -> oneline s = true.
Proof.
  apply all_impl. intros c Hc.
  destruct (plain_char c Hc) as (_ & -> & -> & _). reflexivity.
Qed.

Lemma take_fitting_inf (chunks : list string) :
  forall cur_line cur_len,
  take_fitting Inf cur_line cur_len chunks =
  ((cur_line ++ chunks)%list, cur_len + total chunks, []).
Proof.
  induction chunks as [|c chunks IH]; intros cur_line cur_len; simpl.
  - now rewrite app_nil_r, Nat.add_0_r.
  - rewrite IH, <- app_assoc, Nat.add_assoc. reflexivity.
Qed.

(** A text that ends with a character that is no whitespace has a last
    chunk that is not blank. *)
Lemma drop_trailing_clean (chunks : list string) :
  Forall (fun c => c <> "") chunks ->
  rstrip (join "" chunks) = join "" chunks ->
  drop_trailing chunks = chunks.
Proof.
  intros Hne Hfix. unfold drop_trailing.
  destruct (List.rev chunks) as [|last before] eqn:Hr; [reflexivity|].
  destruct (blank last) eqn:Hb; [|reflexivity]. exfalso.
  apply rev_cons_inv in Hr. subst chunks.
  apply Forall_app in Hne as [_ Hlast].
  inversion Hlast as [|? ? Hl _]; subst.
  rewrite join_empty_app in Hfix. simpl in Hfix. unfold rstrip in Hfix.
  rewrite (rstrip_by_app_all isspace _ last Hb) in Hfix.
  apply (f_equal String.length) in Hfix. rewrite length_append in Hfix.
  pose proof (length_rstrip_by isspace (join "" (List.rev before))).
  destruct last; [congruence | simpl in *; lia].
Qed.

(** Without a width, [textwrap.fill] returns a plain text that does not end
    with whitespace as it is. *)
Lemma fill_inf (s : string) :
  plain s = true -> rstrip s = s -> fill s Inf = Ok s.
Proof.
  intros Hp Hfix. unfold fill, wrap, _wrap_chunks, _split_chunks, _munge_whitespace.
  rewrite expandtabs_plain, translate_plain by assumption.
  destruct (split_chunks_spec (String.length s) "" s (le_n _))
    as (Hjoin & Hne & _). fold (_split s) in Hjoin, Hne.
  destruct (_split s) as [|c cs] eqn:E.
  - simpl in *. now subst s.
  - cbn [wrap_loop]. unfold wrap_line. cbn [drop_leading].
    rewrite take_fitting_inf. cbn [app break_long].
    rewrite (drop_trailing_clean (c :: cs) Hne) by now rewrite Hjoin.
    cbn [emit app]. rewrite Hjoin.
    destruct (total (c :: cs)); reflexivity.
Qed.

End Unwrapped.

(** * The rows of a written text *)

Section Rows.
Import Str File.

Lemma oneline_app (s t : string) :
  oneline (s ++ t) = oneline s && oneline t.
Proof. apply all_app. Qed.

Lemma nospace_oneline (s : string) : nospace s = true -> oneline s = true.
Proof.
  apply all_impl. intros c Hc. apply negb_true_iff in Hc.
  destruct (Ascii.eqb_spec c LF) as [->|]; [discriminate|].
  destruct (Ascii.eqb_spec c CR) as [->|]; [discriminate|]. reflexivity.
Qed.

Lemma join_words_oneline (words : list string) :
  Forall token words -> oneline (join " " words) = true.
Proof.
  induction words as [|t words IH]; intros H; [reflexivity|].
  inversion H as [|? ? [_ Ht] Hw]; subst.
  destruct words as [|t2 words'].
  - now apply nospace_oneline.
  - change (join " " (t :: t2 :: words'))
      with (t ++ " " ++ join " " (t2 :: words')).
    rewrite !oneline_app, (nospace_oneline t Ht), (IH Hw). reflexivity.
Qed.

Lemma universal_newlines_id (s : string) :
  nocr s = true -> universal_newlines s = s.
Proof.
  induction s as [|c s IH]; [reflexivity|].
  unfold nocr. cbn [all universal_newlines]. intros [Hc Hs]%andb_prop.
  apply negb_true_iff in Hc. rewrite Hc. now rewrite IH.
Qed.

Lemma lines_from_nolf (l : string) :
  forall cur rest,
  nolf l = true -> lines_from cur (l ++ rest) = lines_from (rev l ++ cur) rest.
Proof.
  induction l as [|c l IH]; intros cur rest; [reflexivity|].
  unfold nolf. cbn [all]. intros [Hc Hl]%andb_prop. apply negb_true_iff in Hc.
  cbn [append lines_from rev]. rewrite Hc, (IH _ _ Hl), append_assoc.
  reflexivity.
Qed.

(** A line and its line feed make a row. *)
Lemma lines_from_line (l rest : string) :
  nolf l = true ->
  lines_from "" (l ++ nl ++ rest) = (l ++ nl) :: lines_from "" rest.
Proof.
  intros Hl. rewrite (lines_from_nolf l "" _ Hl), append_nil_r.
  cbn [nl append lines_from]. cbn [rev]. now rewrite rev_rev.
Qed.

(** What is left after the last line feed is a row if it is not empty. *)
Lemma lines_from_last (l : string) :
  nolf l = true ->
  lines_from "" l = match l with "" => [] | _ => [l] end.
Proof.
  intros Hl. rewrite <- (append_nil_r l) at 1.
  rewrite (lines_from_nolf l "" "" Hl), append_nil_r. cbn [lines_from].
  destruct l as [|c l]; [reflexivity|].
  destruct (rev (String c l)) eqn:E.
  - apply rev_empty in E. discriminate.
  - now rewrite <- E, rev_rev.
Qed.

End Rows.

(** * Writing a collection and parsing it again *)

Section RoundTrip.
Import Str TBFSBS.

Lemma oneline_nolf (s : string) : oneline s = true -> nolf s = true.
Proof. apply all_impl. now intros c [H _]%andb_prop. Qed.

Lemma oneline_nocr (s : string) : oneline s = true -> nocr s = true.
Proof. apply all_impl. now intros c [_ H]%andb_prop. Qed.

Lemma header_text_oneline (f : fields) :
  well_parsed f -> oneline (header_text f) = true.
Proof.
  intros ([_ Hid] & Hwords & _). unfold header_text.
  rewrite !oneline_app, (nospace_oneline _ Hid), (join_words_oneline _ Hwords).
  destruct (f_value f) as [v|]; [|reflexivity].
  destruct (Float.truthy v); [|reflexivity].
  rewrite oneline_app, (nospace_oneline _ (proj2 (repr_token v))). reflexivity.
Qed.

(** *** The text *)

Lemma write_record_text (f : fields) :
  well_parsed f -> writable f ->
  write_record (record_of f) textwrap.Inf =
  Ok (header_text f ++ nl ++ f_seq f ++ nl).
Proof.
  intros (_ & _ & _ & Hfix & _) [_ Hplain].
  unfold write_record, record_of. cbn.
  rewrite (fill_inf (f_seq f) Hplain Hfix). cbn [bind].
  unfold header_text. f_equal.
  repeat first [rewrite append_assoc | progress cbn [String.append]]. reflexivity.
Qed.

Lemma write_records_cons (r : TBFSBS_Record.t) (l : list TBFSBS_Record.t)
    (w : textwrap.width) (acc : string) :
  write_records (r :: l) w acc =
  (s <- write_record r w ;; write_records l w (acc ++ s)).
Proof. reflexivity. Qed.

Lemma write_records_text (fs : list fields) :
  forall (f : fields) (acc : string),
  Forall well_parsed (f :: fs) -> Forall writable (f :: fs) ->
  write_records (map record_of (f :: fs)) textwrap.Inf acc =
  Ok (acc ++ header_text f ++ nl ++ text_from (f_seq f) fs ++ nl).
Proof.
  induction fs as [|f2 fs IH]; intros f acc Hp Hw;
    inversion Hp as [|? ? Hpf Hpfs]; inversion Hw as [|? ? Hwf Hwfs]; subst;
    rewrite map_cons, write_records_cons, (write_record_text f Hpf Hwf);
    cbn [bind].
  - cbn [map write_records text_from]. now rewrite ?append_assoc.
  - rewrite (IH f2 _ Hpfs Hwfs). cbn [text_from]. now rewrite ?append_assoc.
Qed.

(** *** Its rows *)

Lemma rows_text_from (fs : list fields) :
  forall seq,
  oneline seq = true ->
  Forall well_parsed fs -> Forall writable fs ->
  nocr (text_from seq fs) = true
  /\ File.lines_from "" (text_from seq fs) = rows_from seq fs.
Proof.
  induction fs as [|f fs IH]; intros seq Hseq Hp Hw; cbn [text_from rows_from].
  - split; [now apply oneline_nocr | now apply lines_from_last, oneline_nolf].
  - inversion Hp as [|? ? Hpf Hpfs]; inversion Hw as [|? ? [_ Hplain] Hwfs];
      subst.
    pose proof (header_text_oneline f Hpf) as Hh.
    destruct (IH (f_seq f) (plain_oneline _ Hplain) Hpfs Hwfs) as [Hcr Hrows].
    split.
    + pose proof (oneline_nocr _ Hseq) as H1.
      pose proof (oneline_nocr _ Hh) as H2.
      unfold nocr in *. rewrite !all_app, H1, H2, Hcr. reflexivity.
    + rewrite (lines_from_line seq _ (oneline_nolf _ Hseq)).
      rewrite (lines_from_line (header_text f) _ (oneline_nolf _ Hh)).
      now rewrite Hrows.
Qed.

Lemma rows_written (f : fields) (fs : list fields) :
  Forall well_parsed (f :: fs) -> Forall writable (f :: fs) ->
  File.rows (header_text f ++ nl ++ text_from (f_seq f) fs) =
  (header_text f ++ nl) :: rows_from (f_seq f) fs.
Proof.
  intros Hp Hw.
  inversion Hp as [|? ? Hpf Hpfs]; inversion Hw as [|? ? [_ Hplain] Hwfs]; subst.
  pose proof (header_text_oneline f Hpf) as Hh.
  destruct (rows_text_from fs (f_seq f) (plain_oneline _ Hplain) Hpfs Hwfs)
    as [Hcr Hrows].
  unfold File.rows. rewrite universal_newlines_id.
  - rewrite (lines_from_line (header_text f) _ (oneline_nolf _ Hh)).
    now rewrite Hrows.
  - pose proof (oneline_nocr _ Hh) as H2.
    unfold nocr in *. rewrite !all_app, H2, Hcr. reflexivity.
Qed.

(** *** Parsing the rows *)

Lemma split_header_text (f : fields) :
  well_parsed f -> writable f ->
  split (header_text f ++ nl) =
  "%" :: f_id f
  :: (match f_value f with Some v => [Float.repr v] | None => [] end
      ++ f_words f)%list.
Proof.
  intros (Hid & Hwords & _) [Hv _]. unfold header_text.
  set (V := match f_value f with
            | Some v => if Float.truthy v then Float.repr v ++ " " else ""
            | None => ""
            end).
  transitivity
    (split ("%" ++ String " " ((f_id f ++ " " ++ V ++ join " " (f_words f)) ++ nl)));
    [reflexivity|].
  rewrite split_token; [|split; [discriminate | reflexivity] | reflexivity].
  rewrite append_assoc.
  change ((" " ++ V ++ join " " (f_words f)) ++ nl)
    with (String " " ((V ++ join " " (f_words f)) ++ nl)).
  rewrite (split_token _ " " _ Hid) by reflexivity.
  subst V. destruct (f_value f) as [v|].
  - destruct Hv as [-> _]. rewrite !append_assoc.
    change (" " ++ join " " (f_words f) ++ nl)
      with (String " " (join " " (f_words f) ++ nl)).
    rewrite (split_token _ " " _ (repr_token v)) by reflexivity.
    now rewrite (split_join_words _ Hwords).
  - cbn [String.append app]. now rewrite (split_join_words _ Hwords).
Qed.

Lemma header_row_marker (f : fields) :
  startswith (header_text f ++ nl) "%" = true.
Proof. reflexivity. Qed.

(** The header line of [f] flushes the record pending and binds the local
    variables to the fields of [f]. *)
Lemma parse_header_row (self : t) (fr : Locals.t) (f : fields) :
  well_parsed f -> writable f ->
  parse_row self fr (header_text f ++ nl) =
  match
    match Locals.header fr with
    | [] => Ok self
    | _ :: _ => flush self fr
    end
  with
  | Ok self1 => Continue self1 (frame_of f "")
  | Raise e => Stop e self
  end.
Proof.
  intros Hp Hw. unfold parse_row, frame_of.
  rewrite header_row_marker, (split_header_text f Hp Hw).
  destruct (match Locals.header fr with [] => Ok self | _ :: _ => flush self fr end);
    [|reflexivity].
  cbn [nth_error]. unfold value_and_description.
  destruct Hp as (_ & _ & Hfirst & _). destruct Hw as [Hv _].
  destruct (f_value f) as [v|].
  - destruct Hv as [_ Hread]. cbn [app nth_error]. rewrite Hread.
    reflexivity.
  - cbn [app]. destruct (f_words f) as [|t words]; [reflexivity|].
    cbn [nth_error]. now rewrite (Hfirst eq_refl).
Qed.

(** A line of the sequence of [f], with its line feed or without. *)
Lemma parse_sequence_row (self : t) (f : fields) (tail : string) :
  well_parsed f ->
  all isspace tail = true ->
  parse_row self (frame_of f "") (f_seq f ++ tail) =
  Continue self (frame_of f (f_seq f)).
Proof.
  intros (_ & _ & _ & Hfix & Hseq) Htail. unfold parse_row.
  assert (startswith (f_seq f ++ tail) "%" = false) as ->.
  { destruct (f_seq f) as [|c seq] eqn:E.
    - destruct tail as [|c tail]; [reflexivity|].
      cbn [String.append startswith]. simpl in Htail.
      apply andb_prop in Htail as [Hc _].
      destruct (Ascii.eqb_spec "%"%char c) as [<-|]; [discriminate | reflexivity].
    - rewrite startswith_append by discriminate. exact Hseq. }
  cbn [Locals.seq frame_of Locals.read String.append]. unfold rstrip in *.
  now rewrite (rstrip_by_app_all isspace _ tail Htail), Hfix.
Qed.

Lemma flush_frame_of (self : t) (f : fields) :
  flush self (frame_of f (f_seq f)) = Ok (append self (record_of f)).
Proof. now apply flush_frame. Qed.

(** The rows after the header line of [f] give the record of [f] and the
    records after it. *)
Lemma parse_rows_from (fs : list fields) :
  forall (f : fields) (self : t),
  Forall well_parsed (f :: fs) -> Forall writable (f :: fs) ->
  parse_rows self (frame_of f "") (rows_from (f_seq f) fs) =
  Returned {| _list := (_list self ++ map record_of (f :: fs))%list |}.
Proof.
  induction fs as [|f2 fs IH]; intros f self Hp Hw;
    inversion Hp as [|? ? Hpf Hpfs]; inversion Hw as [|? ? Hwf Hwfs]; subst.
  - cbn [rows_from]. destruct (f_seq f) as [|c seq] eqn:E.
    + cbn [parse_rows]. rewrite <- E at 1. now rewrite flush_frame_of.
    + cbn [parse_rows]. rewrite <- E.
      rewrite <- (append_nil_r (f_seq f)) at 1.
      rewrite (parse_sequence_row self f "" Hpf eq_refl).
      now rewrite flush_frame_of.
  - cbn [rows_from parse_rows].
    rewrite (parse_sequence_row self f nl Hpf eq_refl).
    inversion Hpfs as [|? ? Hpf2 _]; inversion Hwfs as [|? ? Hwf2 _]; subst.
    rewrite (parse_header_row self _ f2 Hpf2 Hwf2).
    cbn [frame_of Locals.header]. rewrite (split_header_text f Hpf Hwf).
    rewrite (flush_frame self _ f) by reflexivity.
    rewrite (IH f2 _ Hpfs Hwfs). cbn [TBFSBS.append _list map].
    now rewrite <- app_assoc.
Qed.

(** C1, amended.  Let [C] be a collection built by parsing an input, in
    which every target value that is set is not zero and is read back by
    [float] from its [repr], and no sequence has a tab, a line feed, a
    vertical tab, a form feed or a carriage return.  Then [write] without
    wrapping gives a text, and parsing that text gives [C] again: as many
    records, with the same identifiers, target values, descriptions and
    sequences. *)
Theorem write_parse_roundtrip (content : string) (C : t) :
  parse __init__ content = Returned C ->
  Forall (fun r => match TBFSBS_Record.target_value r with
                   | Some v => shown_and_read_back v
                   | None => True
                   end) (_list C) ->
  Forall (fun r => match TBFSBS_Record.sequence r with
                   | Some s => plain s = true
                   | None => True
                   end) (_list C) ->
  exists text,
    write C textwrap.Inf = Ok text /\ parse __init__ text = Returned C.
Proof.
  intros Hparse Hval Hseq.
  destruct (parse_rows_parsed _ _ _ _ (proj1 init_parsed) (proj2 init_parsed)
              Hparse) as [(fs & Hfs & Hwp) Hne].
  destruct C as [l]. cbn [_list] in *. subst l.
  assert (Hw : Forall writable fs).
  { rewrite Forall_forall in Hval, Hseq |- *. intros f Hin.
    pose proof (in_map record_of _ _ Hin) as Hr.
    split; [exact (Hval _ Hr) | exact (Hseq _ Hr)]. }
  destruct fs as [|f fs]; [now contradiction Hne|].
  exists (header_text f ++ nl ++ text_from (f_seq f) fs). split.
  - unfold write. cbn [_list].
    rewrite (write_records_text fs f "" Hwp Hw). cbn [bind]. f_equal.
    replace ("" ++ header_text f ++ nl ++ text_from (f_seq f) fs ++ nl)
      with ((header_text f ++ nl ++ text_from (f_seq f) fs) ++ nl)
      by (now rewrite !append_assoc).
    apply drop_last_nl.
  - inversion Hwp as [|? ? Hpf _]; inversion Hw as [|? ? Hwf _]; subst.
    unfold parse. rewrite (rows_written f fs Hwp Hw). cbn [parse_rows].
    rewrite (parse_header_row __init__ Locals.init f Hpf Hwf).
    cbn [Locals.header Locals.init].
    now rewrite (parse_rows_from fs f __init__ Hwp Hw).
Qed.

Lemma write_parse_roundtrip_witness :
  let C :=
    {| _list :=
         [ Examples.record "A" (Some Examples.one_and_a_half) "desc one"
             "ACGTACGT";
           Examples.record "B" None "desc two" "TTTT" ] |} in
  parse __init__ Examples.two_records = Returned C
  /\ exists text,
       write C textwrap.Inf = Ok text /\ parse __init__ text = Returned C.
Proof.
  intros C.
  assert (Hparse : parse __init__ Examples.two_records = Returned C)
    by (vm_compute; reflexivity).
  split; [exact Hparse|].
  apply (write_parse_roundtrip Examples.two_records C Hparse).
  - repeat constructor; vm_compute; reflexivity.
  - repeat constructor.
Defined.

End RoundTrip.

(** * More on [parse]: what it appends, when it returns *)

Section ParseOutcome.
Import Str TBFSBS.

Lemma collection_eq (x y : t) : _list x = _list y -> x = y.
Proof. destruct x, y. simpl. now intros ->. Qed.

Lemma flush_prefix (l : list TBFSBS_Record.t) (self : t) (fr : Locals.t) :
  flush {| _list := l ++ _list self |} fr =
  match flush self fr with
  | Ok s => Ok {| _list := l ++ _list s |}
  | Raise e => Raise e
  end.
Proof.
  unfold flush.
  destruct (Locals.iD fr), (Locals.target_value fr),
    (Locals.description fr), (Locals.seq fr); cbn; try reflexivity.
  unfold append. cbn. now rewrite app_assoc.
Qed.

Lemma parse_row_prefix (l : list TBFSBS_Record.t) (self : t) (fr : Locals.t)
    (row : string) :
  parse_row {| _list := l ++ _list self |} fr row =
  match parse_row self fr row with
  | Continue s f => Continue {| _list := l ++ _list s |} f
  | Stop e s => Stop e {| _list := l ++ _list s |}
  end.
Proof.
  unfold parse_row. destruct (startswith row "%").
  - destruct (Locals.header fr).
    + destruct (nth_error (split row) 1); [|reflexivity].
      now destruct (value_and_description (split row)).
    + rewrite flush_prefix. destruct (flush self fr); [|reflexivity].
      destruct (nth_error (split row) 1); [|reflexivity].
      now destruct (value_and_description (split row)).
  - now destruct (Locals.read (Locals.seq fr)).
Qed.

Lemma parse_rows_prefix (l : list TBFSBS_Record.t) (rows : list string) :
  forall (self : t) (fr : Locals.t),
  parse_rows {| _list := l ++ _list self |} fr rows =
  match parse_rows self fr rows with
  | Returned s => Returned {| _list := l ++ _list s |}
  | Raised e s => Raised e {| _list := l ++ _list s |}
  end.
Proof.
  induction rows as [|row rows IH]; intros self fr; cbn [parse_rows].
  - rewrite flush_prefix. now destruct (flush self fr).
  - rewrite parse_row_prefix.
    destruct (parse_row self fr row) as [s f|e s]; [apply IH | reflexivity].
Qed.

Lemma parse_prefix (A : t) (content : string) :
  parse A content =
  match parse __init__ content with
  | Returned F => Returned (extend A F)
  | Raised e F => Raised e (extend A F)
  end.
Proof.
  unfold parse.
  pose proof (parse_rows_prefix (_list A) (File.rows content) __init__
                Locals.init) as H.
  cbn [_list __init__] in H. rewrite app_nil_r in H.
  replace {| _list := _list A |} with A in H by now destruct A.
  rewrite H.
  destruct (parse_rows __init__ Locals.init (File.rows content));
    f_equal; apply collection_eq; now rewrite extend_list.
Qed.

(** X1.  What [parse] does to a collection that already holds records is
    what it does to an empty collection, put after these records: parsing
    a file into the collection [A] ends as parsing it into a new collection
    [F] and extending [A] with [F], whether [parse] returns or raises. *)
Theorem parse_is_parse_then_extend (A : t) (content : string) :
  parse A content =
  match parse __init__ content with
  | Returned F => Returned (extend A F)
  | Raised e F => Raised e (extend A F)
  end.
Proof. exact (parse_prefix A content). Qed.

(** *** When [parse] returns *)

Lemma header_seen_after (self : t) (fr : Locals.t) (row : string) :
  header_seen fr ->
  (has_identifier row = true ->
   exists self' fr',
     parse_row self fr row = Continue self' fr'
     /\ header_seen fr'
     /\ __len__ self' = __len__ self + (if is_header row then 1 else 0))
  /\ (has_identifier row = false ->
      exists self', parse_row self fr row = Stop IndexError self').
Proof.
  intros (Hh & i & v & d & q & Hi & Hv & Hd & Hq).
  unfold has_identifier, is_header, parse_row.
  destruct (startswith row "%") eqn:Hrow; cbn [negb orb].
  - destruct (Locals.header fr) as [|h hs]; [congruence|].
    unfold flush. rewrite Hi, Hv, Hd, Hq. cbn [bind Locals.read].
    destruct (nth_error (split row) 1) as [id|] eqn:Hid; split;
      try discriminate.
    + intros _. destruct (value_and_description (split row)) as [v' d'].
      eexists _, _. split; [reflexivity|]. split.
      * split; [cbn; now apply split_header_nonempty | cbn; eauto 10].
      * unfold __len__, append. cbn. rewrite length_app. reflexivity.
    + intros _. eauto.
  - rewrite Hq. cbn [Locals.read]. split; [|discriminate]. intros _.
    eexists _, _. split; [reflexivity|]. split.
    + split; [exact Hh | cbn; eauto 10].
    + lia.
Qed.

(** After a header line, the rows are read without an exception if and
    only if every header line among them has an identifier; one record is
    made for the header line read and one for every header line to come. *)
Lemma parse_rows_seen (rows : list string) :
  forall (self : t) (fr : Locals.t),
  header_seen fr ->
  if forallb has_identifier rows then
    exists C,
      parse_rows self fr rows = Returned C
      /\ __len__ C = __len__ self + 1 + List.length (filter is_header rows)
  else exists C, parse_rows self fr rows = Raised IndexError C.
Proof.
  induction rows as [|row rows IH]; intros self fr Hfr.
  - cbn. destruct Hfr as (_ & i & v & d & q & Hi & Hv & Hd & Hq).
    unfold flush. rewrite Hi, Hv, Hd, Hq. cbn.
    eexists. split; [reflexivity|]. unfold __len__. cbn.
    rewrite length_app. cbn. lia.
  - cbn [forallb filter parse_rows].
    destruct (header_seen_after self fr row Hfr) as [Hyes Hno].
    destruct (has_identifier row).
    + destruct (Hyes eq_refl) as (self' & fr' & -> & Hfr' & Hlen).
      cbn [andb]. specialize (IH self' fr' Hfr').
      destruct (forallb has_identifier rows).
      * destruct IH as (C & -> & HC). exists C. split; [reflexivity|].
        rewrite HC, Hlen. destruct (is_header row); cbn; lia.
      * exact IH.
    + destruct (Hno eq_refl) as (self' & ->). cbn. eauto.
Qed.

(** How [parse] ends, from the rows of the file. *)
Lemma parse_outcome (self : t) (content : string) :
  match File.rows content with
  | [] => parse self content = Raised UnboundLocalError self
  | row :: rows =>
    if is_header row then
      if forallb has_identifier (row :: rows) then
        exists C,
          parse self content = Returned C
          /\ __len__ C =
             __len__ self + List.length (filter is_header (row :: rows))
      else exists C, parse self content = Raised IndexError C
    else parse self content = Raised UnboundLocalError self
  end.
Proof.
  unfold parse. destruct (File.rows content) as [|row rows]; [reflexivity|].
  unfold is_header at 1. destruct (startswith row "%") eqn:Hrow.
  - cbn [forallb filter parse_rows]. unfold has_identifier at 1, is_header at 1 2.
    rewrite Hrow. cbn [negb orb]. unfold parse_row. rewrite Hrow.
    cbn [Locals.header Locals.init].
    destruct (nth_error (split row) 1) as [id|] eqn:Hid.
    + destruct (value_and_description (split row)) as [v d]. cbn [andb].
      match goal with
      | |- context [parse_rows self ?fr rows] =>
        assert (Hfr : header_seen fr)
          by (split; [cbn; now apply split_header_nonempty | cbn; eauto 10]);
        pose proof (parse_rows_seen rows self fr Hfr) as H
      end.
      destruct (forallb has_identifier rows).
      * destruct H as (C & -> & HC). exists C. split; [reflexivity|].
        rewrite HC. cbn. lia.
      * exact H.
    + cbn. eauto.
  - cbn [parse_rows]. now rewrite (parse_row_body_first self row Hrow).
Qed.

(** X2.  [parse] returns if and only if the file has a first line, that
    line is a header line, and every header line of the file has an
    identifier, that is a second token. *)
Theorem parse_returns_iff (self : t) (content : string) :
  (exists C, parse self content = Returned C)
  <-> exists row rows,
        File.rows content = row :: rows
        /\ is_header row = true
        /\ forallb has_identifier (row :: rows) = true.
Proof.
  pose proof (parse_outcome self content) as H.
  destruct (File.rows content) as [|row rows].
  - rewrite H. split; [intros [C HC]; discriminate|].
    intros (r & rs & Hr & _). discriminate.
  - destruct (is_header row) eqn:Hrow.
    + destruct (forallb has_identifier (row :: rows)) eqn:Hall.
      * destruct H as (C & HC & _). split; [eauto 10 | eauto].
      * destruct H as (C & HC). rewrite HC.
        split; [intros [C' HC']; discriminate|].
        intros (r & rs & [= <- <-] & _ & Hf). congruence.
    + rewrite H. split; [intros [C HC]; discriminate|].
      intros (r & rs & [= <- <-] & Hh & _). congruence.
Qed.

(** X3.  When [parse] returns, it has appended one record for every header
    line of the file, and so one record at least. *)
Theorem parse_record_count (self C : t) (content : string) :
  parse self content = Returned C ->
  __len__ C = __len__ self + List.length (filter is_header (File.rows content))
  /\ __len__ self < __len__ C.
Proof.
  intros HC. pose proof (parse_outcome self content) as H.
  destruct (File.rows content) as [|row rows]; [congruence|].
  destruct (is_header row) eqn:Hrow; [|congruence].
  destruct (forallb has_identifier (row :: rows)).
  - destruct H as (C' & HC' & Hlen). rewrite HC in HC'. injection HC' as <-.
    split; [exact Hlen|]. rewrite Hlen. cbn [filter]. rewrite Hrow. cbn. lia.
  - destruct H as (C' & HC'). congruence.
Qed.

Lemma parse_record_count_witness :
  let C :=
    {| _list :=
         [ Examples.record "A" (Some Examples.one_and_a_half) "desc one"
             "ACGTACGT";
           Examples.record "B" None "desc two" "TTTT" ] |} in
  parse __init__ Examples.two_records = Returned C
  /\ __len__ C =
     __len__ __init__
     + List.length (filter is_header (File.rows Examples.two_records))
  /\ __len__ __init__ < __len__ C.
Proof.
  intros C.
  assert (H : parse __init__ Examples.two_records = Returned C)
    by (vm_compute; reflexivity).
  split; [exact H|].
  exact (parse_record_count __init__ C Examples.two_records H).
Defined.

End ParseOutcome.

(** * More on the rows of a file *)

Section RowsOfFiles.
Import Str File.

(** A character other than a carriage return cuts the translation of
    newlines in two. *)
Lemma universal_newlines_app (x : string) (a : ascii) (t : string) :
  Ascii.eqb a CR = false ->
  universal_newlines (x ++ String a t) =
  universal_newlines (x ++ String a "") ++ universal_newlines t.
Proof.
  intros Ha. induction x as [|c x IH].
  - cbn [append universal_newlines]. now rewrite Ha.
  - cbn [append universal_newlines]. destruct (Ascii.eqb c CR).
    + destruct x as [|d x].
      * cbn [append] in *. destruct (Ascii.eqb a LF); [exact IH|].
        now rewrite IH.
      * cbn [append] in *. destruct (Ascii.eqb d LF); [exact IH|].
        now rewrite IH.
    + now rewrite IH.
Qed.

Lemma universal_newlines_last (x : string) (a : ascii) :
  Ascii.eqb a CR = false ->
  exists y, universal_newlines (x ++ String a "") = y ++ String a "".
Proof.
  intros Ha. induction x as [|c x [y IH]].
  - exists "". cbn. now rewrite Ha.
  - cbn [append universal_newlines]. destruct (Ascii.eqb c CR).
    + destruct x as [|d x]; cbn [append] in *.
      * destruct (Ascii.eqb a LF); [now exists y | now exists (String LF y); rewrite IH].
      * destruct (Ascii.eqb d LF); [now exists y | now exists (String LF y); rewrite IH].
    + exists (String c y). now rewrite IH.
Qed.

Lemma lines_from_app (y b : string) :
  forall cur,
  lines_from cur (y ++ String LF b) =
  (lines_from cur (y ++ nl) ++ lines_from "" b)%list.
Proof.
  induction y as [|c y IH]; intros cur.
  - reflexivity.
  - cbn [append lines_from]. destruct (Ascii.eqb c LF).
    + now rewrite IH.
    + apply IH.
Qed.

(** The rows of two files put end to end, the first one ending with a line
    feed, are the rows of the first and then the rows of the second. *)
Lemma rows_app (x c2 : string) :
  rows ((x ++ nl) ++ c2) = (rows (x ++ nl) ++ rows c2)%list.
Proof.
  unfold rows, nl. rewrite append_assoc. cbn [append].
  rewrite (universal_newlines_app x LF c2) by reflexivity.
  destruct (universal_newlines_last x LF eq_refl) as [y ->].
  rewrite append_assoc. cbn [append]. apply lines_from_app.
Qed.

Lemma lines_from_cur (s : string) :
  forall cur, cur <> "" ->
  exists tail rest, lines_from cur s = (rev cur ++ tail) :: rest.
Proof.
  induction s as [|c s IH]; intros cur Hcur.
  - destruct cur; [congruence|]. exists "", []. cbn [lines_from].
    now rewrite append_nil_r.
  - cbn [lines_from]. destruct (Ascii.eqb c LF).
    + exists (String c ""), (lines_from "" s). reflexivity.
    + destruct (IH (String c cur)) as (tail & rest & ->); [discriminate|].
      exists (String c tail), rest. cbn [rev]. now rewrite append_assoc.
Qed.

(** A file that starts with the marker has a first row, a header line. *)
Lemma rows_header_first (c2 : string) :
  startswith c2 "%" = true ->
  exists row rest, rows c2 = row :: rest /\ startswith row "%" = true.
Proof.
  destruct c2 as [|c t]; [discriminate|]. cbn [startswith].
  destruct (Ascii.eqb_spec "%"%char c) as [<-|]; [|discriminate]. intros _.
  unfold rows.
  assert (H : lines_from "" (universal_newlines (String "%" t)) =
              lines_from "%" (universal_newlines t)) by reflexivity.
  rewrite H.
  destruct (lines_from_cur (universal_newlines t) "%") as (tail & rest & ->);
    [discriminate|].
  exists (String "%" tail), rest. split; [reflexivity|].
  cbn [startswith]. now rewrite startswith_nil.
Qed.

Lemma lines_from_nonempty (y : string) :
  forall cur, lines_from cur (y ++ nl) <> [].
Proof.
  induction y as [|c y IH]; intros cur; cbn [append nl lines_from].
  - cbn. discriminate.
  - destruct (Ascii.eqb c LF); [discriminate | apply IH].
Qed.

Lemma rows_nonempty (x : string) : rows (x ++ nl) <> [].
Proof.
  unfold rows. destruct (universal_newlines_last x LF eq_refl) as [y Hy].
  unfold nl. rewrite Hy. apply lines_from_nonempty.
Qed.

(** A line feed after the last character, which is no newline, goes to the
    last row. *)
Lemma lines_from_snoc (y : string) (a : ascii) :
  Ascii.eqb a LF = false ->
  forall cur,
  exists pre r,
    lines_from cur (y ++ String a "") = (pre ++ [r])%list
    /\ lines_from cur (y ++ String a nl) = (pre ++ [(r ++ nl)%string])%list
    /\ r <> "".
Proof.
  intros Ha. induction y as [|c y IH]; intros cur.
  - exists [], (rev (String a cur)). cbn [append lines_from nl].
    rewrite Ha. cbn [lines_from].
    split; [reflexivity|]. split.
    + now destruct (Ascii.eqb LF LF).
    + cbn [rev]. apply append_nonempty_r. discriminate.
  - cbn [append lines_from]. destruct (Ascii.eqb c LF).
    + destruct (IH "") as (pre & r & -> & -> & Hr).
      exists (rev (String c cur) :: pre), r. auto.
    + apply IH.
Qed.

Lemma rows_snoc (x : string) (a : ascii) :
  Ascii.eqb a LF = false -> Ascii.eqb a CR = false ->
  exists pre r,
    rows (x ++ String a "") = (pre ++ [r])%list
    /\ rows ((x ++ String a "") ++ nl) = (pre ++ [(r ++ nl)%string])%list
    /\ r <> "".
Proof.
  intros Hlf Hcr. unfold rows.
  rewrite append_assoc. cbn [append].
  rewrite (universal_newlines_app x a nl Hcr).
  destruct (universal_newlines_last x a Hcr) as [y ->].
  rewrite append_assoc. cbn [append universal_newlines]. cbn.
  apply (lines_from_snoc y a Hlf "").
Qed.

End RowsOfFiles.

(** * More on [parse]: records, blocks, files put end to end *)

Section ParseCompose.
Import Str TBFSBS.

Lemma parsed_records (self C : t) (content : string) :
  parse self content = Returned C ->
  exists fs,
    _list C = (_list self ++ map record_of fs)%list
    /\ Forall well_parsed fs
    /\ fs <> [].
Proof.
  rewrite parse_prefix.
  destruct (parse __init__ content) as [F|e F] eqn:HF; [|discriminate].
  intros [= <-].
  destruct (parse_rows_parsed _ _ _ _ (proj1 init_parsed) (proj2 init_parsed) HF)
    as [(fs & Hfs & Hwp) Hne].
  exists fs. rewrite extend_list, Hfs. repeat split; auto.
  intros ->. now apply Hne.
Qed.

(** X4.  Every record [parse] appends has strings for its identifier,
    description and sequence: the identifier is one token, the description
    is made of tokens with single spaces between them, its first token
    being no numeral when the record has no target value, and the sequence
    neither ends with whitespace nor starts with the marker. *)
Theorem parse_makes_well_formed_records (self C : t) (content : string) :
  parse self content = Returned C ->
  exists fs,
    _list C = (_list self ++ map record_of fs)%list
    /\ Forall well_parsed fs
    /\ fs <> [].
Proof. exact (parsed_records self C content). Qed.

Lemma parse_makes_well_formed_records_witness :
  exists C,
    parse __init__ Examples.two_records = Returned C
    /\ exists fs,
         _list C = (_list __init__ ++ map record_of fs)%list
         /\ Forall well_parsed fs
         /\ fs <> [].
Proof.
  destruct (parse __init__ Examples.two_records) as [C|e C] eqn:E;
    [|vm_compute in E; discriminate E].
  exists C. split; [reflexivity|].
  exact (parse_makes_well_formed_records __init__ C Examples.two_records E).
Defined.

(** *** One block *)

(** The rows of a sequence, none of them a header line, are stripped of
    their trailing whitespace and put end to end. *)
Lemma run_body (body : list string) :
  forall (self : t) (fr : Locals.t) (q : string),
  Locals.seq fr = Some q ->
  Forall (fun row => is_header row = false) body ->
  run_rows self fr body =
  Continue self
    {| Locals.header := Locals.header fr;
       Locals.iD := Locals.iD fr;
       Locals.target_value := Locals.target_value fr;
       Locals.description := Locals.description fr;
       Locals.seq := Some (q ++ join "" (map rstrip body)) |}.
Proof.
  induction body as [|row body IH]; intros self fr q Hq Hbody.
  - cbn. rewrite append_nil_r. destruct fr. cbn in *. now subst.
  - inversion Hbody as [|? ? Hrow Hrest]; subst. unfold is_header in Hrow.
    cbn [run_rows]. unfold parse_row. rewrite Hrow, Hq. cbn [Locals.read].
    rewrite (IH _ _ (q ++ rstrip row)) by (reflexivity || assumption).
    cbn [Locals.header Locals.iD Locals.target_value Locals.description map].
    now rewrite join_empty_cons, append_assoc.
Qed.

Lemma parse_block (self : t) (hrow id : string) (body : list string) :
  is_header hrow = true ->
  nth_error (split hrow) 1 = Some id ->
  Forall (fun row => is_header row = false) body ->
  parse_rows self Locals.init (hrow :: body) =
  Returned
    (append self
       {| TBFSBS_Record.identifier := Some id;
          TBFSBS_Record.target_value :=
            fst (value_and_description (split hrow));
          TBFSBS_Record.description :=
            Some (snd (value_and_description (split hrow)));
          TBFSBS_Record.sequence := Some (join "" (map rstrip body)) |}).
Proof.
  intros Hh Hid Hbody. unfold is_header in Hh.
  change (hrow :: body) with ([hrow] ++ body)%list.
  rewrite parse_rows_app. cbn [run_rows]. unfold parse_row at 1.
  rewrite Hh, Hid. cbn [Locals.header Locals.init].
  destruct (value_and_description (split hrow)) as [v d].
  rewrite <- (app_nil_r body), parse_rows_app, app_nil_r.
  rewrite (run_body body self _ "") by (reflexivity || assumption).
  reflexivity.
Qed.

(** X5.  A file of one header line with an identifier and of lines that
    are no header lines parses to one record; its sequence is these lines,
    each without its trailing whitespace, put end to end. *)
Theorem parse_one_block (self : t) (content hrow id : string)
    (body : list string) :
  File.rows content = hrow :: body ->
  is_header hrow = true ->
  nth_error (split hrow) 1 = Some id ->
  Forall (fun row => is_header row = false) body ->
  parse self content =
  Returned
    (append self
       {| TBFSBS_Record.identifier := Some id;
          TBFSBS_Record.target_value :=
            fst (value_and_description (split hrow));
          TBFSBS_Record.description :=
            Some (snd (value_and_description (split hrow)));
          TBFSBS_Record.sequence := Some (join "" (map rstrip body)) |}).
Proof.
  intros Hrows Hh Hid Hbody. unfold parse. rewrite Hrows.
  now apply parse_block.
Qed.

Lemma parse_one_block_witness :
  let content := "% A 1.5 desc one" ++ nl ++ "AC GT  " ++ nl ++ nl ++ " TT" in
  let hrow := "% A 1.5 desc one" ++ nl in
  let body := ["AC GT  " ++ nl; nl; " TT"] in
  File.rows content = hrow :: body
  /\ parse __init__ content =
     Returned
       {| _list :=
            [ Examples.record "A" (Some Examples.one_and_a_half) "desc one"
                "AC GT TT" ] |}.
Proof.
  intros content hrow body. split; [reflexivity|].
  rewrite (parse_one_block __init__ content hrow "A" body);
    [vm_compute; reflexivity | reflexivity | reflexivity | reflexivity |].
  repeat constructor.
Defined.

(** *** Files put end to end *)

Lemma parse_rows_returned (rows : list string) :
  forall (self C : t) (fr : Locals.t),
  parse_rows self fr rows = Returned C ->
  exists s f, run_rows self fr rows = Continue s f /\ flush s f = Ok C.
Proof.
  induction rows as [|row rows IH]; intros self C fr; cbn [parse_rows run_rows].
  - destruct (flush self fr) eqn:E; [|discriminate]. intros [= <-]. eauto.
  - destruct (parse_row self fr row); [apply IH | discriminate].
Qed.

(** The identifier is bound only once a header line has been read. *)
Lemma run_rows_header (rows : list string) :
  forall (self s : t) (fr f : Locals.t),
  (Locals.header fr = [] -> Locals.iD fr = None) ->
  run_rows self fr rows = Continue s f ->
  Locals.header f = [] -> Locals.iD f = None.
Proof.
  induction rows as [|row rows IH]; intros self s fr f Hfr; cbn [run_rows].
  - now intros [= <- <-].
  - destruct (parse_row self fr row) as [s1 f1|] eqn:E; [|discriminate].
    apply IH. unfold parse_row in E.
    destruct (startswith row "%") eqn:Hrow.
    + destruct (match Locals.header fr with [] => Ok self | _ :: _ => flush self fr end);
        [|discriminate].
      destruct (nth_error (split row) 1); [|discriminate].
      destruct (value_and_description (split row)).
      injection E as <- <-. cbn. intros H.
      now apply split_header_nonempty in H.
    + destruct (Locals.read (Locals.seq fr)); [|discriminate].
      injection E as <- <-. exact Hfr.
Qed.

(** A header line read after a record that can be flushed does what it
    does at the start of a file, to the collection with that record. *)
Lemma parse_row_restart (s S1 : t) (f : Locals.t) (row : string) :
  startswith row "%" = true ->
  flush s f = Ok S1 ->
  Locals.header f <> [] ->
  parse_row s f row = parse_row S1 Locals.init row.
Proof.
  intros Hrow Hflush Hh. unfold parse_row. rewrite Hrow.
  destruct (Locals.header f); [congruence|]. now rewrite Hflush.
Qed.

Lemma flush_header (rows : list string) (self s S1 : t) (f : Locals.t) :
  run_rows self Locals.init rows = Continue s f ->
  flush s f = Ok S1 ->
  Locals.header f <> [].
Proof.
  intros Hrun Hflush Hh.
  assert (Locals.iD f = None) as Hi
    by (eapply run_rows_header; [| exact Hrun | exact Hh]; reflexivity).
  unfold flush in Hflush. now rewrite Hi in Hflush.
Qed.

(** X6.  Parsing two files put end to end, the first one ending with a
    line feed and parsed without an exception, the second one starting with
    a header line, is parsing the first and then the second into the same
    collection. *)
Theorem parse_concatenation (self S1 : t) (x c2 : string) :
  parse self (x ++ nl) = Returned S1 ->
  startswith c2 "%" = true ->
  parse self ((x ++ nl) ++ c2) = parse S1 c2.
Proof.
  unfold parse. intros H1 H2. rewrite rows_app, parse_rows_app.
  apply parse_rows_returned in H1 as (s & f & Hrun & Hflush). rewrite Hrun.
  destruct (rows_header_first c2 H2) as (row & rest & -> & Hrow).
  cbn [parse_rows].
  now rewrite (parse_row_restart s S1 f row Hrow Hflush
                 (flush_header _ _ _ _ _ Hrun Hflush)).
Qed.

Lemma parse_concatenation_witness :
  let x := "% A 1.5 desc one" ++ nl ++ "ACGT" ++ nl ++ "ACGT" in
  let c2 := "% B desc two" ++ nl ++ "TTTT" ++ nl in
  let S1 :=
    {| _list :=
         [ Examples.record "A" (Some Examples.one_and_a_half) "desc one"
             "ACGTACGT" ] |} in
  parse __init__ (x ++ nl) = Returned S1
  /\ startswith c2 "%" = true
  /\ parse __init__ ((x ++ nl) ++ c2) = parse S1 c2.
Proof.
  intros x c2 S1.
  assert (H : parse __init__ (x ++ nl) = Returned S1)
    by (vm_compute; reflexivity).
  split; [exact H|]. split; [reflexivity|].
  exact (parse_concatenation __init__ S1 x c2 H eq_refl).
Defined.

End ParseCompose.

(** * Line feeds, blank lines and a header line that fails *)

Section LinesOfFiles.
Import Str File TBFSBS.

Lemma snoc_cases (s : string) :
  s = "" \/ exists x a, s = x ++ String a "".
Proof.
  induction s as [|c s IH]; [now left | right].
  destruct IH as [-> | (x & a & ->)].
  - now exists "", c.
  - now exists (String c x), a.
Qed.

Lemma universal_newlines_crlf (x : string) :
  universal_newlines (x ++ String CR nl) = universal_newlines (x ++ String CR "").
Proof.
  induction x as [|c x IH]; [reflexivity|].
  cbn [String.append universal_newlines]. rewrite IH.
  destruct x; reflexivity.
Qed.

Lemma split_from_blank (t : string) :
  forall word, all isspace t = true -> split_from word t = split_from word "".
Proof.
  induction t as [|c t IH]; intros word; [reflexivity|].
  cbn [all split_from]. intros [-> Ht]%andb_prop.
  destruct word; rewrite (IH "" Ht); reflexivity.
Qed.

Lemma split_from_app_blank (s t : string) :
  forall word,
  all isspace t = true -> split_from word (s ++ t) = split_from word s.
Proof.
  induction s as [|c s IH]; intros word Ht.
  - now apply split_from_blank.
  - cbn [String.append split_from]. rewrite !IH by assumption. reflexivity.
Qed.

(** A row reads the same with whitespace after it. *)
Lemma parse_row_app_blank (self : t) (fr : Locals.t) (r tail : string) :
  r <> "" -> all isspace tail = true ->
  parse_row self fr (r ++ tail) = parse_row self fr r.
Proof.
  intros Hr Ht. unfold parse_row, split, rstrip.
  now rewrite (startswith_append r tail _ Hr), split_from_app_blank,
    rstrip_by_app_all.
Qed.

Lemma parse_row_seq (self s : t) (fr f : Locals.t) (row : string) :
  parse_row self fr row = Continue s f -> exists q, Locals.seq f = Some q.
Proof.
  unfold parse_row. destruct (startswith row "%").
  - destruct (match Locals.header fr with [] => Ok self | _ :: _ => flush self fr end);
      [|discriminate].
    destruct (nth_error (split row) 1); [|discriminate].
    destruct (value_and_description (split row)).
    intros [= <- <-]. now eexists.
  - destruct (Locals.read (Locals.seq fr)); [|discriminate].
    intros [= <- <-]. now eexists.
Qed.

(** Once a row has been read, [seq] is bound. *)
Lemma run_rows_seq (rows : list string) :
  forall (self s : t) (fr f : Locals.t),
  rows <> [] \/ (exists q, Locals.seq fr = Some q) ->
  run_rows self fr rows = Continue s f ->
  exists q, Locals.seq f = Some q.
Proof.
  induction rows as [|row rows IH]; intros self s fr f Hb; cbn [run_rows].
  - intros [= <- <-]. destruct Hb as [Hb|Hb]; [congruence | exact Hb].
  - destruct (parse_row self fr row) as [s1 f1|] eqn:E; [|discriminate].
    apply IH. right. exact (parse_row_seq _ _ _ _ _ E).
Qed.

(** A line of whitespace, read when [seq] is bound, changes nothing. *)
Lemma parse_row_blank (self : t) (fr : Locals.t) (row q : string) :
  all isspace row = true ->
  Locals.seq fr = Some q ->
  parse_row self fr row = Continue self fr.
Proof.
  intros Hrow Hq. unfold parse_row.
  assert (startswith row "%" = false) as ->.
  { destruct row as [|c row]; [reflexivity|].
    cbn [all] in Hrow. apply andb_prop in Hrow as [Hc _].
    cbn [startswith].
    destruct (Ascii.eqb_spec "%"%char c) as [<-|]; [discriminate | reflexivity]. }
  rewrite Hq. cbn [Locals.read]. unfold rstrip.
  rewrite (rstrip_by_all _ _ Hrow), append_nil_r.
  destruct fr. cbn in *. now subst.
Qed.

Lemma run_rows_app (pre rest : list string) :
  forall (self : t) (fr : Locals.t),
  run_rows self fr (pre ++ rest) =
  match run_rows self fr pre with
  | Continue self' fr' => run_rows self' fr' rest
  | Stop e self' => Stop e self'
  end.
Proof.
  induction pre as [|row pre IH]; intros self fr; cbn [app run_rows].
  - reflexivity.
  - destruct (parse_row self fr row); [apply IH | reflexivity].
Qed.

Lemma rows_line (l : string) : oneline l = true -> rows (l ++ nl) = [l ++ nl].
Proof.
  intros Hl. unfold rows. rewrite universal_newlines_id.
  - change (l ++ nl) with (l ++ nl ++ "").
    now rewrite (lines_from_line l "" (oneline_nolf _ Hl)).
  - unfold nocr. rewrite all_app.
    now rewrite (oneline_nocr _ Hl : all _ l = true).
Qed.

Lemma parse_nl (self : t) (content : string) :
  parse self (content ++ nl) = parse self content.
Proof.
  destruct (snoc_cases content) as [-> | (x & a & ->)]; [reflexivity|].
  destruct (Ascii.eqb_spec a LF) as [->|Hlf].
  - unfold parse. fold nl.
    rewrite rows_app, parse_rows_app.
    rewrite <- (app_nil_r (rows (x ++ nl))) at 2. rewrite parse_rows_app.
    destruct (run_rows self Locals.init (rows (x ++ nl))) as [s f|] eqn:E;
      [|reflexivity].
    destruct (run_rows_seq _ _ _ _ _ (or_introl (rows_nonempty x)) E) as [q Hq].
    change (rows nl) with [nl]. cbn [parse_rows].
    now rewrite (parse_row_blank s f nl q eq_refl Hq).
  - destruct (Ascii.eqb_spec a CR) as [->|Hcr].
    + unfold parse, rows. rewrite append_assoc. cbn [String.append].
      now rewrite universal_newlines_crlf.
    + apply Ascii.eqb_neq in Hlf, Hcr.
      destruct (rows_snoc x a Hlf Hcr) as (pre & r & H1 & H2 & Hr).
      unfold parse. rewrite H1, H2, !parse_rows_app.
      destruct (run_rows self Locals.init pre) as [s f|]; [|reflexivity].
      cbn [parse_rows]. now rewrite (parse_row_app_blank s f r nl Hr).
Qed.

(** X7.  A line feed at the end of the file makes no difference to what
    [parse] does, whatever the file is. *)
Theorem parse_final_newline (self : t) (content : string) :
  parse self (content ++ nl) = parse self content.
Proof. exact (parse_nl self content). Qed.

(** X8.  A line that is empty or made of whitespace only, anywhere after
    the first line of the file, makes no difference to what [parse] does. *)
Theorem parse_ignores_blank_lines (self : t) (x ws c2 : string) :
  all isspace ws = true ->
  oneline ws = true ->
  parse self ((x ++ nl) ++ (ws ++ nl) ++ c2) = parse self ((x ++ nl) ++ c2).
Proof.
  intros Hws Hone. unfold parse.
  rewrite !rows_app, (rows_line ws Hone), !parse_rows_app.
  destruct (run_rows self Locals.init (rows (x ++ nl))) as [s f|] eqn:E;
    [|reflexivity].
  destruct (run_rows_seq _ _ _ _ _ (or_introl (rows_nonempty x)) E) as [q Hq].
  cbn [app parse_rows]. rewrite (parse_row_blank s f (ws ++ nl) q); [reflexivity| |exact Hq].
  now rewrite all_app, Hws.
Qed.

Lemma parse_ignores_blank_lines_witness :
  let x := "% A 1.5 desc one" ++ nl ++ "ACGT" in
  let ws := String SP (String TAB "") in
  let c2 := "ACGT" ++ nl ++ "% B desc two" ++ nl ++ "TTTT" ++ nl in
  all isspace ws = true
  /\ oneline ws = true
  /\ (x ++ nl) ++ c2 = Examples.two_records
  /\ parse __init__ ((x ++ nl) ++ (ws ++ nl) ++ c2)
     = parse __init__ ((x ++ nl) ++ c2).
Proof.
  intros x ws c2. split; [reflexivity|]. split; [reflexivity|].
  split; [reflexivity|].
  exact (parse_ignores_blank_lines __init__ x ws c2 eq_refl eq_refl).
Defined.

(** *** A header line without identifier, after records that are read *)

(** X9.  [parse] is not all or nothing: when a header line without
    identifier follows lines that parse well, [IndexError] leaves [parse]
    with the collection holding every record of the lines before, the
    pending one included, and nothing of the lines after. *)
Theorem parse_keeps_records_before_bad_header
    (self S1 : t) (x c2 row : string) (rest : list string) :
  parse self (x ++ nl) = Returned S1 ->
  rows c2 = row :: rest ->
  is_header row = true ->
  nth_error (split row) 1 = None ->
  parse self ((x ++ nl) ++ c2) = Raised IndexError S1.
Proof.
  unfold parse, is_header. intros H1 H2 Hrow Hid.
  rewrite rows_app, parse_rows_app.
  apply parse_rows_returned in H1 as (s & f & Hrun & Hflush). rewrite Hrun, H2.
  cbn [parse_rows].
  rewrite (parse_row_restart s S1 f row Hrow Hflush
             (flush_header _ _ _ _ _ Hrun Hflush)).
  unfold parse_row. now rewrite Hrow, Hid.
Qed.

Lemma parse_keeps_records_before_bad_header_witness :
  let x := "% A 1.5 desc one" ++ nl ++ "ACGT" in
  let c2 := "%  " ++ nl ++ "% B desc two" ++ nl ++ "TTTT" ++ nl in
  let S1 :=
    {| _list :=
         [ Examples.record "A" (Some Examples.one_and_a_half) "desc one"
             "ACGT" ] |} in
  parse __init__ (x ++ nl) = Returned S1
  /\ rows c2 = ("%  " ++ nl) :: ["% B desc two" ++ nl; "TTTT" ++ nl]
  /\ parse __init__ ((x ++ nl) ++ c2) = Raised IndexError S1.
Proof.
  intros x c2 S1.
  assert (H : parse __init__ (x ++ nl) = Returned S1)
    by (vm_compute; reflexivity).
  split; [exact H|]. split; [reflexivity|].
  exact (parse_keeps_records_before_bad_header __init__ S1 x c2 _ _ H
           eq_refl eq_refl eq_refl).
Defined.

(** *** The exceptions of [parse] *)

(** X10.  On the text of a file, that is once [open] and the decoding of
    the bytes of the file have given [parse] its rows without an exception
    of their own, [parse] raises nothing but [UnboundLocalError] and
    [IndexError]; in particular a third token that is no numeral never
    makes it fail.  With [UnboundLocalError] the collection is left as it
    was, and with [IndexError] it holds what it held, in front of what has
    been added. *)
Theorem parse_raises_only (self C : t) (content : string) (e : exn) :
  parse self content = Raised e C ->
  (e = UnboundLocalError /\ C = self)
  \/ (e = IndexError /\ exists added, _list C = (_list self ++ added)%list).
Proof.
  intros H. pose proof (parse_outcome self content) as Ho.
  destruct (File.rows content) as [|row rows0] eqn:Er.
  - rewrite Ho in H. injection H as <- <-. now left.
  - destruct (is_header row).
    + destruct (forallb has_identifier (row :: rows0)).
      * destruct Ho as (C' & Ho & _). congruence.
      * destruct Ho as (C' & Ho). rewrite Ho in H. injection H as <- <-.
        right. split; [reflexivity|].
        rewrite parse_prefix in Ho.
        destruct (parse __init__ content) as [F|e F]; [discriminate|].
        injection Ho as _ <-. exists (_list F). apply extend_list.
    + rewrite Ho in H. injection H as <- <-. now left.
Qed.

Lemma parse_raises_only_witness :
  parse __init__ Examples.marker_only = Raised IndexError __init__
  /\ ((IndexError = UnboundLocalError /\ __init__ = __init__)
      \/ (IndexError = IndexError
          /\ exists added, _list __init__ = (_list __init__ ++ added)%list)).
Proof.
  assert (H : parse __init__ Examples.marker_only = Raised IndexError __init__)
    by (vm_compute; reflexivity).
  split; [exact H|].
  exact (parse_raises_only __init__ __init__ Examples.marker_only IndexError H).
Defined.

End LinesOfFiles.

(** * Writing with a width and parsing again *)

Section WrappedRoundTrip.
Import Str TBFSBS.

Lemma fill_lines (w : textwrap.width) (s : string) :
  positive_width w ->
  textwrap.fill s w = Ok (join nl (wrapped_lines w s)).
Proof.
  intros Hw. unfold textwrap.fill, wrapped_lines, textwrap.wrap,
    textwrap._wrap_chunks.
  destruct w as [z|].
  - cbn in Hw. assert ((z <=? 0)%Z = false) as -> by (apply Z.leb_gt; lia).
    now destruct (textwrap.wrap_loop _ _ _ _).
  - now destruct (textwrap.wrap_loop _ _ _ _).
Qed.

Lemma wrapped_lines_join (w : textwrap.width) (s : string) :
  positive_width w -> nospace s = true -> join "" (wrapped_lines w s) = s.
Proof.
  intros Hw Hs.
  assert (exists lines,
            textwrap.wrap s w = Ok lines /\ join "" lines = s)
    as (lines & E & Hj).
  { unfold textwrap.wrap, textwrap._wrap_chunks, textwrap._split_chunks.
    rewrite (munge_nospace s Hs).
    destruct (split_chunks_spec (String.length s) "" s (le_n _))
      as (Hjoin & Hne & Hns). fold (textwrap._split s) in Hjoin, Hne, Hns.
    destruct (wrap_loop_spec w Hw (S (textwrap.total (textwrap._split s)))
                (textwrap._split s) [] Hne (Nat.lt_succ_diag_r _))
      as (lines & E & _ & Hj).
    exists lines. rewrite E. split.
    - destruct w as [z|]; [|reflexivity]. cbn in Hw.
      now assert ((z <=? 0)%Z = false) as -> by (apply Z.leb_gt; lia).
    - now rewrite (Hj (Hns Hs)), Hjoin. }
  unfold wrapped_lines. now rewrite E.
Qed.

Lemma all_join_empty (p : ascii -> bool) (l : list string) :
  all p (join "" l) = forallb (all p) l.
Proof.
  induction l as [|x l IH]; [reflexivity|].
  rewrite join_empty_cons, all_app, IH. reflexivity.
Qed.

Lemma wrapped_lines_all (p : ascii -> bool) (w : textwrap.width) (s : string) :
  positive_width w -> nospace s = true -> all p s = true ->
  Forall (fun l => all p l = true) (wrapped_lines w s).
Proof.
  intros Hw Hs Hp. apply Forall_forall. intros l Hl.
  rewrite <- (wrapped_lines_join w s Hw Hs), all_join_empty in Hp.
  rewrite forallb_forall in Hp. auto.
Qed.

Lemma nospace_plain (s : string) : nospace s = true -> plain s = true.
Proof.
  apply all_impl. intros c Hc. apply negb_true_iff in Hc.
  destruct (textwrap.whitespace c) eqn:E; [|reflexivity].
  apply whitespace_isspace in E. congruence.
Qed.

Lemma rstrip_nospace (s : string) : nospace s = true -> rstrip s = s.
Proof.
  unfold rstrip, nospace. induction s as [|c s IH]; [reflexivity|].
  cbn [all rstrip_by]. intros [Hc Hs]%andb_prop. rewrite (IH Hs).
  apply negb_true_iff in Hc. rewrite Hc. now destruct s.
Qed.

(** *** The text *)

Lemma write_record_lines (w : textwrap.width) (f : fields) :
  positive_width w ->
  write_record (record_of f) w =
  Ok (header_text f ++ nl ++ join nl (wrapped_lines w (f_seq f)) ++ nl).
Proof.
  intros Hw. unfold write_record, record_of. cbn.
  rewrite (fill_lines w (f_seq f) Hw). cbn [bind].
  unfold header_text. f_equal.
  repeat first [rewrite append_assoc | progress cbn [String.append]]. reflexivity.
Qed.

Lemma write_records_lines (w : textwrap.width) (fs : list fields) :
  positive_width w ->
  forall acc,
  write_records (map record_of fs) w acc = Ok (acc ++ records_text w fs).
Proof.
  intros Hw. induction fs as [|f fs IH]; intros acc.
  - cbn. now rewrite append_nil_r.
  - rewrite map_cons, write_records_cons, (write_record_lines w f Hw).
    cbn [bind]. rewrite IH. cbn [records_text]. now rewrite ?append_assoc.
Qed.

Lemma records_text_nl (w : textwrap.width) (fs : list fields) :
  fs <> [] -> exists text, records_text w fs = text ++ nl.
Proof.
  induction fs as [|f fs IH]; [congruence | intros _].
  cbn [records_text]. destruct fs as [|f2 fs].
  - cbn [records_text]. rewrite append_nil_r.
    exists (header_text f ++ nl ++ join nl (wrapped_lines w (f_seq f))).
    now rewrite ?append_assoc.
  - destruct IH as [text E]; [discriminate|]. rewrite E.
    exists (header_text f ++ nl ++ join nl (wrapped_lines w (f_seq f)) ++ nl
            ++ text).
    now rewrite ?append_assoc.
Qed.

(** *** Its rows *)

Lemma lines_rows_text (lines : list string) (rest : string) :
  Forall (fun l => oneline l = true) lines ->
  nocr (join nl lines ++ nl) = true
  /\ File.lines_from "" (join nl lines ++ nl ++ rest) =
     (lines_rows lines ++ File.lines_from "" rest)%list.
Proof.
  induction lines as [|l lines IH]; intros H.
  - split; [reflexivity|]. exact (lines_from_line "" rest eq_refl).
  - inversion H as [|? ? Hl Hls]; subst. destruct lines as [|l2 lines].
    + cbn [join lines_rows map app]. split.
      * unfold nocr. rewrite all_app.
        now rewrite (oneline_nocr _ Hl : all _ l = true).
      * exact (lines_from_line l rest (oneline_nolf _ Hl)).
    + destruct (IH Hls) as [Hcr Hrows].
      change (join nl (l :: l2 :: lines)) with (l ++ nl ++ join nl (l2 :: lines)).
      split.
      * unfold nocr in *. rewrite !append_assoc, all_app.
        rewrite (oneline_nocr _ Hl : all _ l = true).
        cbn [nl String.append all]. cbn [nl String.append all] in Hcr.
        exact Hcr.
      * rewrite !append_assoc.
        rewrite (lines_from_line l _ (oneline_nolf _ Hl)), Hrows.
        reflexivity.
Qed.

Lemma rows_records_text (w : textwrap.width) (fs : list fields) :
  positive_width w ->
  Forall well_parsed fs ->
  Forall (fun f => nospace (f_seq f) = true) fs ->
  nocr (records_text w fs) = true
  /\ File.lines_from "" (records_text w fs) = records_rows w fs.
Proof.
  intros Hw. induction fs as [|f fs IH]; intros Hp Hs; [now split|].
  inversion Hp as [|? ? Hpf Hpfs]; inversion Hs as [|? ? Hsf Hsfs]; subst.
  destruct (IH Hpfs Hsfs) as [Hcr Hrows].
  pose proof (header_text_oneline f Hpf) as Hh.
  assert (Hl : Forall (fun l => oneline l = true) (wrapped_lines w (f_seq f))).
  { eapply Forall_impl; [|exact (wrapped_lines_all _ w _ Hw Hsf Hsf)].
    intros l. apply nospace_oneline. }
  destruct (lines_rows_text _ (records_text w fs) Hl) as [Hcr2 Hrows2].
  cbn [records_text records_rows]. split.
  - unfold nocr in *.
    rewrite all_app, (oneline_nocr _ Hh : all _ (header_text f) = true).
    change (nl ++ join nl (wrapped_lines w (f_seq f)) ++ nl ++ records_text w fs)
      with (String LF (join nl (wrapped_lines w (f_seq f)) ++ nl
                       ++ records_text w fs)).
    cbn [all]. rewrite <- append_assoc, all_app, Hcr2, Hcr. reflexivity.
  - rewrite (lines_from_line (header_text f) _ (oneline_nolf _ Hh)).
    now rewrite Hrows2, Hrows.
Qed.

(** *** Parsing the rows *)

(** The rows of the lines of the sequence of [f] are read as that
    sequence. *)
Lemma run_lines (self : t) (f : fields) (lines : list string) :
  Forall (fun l => nospace l = true) lines ->
  Forall (fun l => no_marker l = true) lines ->
  join "" lines = f_seq f ->
  run_rows self (frame_of f "") (lines_rows lines) =
  Continue self (frame_of f (f_seq f)).
Proof.
  intros Hns Hnm Hj.
  rewrite (run_body (lines_rows lines) self (frame_of f "") "" eq_refl).
  - unfold frame_of. cbn [Locals.header Locals.iD Locals.target_value
                            Locals.description String.append].
    do 3 f_equal. rewrite <- Hj.
    destruct lines as [|l lines]; [reflexivity|].
    unfold lines_rows. rewrite map_map. f_equal.
    transitivity (map (fun x : string => x) (l :: lines)); [|apply map_id].
    apply map_ext_Forall. eapply Forall_impl; [|exact Hns].
    intros x Hx. unfold rstrip.
    rewrite (rstrip_by_app_all isspace x nl eq_refl).
    exact (rstrip_nospace x Hx).
  - assert (Forall (fun row => is_header row = false)
              (map (fun l => l ++ nl) lines)) as Hm.
    { apply Forall_map. eapply Forall_impl; [|exact Hnm].
      intros x Hx. unfold is_header. destruct x as [|c x]; [reflexivity|].
      cbn [String.append startswith]. unfold no_marker in Hx.
      cbn [all] in Hx. apply andb_prop in Hx as [Hc _].
      apply negb_true_iff in Hc. rewrite Ascii.eqb_sym, Hc. reflexivity. }
    destruct lines; [repeat constructor | exact Hm].
Qed.

Lemma parse_records_rows (w : textwrap.width) (fs : list fields) :
  positive_width w ->
  forall (f : fields) (self : t),
  Forall well_parsed (f :: fs) ->
  Forall writable (f :: fs) ->
  Forall (fun f => nospace (f_seq f) = true) (f :: fs) ->
  Forall (fun f => no_marker (f_seq f) = true) (f :: fs) ->
  parse_rows self (frame_of f "")
    (lines_rows (wrapped_lines w (f_seq f)) ++ records_rows w fs) =
  Returned {| _list := (_list self ++ map record_of (f :: fs))%list |}.
Proof.
  intros Hw. induction fs as [|f2 fs IH]; intros f self Hp Hwr Hs Hm;
    inversion Hp as [|? ? Hpf Hpfs]; inversion Hwr as [|? ? Hwf Hwfs];
    inversion Hs as [|? ? Hsf Hsfs]; inversion Hm as [|? ? Hmf Hmfs]; subst;
    rewrite parse_rows_app,
      (run_lines self f _ (wrapped_lines_all _ w _ Hw Hsf Hsf)
         (wrapped_lines_all _ w _ Hw Hsf Hmf) (wrapped_lines_join w _ Hw Hsf)).
  - cbn [records_rows parse_rows]. now rewrite flush_frame_of.
  - cbn [records_rows parse_rows].
    inversion Hpfs as [|? ? Hpf2 _]; inversion Hwfs as [|? ? Hwf2 _]; subst.
    rewrite (parse_header_row self _ f2 Hpf2 Hwf2).
    cbn [frame_of Locals.header]. rewrite (split_header_text f Hpf Hwf).
    rewrite (flush_frame self _ f) by reflexivity.
    rewrite (IH f2 _ Hpfs Hwfs Hsfs Hmfs). cbn [TBFSBS.append _list map].
    now rewrite <- app_assoc.
Qed.

Lemma written_and_parsed (w : textwrap.width) (fs : list fields) :
  positive_width w ->
  fs <> [] ->
  Forall well_parsed fs ->
  Forall writable fs ->
  Forall (fun f => nospace (f_seq f) = true) fs ->
  Forall (fun f => no_marker (f_seq f) = true) fs ->
  exists text,
    write {| _list := map record_of fs |} w = Ok text
    /\ parse __init__ text = Returned {| _list := map record_of fs |}.
Proof.
  intros Hw Hne Hp Hwr Hs Hm.
  destruct (records_text_nl w fs Hne) as [text E]. exists text. split.
  - unfold write. cbn [_list]. rewrite (write_records_lines w fs Hw).
    cbn [bind String.append]. now rewrite E, drop_last_nl.
  - rewrite <- parse_nl, <- E. unfold parse, File.rows.
    destruct (rows_records_text w fs Hw Hp Hs) as [Hcr Hrows].
    rewrite (universal_newlines_id _ Hcr), Hrows.
    destruct fs as [|f fs]; [congruence|].
    inversion Hp as [|? ? Hpf _]; inversion Hwr as [|? ? Hwf _]; subst.
    cbn [records_rows parse_rows].
    rewrite (parse_header_row __init__ Locals.init f Hpf Hwf).
    cbn [Locals.header Locals.init].
    now rewrite (parse_records_rows w fs Hw f __init__ Hp Hwr Hs Hm).
Qed.

(** X11.  Let [C] be a collection built by parsing an input, in which
    every target value that is set is not zero and is read back by [float]
    from its [repr], and no sequence has whitespace or the marker in it.
    Then [write] with any width of at least 1, or without one, gives a
    text, and parsing that text gives [C] again. *)
Theorem write_wrapped_parse_roundtrip
    (content : string) (C : t) (w : textwrap.width) :
  parse __init__ content = Returned C ->
  positive_width w ->
  Forall (fun r => match TBFSBS_Record.target_value r with
                   | Some v => shown_and_read_back v
                   | None => True
                   end) (_list C) ->
  Forall (fun r => match TBFSBS_Record.sequence r with
                   | Some s => nospace s = true /\ no_marker s = true
                   | None => True
                   end) (_list C) ->
  exists text, write C w = Ok text /\ parse __init__ text = Returned C.
Proof.
  intros Hparse Hw Hval Hseq.
  destruct (parsed_records __init__ C content Hparse) as (fs & Hfs & Hwp & Hne).
  destruct C as [l]. cbn [_list __init__ app] in *. subst l.
  rewrite Forall_forall in Hval, Hseq.
  apply (written_and_parsed w fs Hw Hne Hwp); apply Forall_forall; intros f Hin;
    pose proof (in_map record_of _ _ Hin) as Hr;
    pose proof (Hval _ Hr) as Hv; pose proof (Hseq _ Hr) as [Hs Hm].
  - split; [exact Hv | exact (nospace_plain _ Hs)].
  - exact Hs.
  - exact Hm.
Qed.

Lemma write_wrapped_parse_roundtrip_witness :
  let C :=
    {| _list :=
         [ Examples.record "A" (Some Examples.one_and_a_half) "desc one"
             "ACGTACGT";
           Examples.record "B" None "desc two" "TTTT" ] |} in
  parse __init__ Examples.two_records = Returned C
  /\ positive_width (textwrap.Width 3)
  /\ write C (textwrap.Width 3) =
     Ok ("% A 1.5 desc one" ++ nl ++ "ACG" ++ nl ++ "TAC" ++ nl ++ "GT" ++ nl
         ++ "% B desc two" ++ nl ++ "TTT" ++ nl ++ "T")
  /\ exists text,
       write C (textwrap.Width 3) = Ok text
       /\ parse __init__ text = Returned C.
Proof.
  intros C.
  assert (Hparse : parse __init__ Examples.two_records = Returned C)
    by (vm_compute; reflexivity).
  split; [exact Hparse|]. split; [cbn; lia|].
  split; [vm_compute; reflexivity|].
  apply (write_wrapped_parse_roundtrip Examples.two_records C _ Hparse).
  - cbn; lia.
  - repeat constructor; vm_compute; reflexivity.
  - repeat constructor.
Defined.

End WrappedRoundTrip.

(** * The lines [textwrap] makes *)

Section Lines.
Import Str textwrap.

(** X12.  Whatever the sequence is, whitespace and hyphens included, no
    line that [textwrap.fill] makes of it for [write] is longer than a
    width of at least 1. *)
Theorem wrap_lines_within_width (s : string) (z : Z) :
  (1 <= z)%Z ->
  exists lines,
    wrap s (Width z) = Ok lines
    /\ fill s (Width z) = Ok (join nl lines)
    /\ Forall (fun line => (Z.of_nat (String.length line) <= z)%Z) lines.
Proof.
  intros Hz. unfold fill, wrap, _wrap_chunks.
  assert ((z <=? 0)%Z = false) as -> by (apply Z.leb_gt; lia).
  destruct (wrap_loop_spec (Width z) Hz (S (total (_split_chunks s)))
              (_split_chunks s) [] (split_nonempty _) (Nat.lt_succ_diag_r _))
    as (lines & -> & Hwi & _).
  exists lines. split; [reflexivity|]. split; [reflexivity|].
  specialize (Hwi (Forall_nil _)).
  eapply Forall_impl; [|exact Hwi].
  intros line H. now apply Z.leb_le.
Qed.

Lemma wrap_lines_within_width_witness :
  (1 <= 3)%Z
  /\ exists lines,
       wrap "AB CD-EF GHIJK" (Width 3) = Ok lines
       /\ fill "AB CD-EF GHIJK" (Width 3) = Ok (join nl lines)
       /\ Forall (fun line => (Z.of_nat (String.length line) <= 3)%Z) lines.
Proof. split; [lia|]. apply (wrap_lines_within_width "AB CD-EF GHIJK" 3). lia. Defined.

(** *** A sequence without whitespace and hyphens *)

Lemma word_end_plain (s : string) :
  forall prev,
  nospace s = true -> nohyphen s = true -> word_end prev s = String.length s.
Proof.
  induction s as [|c s IH]; intros prev; [reflexivity|].
  unfold nospace, nohyphen. cbn [all]. intros [Hc Hs]%andb_prop [Hh Hn]%andb_prop.
  apply negb_true_iff in Hc, Hh.
  assert (whitespace c = false) as Hw.
  { destruct (whitespace c) eqn:E; [|reflexivity].
    apply whitespace_isspace in E. congruence. }
  cbn [word_end String.length]. unfold emdash_ahead. cbn [run].
  rewrite Hh, Hw. cbn [andb Nat.leb]. rewrite andb_false_r.
  now rewrite IH.
Qed.

Lemma take_all (n : nat) (s : string) : String.length s <= n -> take n s = s.
Proof.
  revert n. induction s as [|c s IH]; intros [|n] H; try reflexivity.
  - simpl in H. lia.
  - cbn [take]. rewrite IH; [reflexivity | simpl in H; lia].
Qed.

Lemma drop_all (n : nat) (s : string) : String.length s <= n -> drop n s = "".
Proof.
  revert n. induction s as [|c s IH]; intros [|n] H; try reflexivity.
  - simpl in H. lia.
  - cbn [drop]. apply IH. simpl in H. lia.
Qed.

(** It is one chunk. *)
Lemma split_plain (c : ascii) (s : string) :
  nospace (String c s) = true -> nohyphen (String c s) = true ->
  _split (String c s) = [String c s].
Proof.
  intros Hs Hn. unfold _split. cbn [String.length split_chunks].
  assert (match_len "" (String c s) = String.length (String c s)) as ->.
  { pose proof Hs as Hs'. pose proof Hn as Hn'.
    unfold nospace, nohyphen in Hs', Hn'. cbn [all] in Hs', Hn'.
    apply andb_prop in Hs' as [Hc Hs']. apply andb_prop in Hn' as [_ Hn'].
    apply negb_true_iff in Hc.
    assert (whitespace c = false) as Hw.
    { destruct (whitespace c) eqn:E; [|reflexivity].
      apply whitespace_isspace in E. congruence. }
    unfold match_len. rewrite Hw. cbn [at_is String.get andb String.length].
    now rewrite (word_end_plain s _ Hs' Hn'). }
  rewrite (take_all _ _ (le_n _)), (drop_all _ _ (le_n _)).
  now destruct (String.length s).
Qed.

Lemma rfind_nohyphen (s : string) :
  forall stop i, nohyphen s = true -> rfind "-" i stop s = None.
Proof.
  induction s as [|c s IH]; intros [|stop] i H; try reflexivity.
  unfold nohyphen in H. cbn [all] in H. apply andb_prop in H as [Hc Hs].
  apply negb_true_iff in Hc. unfold hyphen in Hc.
  cbn [rfind]. now rewrite (IH stop (S i) Hs), Hc.
Qed.

Lemma slices_nil (fuel n : nat) : slices fuel n "" = [].
Proof. now destruct fuel. Qed.

(** The chunk is cut into pieces of the width. *)
Lemma wrap_loop_plain (z : Z) :
  (1 <= z)%Z ->
  forall fuel chunk lines fuel2,
  chunk <> "" -> nospace chunk = true -> nohyphen chunk = true ->
  String.length chunk < fuel ->
  String.length chunk <= fuel2 ->
  wrap_loop fuel (Width z) [chunk] lines =
  Some (lines ++ slices fuel2 (Z.to_nat z) chunk)%list.
Proof.
  intros Hz. induction fuel as [|fuel IH];
    intros chunk lines fuel2 Hne Hs Hn Hfuel Hfuel2; [lia|].
  destruct chunk as [|c0 s0] eqn:Echunk; [congruence|]. rewrite <- Echunk in *.
  assert (Hlen : 0 < String.length chunk) by (subst chunk; simpl; lia).
  destruct fuel2 as [|fuel2]; [lia|].
  assert (Hsl : slices (S fuel2) (Z.to_nat z) chunk =
                take (Z.to_nat z) chunk
                :: slices fuel2 (Z.to_nat z) (drop (Z.to_nat z) chunk))
    by (subst chunk; reflexivity).
  assert (Hb : blank chunk = false) by (apply nospace_not_blank; assumption).
  cbn [wrap_loop]. unfold wrap_line.
  assert (drop_leading [chunk] lines = [chunk]) as ->
    by (unfold drop_leading; destruct lines; [reflexivity | now rewrite Hb]).
  cbn [take_fitting Nat.add app].
  destruct (le_width (String.length chunk) (Width z)) eqn:Hfit.
  - cbn [take_fitting break_long]. unfold drop_trailing. cbn [List.rev app].
    rewrite Hb. cbn [emit join].
    apply Z.leb_le in Hfit.
    rewrite Hsl, take_all, drop_all, slices_nil by lia.
    destruct fuel; reflexivity.
  - cbn [break_long]. unfold gt_width. rewrite Hfit. cbn [negb].
    apply Z.leb_gt in Hfit. unfold _handle_long_word.
    assert ((z <? 1)%Z = false) as -> by (apply Z.ltb_ge; lia).
    rewrite Z.sub_0_r.
    assert ((Z.to_nat z <? String.length chunk)%nat = true) as ->
      by (apply Nat.ltb_lt; lia).
    rewrite (rfind_nohyphen chunk _ _ Hn). cbn [app].
    assert (Ht : take (Z.to_nat z) chunk <> "").
    { intros E. apply (f_equal String.length) in E.
      rewrite length_take in E. simpl in E. lia. }
    assert (blank (take (Z.to_nat z) chunk) = false) as Hbt
      by (apply nospace_not_blank; [now apply all_take | exact Ht]).
    unfold drop_trailing. cbn [List.rev app]. rewrite Hbt. cbn [emit join].
    destruct (take (Z.to_nat z) chunk) eqn:Et; [congruence|]. rewrite <- Et.
    rewrite (IH (drop (Z.to_nat z) chunk) _ fuel2).
    + now rewrite Hsl, <- Et, <- app_assoc.
    + intros E. apply (f_equal String.length) in E.
      rewrite length_drop in E. simpl in E. lia.
    + now apply all_drop.
    + now apply all_drop.
    + rewrite length_drop. lia.
    + rewrite length_drop. lia.
Qed.

(** X13.  A sequence without whitespace and without hyphen is written in
    lines of exactly the width, the last one of the width or shorter: such
    a sequence is one word for [textwrap], which cuts it where the line is
    full. *)
Theorem wrap_cuts_at_width (s : string) (z : Z) :
  (1 <= z)%Z -> nospace s = true -> nohyphen s = true ->
  wrap s (Width z) = Ok (slices (String.length s) (Z.to_nat z) s)
  /\ fill s (Width z) =
     Ok (join nl (slices (String.length s) (Z.to_nat z) s)).
Proof.
  intros Hz Hs Hn.
  assert (wrap s (Width z) = Ok (slices (String.length s) (Z.to_nat z) s))
    as E.
  { unfold wrap, _wrap_chunks, _split_chunks. rewrite (munge_nospace s Hs).
    assert ((z <=? 0)%Z = false) as -> by (apply Z.leb_gt; lia).
    destruct s as [|c s]; [reflexivity|].
    rewrite (split_plain c s Hs Hn).
    rewrite (wrap_loop_plain z Hz _ (String c s) [] (String.length (String c s)));
      try assumption; try reflexivity; try discriminate.
    - cbn [total fold_right]. lia. }
  split; [exact E|]. unfold fill. now rewrite E.
Qed.

Lemma wrap_cuts_at_width_witness :
  (1 <= 4)%Z
  /\ nospace "ACGTACGTAC" = true
  /\ nohyphen "ACGTACGTAC" = true
  /\ slices 10 4 "ACGTACGTAC" = ["ACGT"; "ACGT"; "AC"]
  /\ wrap "ACGTACGTAC" (Width 4) = Ok (slices 10 (Z.to_nat 4) "ACGTACGTAC")
  /\ fill "ACGTACGTAC" (Width 4) =
     Ok (join nl (slices 10 (Z.to_nat 4) "ACGTACGTAC")).
Proof.
  split; [lia|]. split; [reflexivity|]. split; [reflexivity|].
  split; [reflexivity|].
  exact (wrap_cuts_at_width "ACGTACGTAC" 4 ltac:(lia) eq_refl eq_refl).
Defined.

End Lines.

(** * What [write] does with a width of 0 and with two collections *)

Section WriteFacts.
Import Str TBFSBS.

Lemma write_width_refused (C : t) (r : TBFSBS_Record.t)
    (l : list TBFSBS_Record.t) (s : string) (z : Z) :
  _list C = r :: l ->
  TBFSBS_Record.sequence r = Some s ->
  (z <= 0)%Z ->
  write C (textwrap.Width z) = Raise ValueError.
Proof.
  intros Hl Hs Hz. unfold write. rewrite Hl. cbn [write_records].
  unfold write_record. rewrite Hs.
  unfold textwrap.fill, textwrap.wrap, textwrap._wrap_chunks.
  assert ((z <=? 0)%Z = true) as -> by (apply Z.leb_le; lia). reflexivity.
Qed.

(** X14.  A width of 0 or less makes [write] fail on every collection
    that [parse] has made: [textwrap] raises [ValueError] at the first
    record, and nothing is written. *)
Theorem write_refuses_width_below_1 (content : string) (C : t) (z : Z) :
  parse __init__ content = Returned C ->
  (z <= 0)%Z ->
  write C (textwrap.Width z) = Raise ValueError.
Proof.
  intros Hparse Hz.
  destruct (parsed_records __init__ C content Hparse) as (fs & Hfs & _ & Hne).
  destruct fs as [|f fs]; [congruence|]. cbn [_list __init__ app map] in Hfs.
  exact (write_width_refused C _ _ (f_seq f) z Hfs eq_refl Hz).
Qed.

Lemma write_refuses_width_below_1_witness :
  exists C,
    parse __init__ Examples.two_records = Returned C
    /\ (0 <= 0)%Z
    /\ write C (textwrap.Width 0) = Raise ValueError.
Proof.
  destruct (parse __init__ Examples.two_records) as [C|e C] eqn:E;
    [|vm_compute in E; discriminate E].
  exists C. split; [reflexivity|]. split; [lia|].
  exact (write_refuses_width_below_1 Examples.two_records C 0 E ltac:(lia)).
Defined.

(** *** Two collections *)

Lemma write_records_acc (w : textwrap.width) (l : list TBFSBS_Record.t) :
  forall acc,
  write_records l w acc = (t <- write_records l w "" ;; Ok (acc ++ t)).
Proof.
  induction l as [|r l IH]; intros acc.
  - cbn. now rewrite append_nil_r.
  - rewrite !write_records_cons.
    destruct (write_record r w) as [s|e]; [|reflexivity]. cbn [bind].
    rewrite (IH (acc ++ s)), (IH ("" ++ s)).
    destruct (write_records l w "") as [t|e]; [|reflexivity]. cbn [bind].
    now rewrite append_assoc.
Qed.

Lemma write_records_app (w : textwrap.width)
    (l1 l2 : list TBFSBS_Record.t) :
  forall acc,
  write_records (l1 ++ l2) w acc =
  (a <- write_records l1 w acc ;; write_records l2 w a).
Proof.
  induction l1 as [|r l1 IH]; intros acc; [reflexivity|].
  cbn [app]. rewrite !write_records_cons.
  destruct (write_record r w) as [s|e]; [|reflexivity]. cbn [bind].
  apply IH.
Qed.

Lemma write_record_nl (w : textwrap.width) (r : TBFSBS_Record.t) (s : string) :
  write_record r w = Ok s -> exists s', s = s' ++ nl.
Proof.
  unfold write_record.
  destruct (match TBFSBS_Record.sequence r with
            | Some q => textwrap.fill q w
            | None => Raise AttributeError
            end) as [q|e]; [|discriminate].
  cbn [bind]. intros [= <-].
  exists ("% " ++ TBFSBS_Record.format_str (TBFSBS_Record.identifier r)
          ++ " "
          ++ match TBFSBS_Record.target_value r with
             | Some x => if Float.truthy x then Float.repr x ++ " " else ""
             | None => ""
             end
          ++ TBFSBS_Record.format_str (TBFSBS_Record.description r)
          ++ nl ++ q).
  repeat first [rewrite append_assoc | progress cbn [String.append]].
  reflexivity.
Qed.

(** The text of records, if there are any, ends with a line feed. *)
Lemma write_records_nl (w : textwrap.width) (l : list TBFSBS_Record.t)
    (text : string) :
  l <> [] -> write_records l w "" = Ok text -> exists t, text = t ++ nl.
Proof.
  intros Hne. destruct (exists_last Hne) as (l0 & r & ->).
  rewrite write_records_app.
  destruct (write_records l0 w "") as [a|e]; [|discriminate]. cbn [bind].
  rewrite write_records_cons.
  destruct (write_record r w) as [s|e] eqn:E; [|discriminate].
  cbn [bind write_records]. intros [= <-].
  destruct (write_record_nl w r s E) as [s' ->].
  exists (a ++ s'). now rewrite append_assoc.
Qed.

(** X15.  What [write] gives for a collection extended with another, as
    the program does with the collections of its input files, is what it
    gives for the one, a line feed, and what it gives for the other. *)
Theorem write_extended (A B : t) (w : textwrap.width) (ta tb : string) :
  _list A <> [] -> _list B <> [] ->
  write A w = Ok ta -> write B w = Ok tb ->
  write (extend A B) w = Ok (ta ++ nl ++ tb).
Proof.
  unfold write. intros HA HB. rewrite extend_list, write_records_app.
  destruct (write_records (_list A) w "") as [a|e] eqn:Ea; [|discriminate].
  destruct (write_records (_list B) w "") as [b|e] eqn:Eb; [|discriminate].
  destruct (write_records_nl w _ a HA Ea) as [a' ->].
  destruct (write_records_nl w _ b HB Eb) as [b' ->].
  cbn [bind]. rewrite !drop_last_nl. intros [= <-] [= <-].
  rewrite write_records_acc, Eb. cbn [bind].
  rewrite <- append_assoc, drop_last_nl. now rewrite append_assoc.
Qed.

Lemma write_extended_witness :
  let A := {| _list := [Examples.record "A" None "desc one" "ACGTACGT"] |} in
  let B := {| _list := [Examples.record "B" None "" "TTTT"] |} in
  let w := textwrap.Width 4 in
  let ta := "% A desc one" ++ nl ++ "ACGT" ++ nl ++ "ACGT" in
  let tb := "% B " ++ nl ++ "TTTT" in
  write A w = Ok ta
  /\ write B w = Ok tb
  /\ write (extend A B) w = Ok (ta ++ nl ++ tb).
Proof.
  intros A B w ta tb.
  assert (Ha : write A w = Ok ta) by (vm_compute; reflexivity).
  assert (Hb : write B w = Ok tb) by (vm_compute; reflexivity).
  split; [exact Ha|]. split; [exact Hb|].
  apply (write_extended A B w ta tb); [discriminate | discriminate | exact Ha | exact Hb].
Defined.

End WriteFacts.

(** * The summary of a collection *)

Section Summaries.
Import Str TBFSBS.

Lemma str_records_acc (l : list TBFSBS_Record.t) :
  forall acc,
  str_records l acc = (t <- str_records l "" ;; Ok (acc ++ t)).
Proof.
  induction l as [|r l IH]; intros acc.
  - cbn. now rewrite append_nil_r.
  - cbn [str_records].
    destruct (TBFSBS_Record.__str__ r) as [s|e]; [|reflexivity]. cbn [bind].
    rewrite (IH (acc ++ s ++ nl)), (IH ("" ++ s ++ nl)).
    destruct (str_records l "") as [t|e]; [|reflexivity]. cbn [bind].
    now rewrite !append_assoc.
Qed.

Lemma record_str_outcome (r : TBFSBS_Record.t) :
  match TBFSBS_Record.__str__ r with
  | Ok _ => TBFSBS_Record.sequence r <> None
  | Raise e => e = TypeError /\ TBFSBS_Record.sequence r = None
  end.
Proof.
  unfold TBFSBS_Record.__str__.
  destruct (TBFSBS_Record.sequence r); cbn; [discriminate | now split].
Qed.

Lemma str_outcome (l : list TBFSBS_Record.t) :
  match str_records l "" with
  | Ok _ => Forall (fun r => TBFSBS_Record.sequence r <> None) l
  | Raise e =>
    e = TypeError /\ Exists (fun r => TBFSBS_Record.sequence r = None) l
  end.
Proof.
  induction l as [|r l IH]; [constructor|].
  cbn [str_records]. pose proof (record_str_outcome r) as Hr.
  destruct (TBFSBS_Record.__str__ r) as [s|e]; cbn [bind].
  - rewrite str_records_acc.
    destruct (str_records l "") as [t|e]; cbn [bind].
    + now constructor.
    + destruct IH as [-> IH]. split; [reflexivity | now apply Exists_cons_tl].
  - destruct Hr as [-> Hr]. split; [reflexivity | now apply Exists_cons_hd].
Qed.

(** X16.  The summary of a collection is made if and only if every record
    has a sequence; if one has none, its [len] raises [TypeError], which
    is the only exception that leaves [__str__]. *)
Theorem str_returns_iff_sequences (self : t) :
  match __str__ self with
  | Ok _ => Forall (fun r => TBFSBS_Record.sequence r <> None) (_list self)
  | Raise e =>
    e = TypeError
    /\ Exists (fun r => TBFSBS_Record.sequence r = None) (_list self)
  end.
Proof. exact (str_outcome (_list self)). Qed.

(** X17.  After [parse] has returned, the collection being empty before,
    the summary of the collection, which the program prints, is made
    without an exception. *)
Theorem str_after_parse (content : string) (C : t) :
  parse __init__ content = Returned C -> exists text, __str__ C = Ok text.
Proof.
  intros Hparse.
  destruct (parsed_records __init__ C content Hparse) as (fs & Hfs & _).
  pose proof (str_outcome (_list C)) as H. unfold __str__.
  destruct (str_records (_list C) "") as [text|e]; [now exists text|].
  destruct H as [_ H]. apply Exists_exists in H as (r & Hin & Hr).
  rewrite Hfs in Hin. cbn [_list __init__ app] in Hin.
  apply in_map_iff in Hin as (f & <- & _). discriminate Hr.
Qed.

Lemma str_after_parse_witness :
  exists C,
    parse __init__ Examples.two_records = Returned C
    /\ exists text, __str__ C = Ok text.
Proof.
  destruct (parse __init__ Examples.two_records) as [C|e C] eqn:E;
    [|vm_compute in E; discriminate E].
  exists C. split; [reflexivity|].
  exact (str_after_parse Examples.two_records C E).
Defined.

(** X18.  The summary of a collection extended with another is the summary
    of the one followed by the summary of the other. *)
Theorem str_extended (A B : t) (ta tb : string) :
  __str__ A = Ok ta -> __str__ B = Ok tb ->
  __str__ (extend A B) = Ok (ta ++ tb).
Proof.
  unfold __str__. rewrite extend_list.
  generalize (_list A) as l. intros l. revert ta.
  induction l as [|r l IH]; intros ta.
  - cbn. now intros [= <-] ->.
  - cbn [app str_records].
    destruct (TBFSBS_Record.__str__ r) as [s|e]; [|discriminate]. cbn [bind].
    rewrite (str_records_acc l), (str_records_acc (l ++ _list B)).
    destruct (str_records l "") as [t|e] eqn:E; [|discriminate]. cbn [bind].
    intros [= <-] Hb. rewrite (IH t eq_refl Hb). cbn [bind].
    now rewrite !append_assoc.
Qed.

Lemma str_extended_witness :
  let A := {| _list := [Examples.record "A" None "desc one" "ACGTACGT"] |} in
  let B := {| _list := [Examples.record "B" None "" "TTTT"] |} in
  let ta := "ID: A" ++ nl ++ "Value: None" ++ nl ++ "Description: desc one"
            ++ nl ++ "Sequence length: 8" ++ nl ++ nl in
  let tb := "ID: B" ++ nl ++ "Value: None" ++ nl ++ "Description: "
            ++ nl ++ "Sequence length: 4" ++ nl ++ nl in
  __str__ A = Ok ta
  /\ __str__ B = Ok tb
  /\ __str__ (extend A B) = Ok (ta ++ tb).
Proof.
  intros A B ta tb.
  assert (Ha : __str__ A = Ok ta) by (vm_compute; reflexivity).
  assert (Hb : __str__ B = Ok tb) by (vm_compute; reflexivity).
  split; [exact Ha|]. split; [exact Hb|].
  exact (str_extended A B ta tb Ha Hb).
Defined.

End Summaries.

(** * Items of a collection *)

Section ItemAccess.
Import TBFSBS.

Lemma position_cases (n : nat) (i : Z) :
  ((0 <= i < Z.of_nat n)%Z /\ PyList.position n i = Some (Z.to_nat i))
  \/ ((- Z.of_nat n <= i < 0)%Z
      /\ PyList.position n i = Some (Z.to_nat (i + Z.of_nat n)))
  \/ ((i < - Z.of_nat n \/ Z.of_nat n <= i)%Z /\ PyList.position n i = None).
Proof.
  unfold PyList.position.
  destruct (Z.ltb_spec i 0) as [Hneg|Hpos].
  - destruct (Z.leb_spec 0 (i + Z.of_nat n)) as [H1|H1]; cbn [andb].
    + destruct (Z.ltb_spec (i + Z.of_nat n) (Z.of_nat n)) as [H2|H2]; [|lia].
      right. left. split; [lia | reflexivity].
    + right. right. split; [lia | reflexivity].
  - destruct (Z.leb_spec 0 i) as [H1|H1]; [|lia]. cbn [andb].
    destruct (Z.ltb_spec i (Z.of_nat n)) as [H2|H2].
    + left. split; [lia | reflexivity].
    + right. right. split; [lia | reflexivity].
Qed.

Lemma position_bound (n k : nat) (i : Z) :
  PyList.position n i = Some k -> k < n.
Proof.
  destruct (position_cases n i) as [[H E] | [[H E] | [H E]]]; rewrite E;
    intros [= <-]; lia.
Qed.

Lemma position_of_nat (n k : nat) :
  k < n -> PyList.position n (Z.of_nat k) = Some k.
Proof.
  intros H. destruct (position_cases n (Z.of_nat k)) as [[_ E] | [[H1 _] | [H1 _]]];
    [|lia|lia].
  now rewrite E, Nat2Z.id.
Qed.

Lemma nth_error_update {A : Type} (l : list A) (v : A) :
  forall k j,
  k < List.length l ->
  nth_error (firstn k l ++ v :: skipn (S k) l) j =
  if (j =? k)%nat then Some v else nth_error l j.
Proof.
  induction l as [|a l IH]; intros k j Hk; [simpl in Hk; lia|].
  destruct k as [|k], j as [|j]; try reflexivity.
  cbn [firstn app nth_error]. change (skipn (S (S k)) (a :: l)) with (skipn (S k) l).
  rewrite IH by (simpl in Hk; lia). reflexivity.
Qed.

Lemma length_update {A : Type} (l : list A) (v : A) :
  forall k,
  k < List.length l ->
  List.length (firstn k l ++ v :: skipn (S k) l) = List.length l.
Proof.
  induction l as [|a l IH]; intros k Hk; [simpl in Hk; lia|].
  destruct k as [|k]; [reflexivity|].
  cbn [firstn app List.length]. change (skipn (S (S k)) (a :: l)) with (skipn (S k) l).
  rewrite IH by (simpl in Hk; lia). reflexivity.
Qed.

Lemma nth_error_inserted {A : Type} (l : list A) (v : A) :
  forall k,
  k <= List.length l ->
  nth_error (firstn k l ++ v :: skipn k l) k = Some v
  /\ (firstn k (firstn k l ++ v :: skipn k l)
      ++ skipn (S k) (firstn k l ++ v :: skipn k l))%list = l
  /\ List.length (firstn k l ++ v :: skipn k l) = S (List.length l).
Proof.
  induction l as [|a l IH]; intros k Hk.
  - assert (k = 0) as -> by (simpl in Hk; lia). now repeat split.
  - destruct k as [|k]; [now repeat split|].
    destruct (IH k) as (H1 & H2 & H3); [simpl in Hk; lia|].
    cbn [firstn skipn app nth_error List.length].
    cbn [firstn skipn app] in H2. rewrite H1, H3.
    repeat split. f_equal. exact H2.
Qed.

Lemma insert_position_bound (n : nat) (i : Z) : PyList.insert_position n i <= n.
Proof. unfold PyList.insert_position. destruct (i <? 0)%Z; lia. Qed.

(** X19.  An item of a collection is read at an index from [- len] up to
    [len - 1]: an index below 0 stands for the index [len] above it, and
    any other index raises [IndexError]. *)
Theorem getitem_index (self : t) (i : Z) :
  let n := Z.of_nat (__len__ self) in
  ((0 <= i < n)%Z ->
   Items.__getitem__ self i = TBFSBS.__getitem__ self (Z.to_nat i)
   /\ exists r, Items.__getitem__ self i = Ok r)
  /\ ((- n <= i < 0)%Z ->
      Items.__getitem__ self i = Items.__getitem__ self (i + n)
      /\ exists r, Items.__getitem__ self i = Ok r)
  /\ ((i < - n \/ n <= i)%Z -> Items.__getitem__ self i = Raise IndexError).
Proof.
  intros n. subst n. unfold Items.__getitem__, PyList.getitem, TBFSBS.__getitem__,
    __len__.
  set (l := _list self).
  assert (Hsome : forall k, k < List.length l ->
                  exists r, nth_error l k = Some r).
  { intros k Hk. destruct (nth_error l k) eqn:E; [now eexists|].
    apply nth_error_None in E. lia. }
  split; [|split].
  - intros Hi.
    destruct (position_cases (List.length l) i) as [[_ E] | [[H _] | [H _]]];
      [|lia|lia].
    rewrite E. destruct (Hsome (Z.to_nat i)) as [r Hr]; [lia|].
    rewrite Hr. split; [reflexivity | now exists r].
  - intros Hi.
    destruct (position_cases (List.length l) i) as [[H _] | [[_ E] | [H _]]];
      [lia| |lia].
    destruct (position_cases (List.length l) (i + Z.of_nat (List.length l)))
      as [[_ E2] | [[H _] | [H _]]]; [|lia|lia].
    rewrite E, E2.
    destruct (Hsome (Z.to_nat (i + Z.of_nat (List.length l)))) as [r Hr]; [lia|].
    rewrite Hr. split; [reflexivity | now exists r].
  - intros Hi.
    destruct (position_cases (List.length l) i) as [[H _] | [[H _] | [_ E]]];
      [lia|lia|].
    now rewrite E.
Qed.

(** X20.  After [self[i] = value] the item at [i] is [value], the
    collection is as long as before, and the items at the other positions
    are as before. *)
Theorem setitem_then_getitem (self C : t) (i : Z) (value : TBFSBS_Record.t) :
  Items.__setitem__ self i value = Ok C ->
  Items.__getitem__ C i = Ok value
  /\ __len__ C = __len__ self
  /\ forall j,
     PyList.position (__len__ self) j <> PyList.position (__len__ self) i ->
     Items.__getitem__ C j = Items.__getitem__ self j.
Proof.
  unfold Items.__setitem__, Items.__getitem__, PyList.setitem, PyList.getitem,
    __len__.
  destruct (PyList.position (List.length (_list self)) i) as [k|] eqn:E;
    [|discriminate].
  set (l' := (firstn k (_list self) ++ value :: skipn (S k) (_list self))%list).
  cbn [bind]. intros [= <-]. cbn [_list]. subst l'.
  pose proof (position_bound _ _ _ E) as Hk.
  rewrite (length_update _ value k Hk), E.
  split; [|split; [reflexivity|]].
  - now rewrite (nth_error_update _ value k k Hk), Nat.eqb_refl.
  - intros j Hj.
    destruct (PyList.position (List.length (_list self)) j) as [kj|];
      [|reflexivity].
    rewrite (nth_error_update _ value k kj Hk).
    destruct (Nat.eqb_spec kj k) as [->|]; [congruence | reflexivity].
Qed.

Lemma setitem_then_getitem_witness :
  let a := Examples.record "A" None "" "AC" in
  let b := Examples.record "B" None "" "GT" in
  let c := Examples.record "C" None "" "TT" in
  let self := {| _list := [a; b] |} in
  let C := {| _list := [a; c] |} in
  Items.__setitem__ self (-1) c = Ok C
  /\ Items.__getitem__ C (-1) = Ok c
  /\ __len__ C = __len__ self
  /\ forall j,
     PyList.position (__len__ self) j <> PyList.position (__len__ self) (-1) ->
     Items.__getitem__ C j = Items.__getitem__ self j.
Proof.
  intros a b c self C. split; [reflexivity|].
  exact (setitem_then_getitem self C (-1) c eq_refl).
Defined.

Lemma fits_ssize_spec (i : Z) :
  PyList.fits_ssize i = true <-> (- 2 ^ 63 <= i < 2 ^ 63)%Z.
Proof.
  unfold PyList.fits_ssize, PyList.maxsize.
  rewrite andb_true_iff, !Z.leb_le. lia.
Qed.

Lemma insert_position_cases (n : nat) (i : Z) :
  Z.of_nat (PyList.insert_position n i) =
  (if i <? 0 then Z.max 0 (i + Z.of_nat n) else Z.min i (Z.of_nat n))%Z.
Proof.
  unfold PyList.insert_position.
  destruct (Z.ltb_spec i 0) as [H|H]; lia.
Qed.

(** X21.  [insert] is refused for no index that fits a [Py_ssize_t], from
    [- 2^63] up to [2^63 - 1], and raises [OverflowError] for every other
    index.  For an index that fits, the collection gets one item longer; the
    value is read at the index itself when that is from 0 up to [len], at
    [len] when the index is above, at [index + len] for an index below 0,
    and at 0 when that is below 0 too; deleting the item there gives the
    collection as it was. *)
Theorem insert_then_delitem (self : t) (i : Z) (value : TBFSBS_Record.t) :
  let n := Z.of_nat (__len__ self) in
  let k := (if i <? 0 then Z.max 0 (i + n) else Z.min i n)%Z in
  ((- 2 ^ 63 <= i < 2 ^ 63)%Z ->
   exists C,
     Items.insert self i value = Ok C
     /\ Items.__getitem__ C k = Ok value
     /\ Items.__delitem__ C k = Ok self
     /\ __len__ C = S (__len__ self))
  /\ ((i < - 2 ^ 63 \/ 2 ^ 63 <= i)%Z ->
      Items.insert self i value = Raise OverflowError).
Proof.
  intros n k. subst n k. rewrite <- insert_position_cases.
  unfold Items.insert, PyList.insert. split; intros Hi.
  - apply fits_ssize_spec in Hi. rewrite Hi. cbn [bind]. eexists.
    split; [reflexivity|].
    unfold Items.__getitem__, Items.__delitem__, PyList.getitem,
      PyList.delitem, __len__. cbn [_list].
    set (l := _list self). set (k := PyList.insert_position (List.length l) i).
    destruct (nth_error_inserted l value k (insert_position_bound _ _))
      as (H1 & H2 & H3).
    rewrite H3, (position_of_nat (S (List.length l)) k)
      by (pose proof (insert_position_bound (List.length l) i); subst k; lia).
    rewrite H1, H2. cbn [bind]. repeat split. f_equal. subst l.
    now destruct self.
  - destruct (PyList.fits_ssize i) eqn:E; [|reflexivity].
    apply fits_ssize_spec in E. lia.
Qed.

(** X22.  [insert] at an index at or past the end, that fits a
    [Py_ssize_t], is [append], and at an index at or before [- len], that
    fits, it puts the value first: an index out of the range of the items is
    no error for [insert]. *)
Theorem insert_out_of_range (self : t) (i : Z) (value : TBFSBS_Record.t) :
  ((Z.of_nat (__len__ self) <= i < 2 ^ 63)%Z ->
   Items.insert self i value = Ok (append self value))
  /\ ((- 2 ^ 63 <= i <= - Z.of_nat (__len__ self))%Z ->
      Items.insert self i value = Ok {| _list := value :: _list self |}).
Proof.
  unfold Items.insert, PyList.insert, PyList.insert_position, append, __len__.
  split; intros Hi.
  - assert (PyList.fits_ssize i = true) as -> by (apply fits_ssize_spec; lia).
    destruct (Z.ltb_spec i 0) as [H|H]; [lia|].
    rewrite Z.min_r, Nat2Z.id by lia.
    now rewrite firstn_all, skipn_all.
  - assert (PyList.fits_ssize i = true) as -> by (apply fits_ssize_spec; lia).
    destruct (Z.ltb_spec i 0) as [H|H].
    + rewrite Z.max_l by lia. rewrite Z.min_l by lia. reflexivity.
    + assert (i = 0%Z) as -> by lia.
      rewrite Z.min_l by lia. reflexivity.
Qed.

End ItemAccess.

(** * Line ends *)

Section LineEnds.
Import Str File TBFSBS.

Lemma crlf_read (s : string) :
  nocr s = true -> universal_newlines (with_line_ends (String CR nl) s) = s.
Proof.
  induction s as [|c s IH]; [reflexivity|].
  unfold nocr. cbn [all with_line_ends]. intros [Hc Hs]%andb_prop.
  apply negb_true_iff in Hc.
  destruct (Ascii.eqb_spec c LF) as [->|Hlf].
  - cbn [String.append nl universal_newlines].
    change (Ascii.eqb CR CR) with true. change (Ascii.eqb LF LF) with true.
    change (Ascii.eqb LF CR) with false. cbv iota. now rewrite (IH Hs).
  - cbn [universal_newlines]. now rewrite Hc, (IH Hs).
Qed.

Lemma cr_head (s : string) :
  nocr s = true ->
  match with_line_ends (String CR "") s with
  | "" => s = ""
  | String d _ => Ascii.eqb d LF = false
  end.
Proof.
  destruct s as [|c s]; [reflexivity|].
  unfold nocr. cbn [all with_line_ends]. intros [Hc _]%andb_prop.
  destruct (Ascii.eqb_spec c LF) as [->|Hlf]; [reflexivity|].
  now apply Ascii.eqb_neq.
Qed.

Lemma cr_read (s : string) :
  nocr s = true -> universal_newlines (with_line_ends (String CR "") s) = s.
Proof.
  induction s as [|c s IH]; [reflexivity|].
  unfold nocr. cbn [all with_line_ends]. intros [Hc Hs]%andb_prop.
  apply negb_true_iff in Hc.
  destruct (Ascii.eqb_spec c LF) as [->|Hlf].
  - cbn [String.append universal_newlines].
    change (Ascii.eqb CR CR) with true. cbv iota.
    pose proof (cr_head s Hs) as Hhead. specialize (IH Hs).
    destruct (with_line_ends (String CR "") s) as [|d w].
    + now subst s.
    + rewrite Hhead. now rewrite IH.
  - cbn [universal_newlines]. now rewrite Hc, (IH Hs).
Qed.

(** X23.  A file whose lines end with a carriage return and a line feed,
    as on Windows, and a file whose lines end with a carriage return alone,
    are parsed as the file with the same lines ending with a line feed:
    [open] gives [parse] the text with every line end as a line feed, so
    that a line that ends with a lone carriage return is a row of its
    own. *)
Theorem parse_cr_line_ends (self : t) (content : string) :
  nocr content = true ->
  parse self (with_line_ends (String CR nl) content) = parse self content
  /\ parse self (with_line_ends (String CR "") content) = parse self content.
Proof.
  intros H. unfold parse, rows.
  rewrite (crlf_read content H), (cr_read content H).
  now rewrite (universal_newlines_id content H).
Qed.

Lemma parse_cr_line_ends_witness :
  let mac := with_line_ends (String CR "") Examples.two_records in
  let dos := with_line_ends (String CR nl) Examples.two_records in
  nocr Examples.two_records = true
  /\ nolf mac = true
  /\ String.length dos = String.length Examples.two_records + 5
  /\ parse __init__ dos = parse __init__ Examples.two_records
  /\ parse __init__ mac = parse __init__ Examples.two_records.
Proof.
  intros mac dos. split; [reflexivity|]. split; [reflexivity|].
  split; [reflexivity|].
  exact (parse_cr_line_ends __init__ Examples.two_records eq_refl).
Defined.

End LineEnds.

(** * The first token of a header line *)

Section Marker.
Import Str File TBFSBS.

Lemma universal_newlines_nocr_app (p s : string) :
  nocr p = true -> universal_newlines (p ++ s) = p ++ universal_newlines s.
Proof.
  induction p as [|c p IH]; [reflexivity|].
  unfold nocr. cbn [all]. intros [Hc Hp]%andb_prop. apply negb_true_iff in Hc.
  cbn [String.append universal_newlines]. now rewrite Hc, (IH Hp).
Qed.

Lemma universal_newlines_space (c : ascii) (rest : string) :
  isspace c = true ->
  exists d s, universal_newlines (String c rest) = String d s /\ isspace d = true.
Proof.
  intros Hc. cbn [universal_newlines]. destruct (Ascii.eqb c CR).
  - destruct rest as [|d rest]; [now exists LF, ""|].
    destruct (Ascii.eqb_spec d LF) as [->|Hd].
    + cbn [universal_newlines].
      change (Ascii.eqb LF CR) with false. now eexists LF, _.
    + now eexists LF, _.
  - now eexists c, _.
Qed.

(** The row that is being scanned ends, and the rows after it are made,
    in the same way whatever has been scanned of it. *)
Lemma lines_from_tail (s : string) :
  exists tail rest,
    forall cur, cur <> "" -> lines_from cur s = (rev cur ++ tail) :: rest.
Proof.
  induction s as [|c s (tail & rest & IH)].
  - exists "", []. intros cur Hcur. cbn [lines_from].
    rewrite append_nil_r. now destruct cur.
  - cbn [lines_from]. destruct (Ascii.eqb_spec c LF) as [->|Hc].
    + exists nl, (lines_from "" s). reflexivity.
    + exists (String c tail), rest. intros cur _.
      rewrite IH by discriminate. cbn [rev]. now rewrite append_assoc.
Qed.

Lemma lines_from_tail_head (c : ascii) (s : string) :
  exists t rest,
    forall cur, cur <> "" ->
    lines_from cur (String c s) = (rev cur ++ String c t) :: rest.
Proof.
  cbn [lines_from]. destruct (Ascii.eqb_spec c LF) as [->|Hc].
  - exists "", (lines_from "" s). reflexivity.
  - destruct (lines_from_tail s) as (tail & rest & H).
    exists tail, rest. intros cur _.
    rewrite H by discriminate. cbn [rev]. now rewrite append_assoc.
Qed.

(** The rows of a text that starts with a token and whitespace. *)
Lemma rows_token (rest : string) (c : ascii) :
  isspace c = true ->
  exists d t rows0,
    isspace d = true
    /\ forall p, p <> "" -> nospace p = true ->
       rows (p ++ String c rest) = (p ++ String d t) :: rows0.
Proof.
  intros Hc.
  destruct (universal_newlines_space c rest Hc) as (d & s & E & Hd).
  destruct (lines_from_tail_head d s) as (t & rows0 & H).
  exists d, t, rows0. split; [exact Hd|]. intros p Hp Hns.
  pose proof (nospace_oneline p Hns) as Hone.
  unfold rows.
  rewrite (universal_newlines_nocr_app p _ (oneline_nocr _ Hone)), E.
  rewrite (lines_from_nolf p "" _ (oneline_nolf _ Hone)), append_nil_r.
  rewrite H, rev_rev; [reflexivity|].
  intros Er. apply rev_empty in Er. contradiction.
Qed.

(** Of [header], the rows after a header line take only whether it is
    empty. *)
Lemma parse_rows_header (rows0 : list string) :
  forall (self : t) (f f' : Locals.t),
  (Locals.header f = [] <-> Locals.header f' = []) ->
  Locals.iD f = Locals.iD f' ->
  Locals.target_value f = Locals.target_value f' ->
  Locals.description f = Locals.description f' ->
  Locals.seq f = Locals.seq f' ->
  parse_rows self f rows0 = parse_rows self f' rows0.
Proof.
  induction rows0 as [|row rows0 IH]; intros self f f' Hh Hi Hv Hd Hs.
  - cbn [parse_rows]. unfold flush. now rewrite Hi, Hv, Hd, Hs.
  - cbn [parse_rows]. unfold parse_row. destruct (startswith row "%").
    + assert (match Locals.header f with [] => Ok self | _ :: _ => flush self f end
              = match Locals.header f' with [] => Ok self | _ :: _ => flush self f' end)
        as ->.
      { assert (flush self f = flush self f') as Ef
          by (unfold flush; now rewrite Hi, Hv, Hd, Hs).
        destruct (Locals.header f), (Locals.header f'); try exact Ef;
          try reflexivity.
        - discriminate (proj1 Hh eq_refl).
        - discriminate (proj2 Hh eq_refl). }
      reflexivity.
    + rewrite Hs. destruct (Locals.read (Locals.seq f')); [|reflexivity].
      now apply IH.
Qed.

Lemma parse_rows_glued (self : t) (fr : Locals.t) (g rest : string) (c : ascii) :
  nospace g = true -> isspace c = true ->
  parse_rows self fr (rows (("%" ++ g) ++ String c rest)) =
  parse_rows self fr (rows ("%" ++ String c rest)).
Proof.
  intros Hg Hc.
  destruct (rows_token rest c Hc) as (d & t & rows0 & Hd & Hrows).
  rewrite (Hrows ("%" ++ g)), (Hrows "%");
    [|discriminate | reflexivity | discriminate | exact Hg].
  cbn [parse_rows]. unfold parse_row.
  assert (startswith (("%" ++ g) ++ String d t) "%" = true) as ->
    by (cbn [String.append startswith]; apply startswith_nil).
  assert (startswith ("%" ++ String d t) "%" = true) as -> by reflexivity.
  rewrite (split_token ("%" ++ g) d t), (split_token "%" d t);
    [| split; [discriminate | reflexivity] | exact Hd
     | split; [discriminate | exact Hg] | exact Hd].
  destruct (match Locals.header fr with [] => Ok self | _ :: _ => flush self fr end)
    as [self1|e]; [|reflexivity].
  destruct (split t) as [|iD T]; [reflexivity|].
  unfold value_and_description. cbn [nth_error skipn].
  destruct T as [|tok T]; [|destruct (Float.of_string tok)];
    apply parse_rows_header; try reflexivity; split; discriminate.
Qed.

(** X24.  Of the first token of a header line only the marker at its start
    is read: what stands between the marker and the first whitespace is
    dropped, the identifier being the second token.  A header line
    [%A 1.5 d] is read as [% 1.5 d], with the identifier [1.5]. *)
Theorem parse_drops_text_glued_to_marker
    (self : t) (pre g rest : string) (c : ascii) :
  pre = "" \/ (exists x, pre = x ++ nl) ->
  nospace g = true ->
  isspace c = true ->
  parse self (pre ++ ("%" ++ g) ++ String c rest) =
  parse self (pre ++ "%" ++ String c rest).
Proof.
  intros [-> | [x ->]] Hg Hc; unfold parse.
  - exact (parse_rows_glued self Locals.init g rest c Hg Hc).
  - rewrite !rows_app, !parse_rows_app.
    destruct (run_rows self Locals.init (rows (x ++ nl))) as [s f|];
      [|reflexivity].
    exact (parse_rows_glued s f g rest c Hg Hc).
Qed.

Lemma parse_drops_text_glued_to_marker_witness :
  let pre := "% B desc two" ++ nl ++ "TTTT" ++ nl in
  let rest := "1.5 d" ++ nl ++ "ACGT" ++ nl in
  (pre = "" \/ exists x, pre = x ++ nl)
  /\ parse __init__ (pre ++ ("%" ++ "A") ++ String SP rest) =
     Returned
       {| _list := [ Examples.record "B" None "desc two" "TTTT";
                     Examples.record "1.5" None "d" "ACGT" ] |}
  /\ parse __init__ (pre ++ ("%" ++ "A") ++ String SP rest) =
     parse __init__ (pre ++ "%" ++ String SP rest).
Proof.
  intros pre rest.
  assert (H : pre = "" \/ exists x, pre = x ++ nl)
    by (right; exists ("% B desc two" ++ nl ++ "TTTT"); reflexivity).
  split; [exact H|]. split; [vm_compute; reflexivity|].
  exact (parse_drops_text_glued_to_marker __init__ pre "A" rest SP H
           eq_refl eq_refl).
Defined.

End Marker.

(** * The value line of a summary *)

Section Rounded.
Import Str Float TBFSBS_Record.

(** [round(x, 1)] is the float nearest to [k] tenths, [k] being the integer
    nearest to ten times [x]. *)
Lemma round_nearest (neg : bool) (m : positive) (e : Z) :
  exists k : Z,
    (0 <= k)%Z
    /\ nearest_tenth m e k
    /\ round (S754_finite neg m e) 1 = of_decimal neg k (-1).
Proof.
  unfold round, nearest_tenth, num, den.
  change (10 ^ Z.of_nat 1)%Z with 10%Z. change (- Z.of_nat 1)%Z with (-1)%Z.
  destruct (Z.leb_spec 0 e) as [He|He].
  - exists (Z.pos m * 10 * 2 ^ e)%Z.
    pose proof (Z.pow_nonneg 2 e ltac:(lia)).
    split; [nia|]. split; [|reflexivity].
    replace (10 * (Z.pos m * 2 ^ e) - Z.pos m * 10 * 2 ^ e * 1)%Z with 0%Z
      by ring.
    split; [simpl; lia | simpl; lia].
  - set (d := (2 ^ (- e))%Z). set (n := (Z.pos m * 10)%Z).
    assert (Hd : (0 < d)%Z) by (apply Z.pow_pos_nonneg; lia).
    pose proof (Z.div_mod n d ltac:(lia)) as Hdm.
    pose proof (Z.mod_pos_bound n d Hd) as Hb.
    assert (Hq : (0 <= n / d)%Z) by (apply Z.div_pos; lia).
    replace (10 * Z.pos m)%Z with n by (subst n; ring).
    destruct (Z.ltb_spec (2 * (n mod d)) d) as [Hlt|Hge].
    + exists (n / d)%Z. split; [exact Hq|]. split; [|reflexivity].
      split; [nia | nia].
    + destruct (Z.ltb_spec d (2 * (n mod d))) as [Hgt|Hle].
      * exists (n / d + 1)%Z. split; [lia|]. split; [|reflexivity].
        split; [nia | nia].
      * destruct (Z.even (n / d)) eqn:Hev.
        -- exists (n / d)%Z. split; [exact Hq|]. split; [|reflexivity].
           split; [nia | intros _; exact Hev].
        -- exists (n / d + 1)%Z. split; [lia|]. split; [|reflexivity].
           split; [nia|]. intros _.
           rewrite Z.even_add, Hev. reflexivity.
Qed.

(** *** Reading the numeral of [k] tenths *)

Lemma digits_stop (acc : Z) (n : nat) (t : string) :
  no_digit_ahead t -> digits acc n t = (acc, n, t).
Proof. destruct t as [|c t]; [reflexivity|]. cbn. now intros ->. Qed.

Lemma digits_uint_acc (d : Decimal.uint) (t : string) :
  no_digit_ahead t ->
  forall (acc : positive) (n : nat),
  exists n',
    digits (Z.pos acc) n (NilEmpty.string_of_uint d ++ t) =
    (Z.pos (Pos.of_uint_acc d acc), n', t).
Proof.
  intros Ht. induction d as [|d IH|d IH|d IH|d IH|d IH|d IH|d IH|d IH|d IH|d IH];
    intros acc n;
    [ exists n; now apply digits_stop | .. ];
    cbn [NilEmpty.string_of_uint String.append digits Pos.of_uint_acc];
    match goal with
    | |- context [is_digit ?c] => change (is_digit c) with true
    end;
    cbv iota;
    match goal with
    | |- context [Pos.of_uint_acc d ?a] =>
      destruct (IH a (S n)) as [n' E]; exists n'; rewrite <- E
    end;
    f_equal;
    match goal with
    | |- context [digit_val ?c] =>
      let v := eval vm_compute in (digit_val c) in
      change (digit_val c) with v; lia
    | _ => idtac
    end.
Qed.

Lemma digits_uint (d : Decimal.uint) (t : string) :
  no_digit_ahead t ->
  forall n : nat,
  exists n',
    digits 0 n (NilEmpty.string_of_uint d ++ t) =
    (Z.of_N (Pos.of_uint d), n', t).
Proof.
  intros Ht. induction d as [|d IH|d IH|d IH|d IH|d IH|d IH|d IH|d IH|d IH|d IH];
    intros n;
    [ exists n; now apply digits_stop | .. ];
    cbn [NilEmpty.string_of_uint String.append digits Pos.of_uint];
    match goal with
    | |- context [is_digit ?c] => change (is_digit c) with true
    end;
    cbv iota;
    match goal with
    | |- context [digit_val ?c] =>
      let v := eval vm_compute in (digit_val c) in
      change (digit_val c) with v
    end;
    cbn [Z.mul Z.add Z.of_N];
    first [ exact (IH (S n)) | exact (digits_uint_acc d t Ht _ (S n)) ].
Qed.

(** The digits of [z] are read as [z]. *)
Lemma digits_of_Z (z : Z) (t : string) :
  (0 <= z)%Z ->
  no_digit_ahead t ->
  exists n', digits 0 0 (of_Z z ++ t) = (z, n', t).
Proof.
  intros Hz Ht. unfold of_Z, NilZero.string_of_uint.
  pose proof (DecimalN.Unsigned.of_to (Z.to_N z)) as Hv. unfold N.of_uint in Hv.
  destruct (N.to_uint (Z.to_N z)) as [|d|d|d|d|d|d|d|d|d|d] eqn:E;
    [ exists 1; cbn in Hv; cbn [String.append digits];
      change (is_digit "0") with true; cbv iota;
      rewrite digits_stop by exact Ht; do 2 f_equal; cbn; lia
    | match goal with
      | H : Pos.of_uint ?u = _ |- _ =>
        destruct (digits_uint u t Ht 0) as [n' H']; exists n';
        rewrite H', H; do 2 f_equal; lia
      end .. ].
Qed.

Lemma underscores_plain (s : string) :
  forall prev,
  all (fun c => negb (Ascii.eqb c "_")) s = true ->
  Ascii.eqb prev "_" = false ->
  underscores prev s = Some s.
Proof.
  induction s as [|c s IH]; intros prev Hs Hprev.
  - cbn. now rewrite Hprev.
  - cbn [all] in Hs. apply andb_prop in Hs as [Hc Hs].
    apply negb_true_iff in Hc. cbn [underscores].
    rewrite Hc, Hprev. cbn [andb]. now rewrite (IH c Hs Hc).
Qed.

Lemma digit_plain (c : ascii) :
  is_digit c = true ->
  negb (Ascii.eqb c "_") = true
  /\ float_space c = false
  /\ forall r, sign (String c r) = (false, String c r).
Proof.
  destruct c as [[|] [|] [|] [|] [|] [|] [|] [|]]; intros H;
    first [discriminate H | repeat split].
Qed.

Lemma of_Z_head (z : Z) :
  exists c r, of_Z z = String c r /\ is_digit c = true.
Proof.
  pose proof (of_Z_digits z) as H.
  destruct (of_Z z) as [|c r] eqn:E.
  - unfold of_Z, NilZero.string_of_uint in E.
    destruct (N.to_uint (Z.to_N z)) as [|d|d|d|d|d|d|d|d|d|d]; discriminate E.
  - cbn [all] in H. apply andb_prop in H as [Hc _]. now exists c, r.
Qed.

Lemma of_Z_digit (b : Z) :
  (0 <= b < 10)%Z ->
  exists c,
    of_Z b = String c "" /\ is_digit c = true /\ digit_val c = b.
Proof.
  intros Hb.
  assert (b = 0 \/ b = 1 \/ b = 2 \/ b = 3 \/ b = 4 \/ b = 5 \/ b = 6
          \/ b = 7 \/ b = 8 \/ b = 9)%Z
    as [-> | [-> | [-> | [-> | [-> | [-> | [-> | [-> | [-> | ->]]]]]]]]]
    by lia;
    eexists; repeat split.
Qed.

(** [float] reads the numeral of [k] tenths as the float nearest to [k]
    tenths. *)
Lemma of_string_one_decimal (neg : bool) (k : Z) :
  (0 <= k)%Z -> of_string (one_decimal neg k) = Some (of_decimal neg k (-1)).
Proof.
  intros Hk. unfold one_decimal.
  pose proof (Z.div_pos k 10 Hk ltac:(lia)) as Ha.
  pose proof (Z.mod_pos_bound k 10 ltac:(lia)) as Hb.
  pose proof (Z.div_mod k 10 ltac:(lia)) as Hdm.
  set (a := (k / 10)%Z) in *. set (b := (k mod 10)%Z) in *.
  destruct (of_Z_digit b Hb) as (cb & Eb & Hcb & Hvb).
  destruct (of_Z_head a) as (ca & ra & Ea & Hca).
  destruct (digit_plain ca Hca) as (Hua & Hsa & Hsign).
  destruct (digit_plain cb Hcb) as (Hub & Hsb & _).
  assert (Hdigits : exists n', digits 0 0 (of_Z a ++ "." ++ of_Z b)
                               = (a, n', "." ++ of_Z b)).
  { apply digits_of_Z; [exact Ha | reflexivity]. }
  destruct Hdigits as [n1 Hdigits].
  assert (Hnum : numeral (of_Z a ++ "." ++ of_Z b) = Some (k, (-1)%Z)).
  { unfold numeral. rewrite Hdigits. cbn [String.append].
    rewrite Eb. cbn [digits]. rewrite Hcb. cbv iota. cbn [digits].
    rewrite Hvb, Nat.add_1_r. cbn [exponent].
    do 2 f_equal. lia. }
  assert (Hall : all (fun c => negb (Ascii.eqb c "_")) (of_Z a ++ "." ++ of_Z b)
                 = true).
  { rewrite !all_app.
    rewrite (all_impl is_digit _ (of_Z a)
               (fun c H => proj1 (digit_plain c H)) (of_Z_digits a)).
    rewrite (all_impl is_digit _ (of_Z b)
               (fun c H => proj1 (digit_plain c H)) (of_Z_digits b)).
    reflexivity. }
  assert (Hr : rstrip_by float_space
                 ((if neg then "-" else "") ++ of_Z a ++ "." ++ of_Z b)
               = (if neg then "-" else "") ++ of_Z a ++ "." ++ of_Z b).
  { rewrite <- !append_assoc. apply rstrip_by_app_fixed.
    - rewrite Eb. cbn [rstrip_by]. now rewrite Hsb.
    - rewrite Eb. discriminate. }
  unfold of_string. destruct neg; cbn [String.append] in *.
  - cbn [lstrip_by]. change (float_space "-") with false. cbv iota.
    rewrite Hr. cbn [underscores].
    change (Ascii.eqb "-" "_") with false.
    change (Ascii.eqb "000" "_") with false. cbn [andb].
    rewrite (underscores_plain _ "-" Hall eq_refl). cbn [option_map sign].
    now rewrite Hnum.
  - assert (lstrip_by float_space (of_Z a ++ String "." (of_Z b))
            = of_Z a ++ String "." (of_Z b)) as ->
      by (rewrite Ea; cbn [String.append lstrip_by]; now rewrite Hsa).
    rewrite Hr, (underscores_plain _ "000"%char Hall eq_refl).
    assert (sign (of_Z a ++ String "." (of_Z b))
            = (false, of_Z a ++ String "." (of_Z b))) as ->
      by (rewrite Ea; cbn [String.append]; apply Hsign).
    now rewrite Hnum.
Qed.

Lemma round_to_tenth (x : float) : rounded_to_tenth x (round x 1).
Proof.
  destruct x as [s|s| |s m e]; try reflexivity.
  destruct (round_nearest s m e) as (k & Hk & Hn & E).
  exists k. rewrite E.
  split; [exact Hk|]. split; [exact Hn|]. split; [reflexivity|].
  now apply of_string_one_decimal.
Qed.

(** C8.  The summary of a record whose sequence is a string is made of four
    lines; the second one shows the target value rounded to one decimal
    place when the record has one, zero included, and [None] when it has
    none.  Rounded to one decimal place: what is shown is the [repr] of the
    float that [float] reads from a numeral with one digit after the point,
    the numeral of [k] tenths, where [k] is the integer nearest to ten times
    the target value, the even one when two are as near; a zero, an
    infinity and a NaN are shown as they are. *)
Theorem summary_value_line (self : t) (s : string) :
  sequence self = Some s ->
  exists value : string,
    __str__ self =
    Ok ("ID: " ++ format_str (identifier self) ++ nl
        ++ "Value: " ++ value ++ nl
        ++ "Description: " ++ format_str (description self) ++ nl
        ++ "Sequence length: " ++ of_nat (String.length s) ++ nl)
    /\ match target_value self with
       | Some x =>
         value = repr (round x 1) /\ rounded_to_tenth x (round x 1)
       | None => value = "None"
       end.
Proof.
  intros Hs. unfold __str__. rewrite Hs. cbn [len bind].
  destruct (target_value self) as [x|]; [|now exists "None"].
  exists (repr (round x 1)). split; [|split; [reflexivity | apply round_to_tenth]].
  destruct (truthy x) eqn:Hx; [reflexivity|].
  cbn [format_float]. now rewrite (round_falsy x 1 Hx).
Qed.

Lemma summary_value_line_witness :
  let quarter := S754_finite false 4503599627370496 (-54) in
  let r := Examples.record "Id1" (Some quarter) "My description" "ACGT" in
  let z := Examples.record "Id1" (Some zero) "My description" "ACGT" in
  of_string "0.25" = Some quarter
  /\ round quarter 1 = of_decimal false 2 (-1)
  /\ __str__ r =
     Ok ("ID: Id1" ++ nl ++ "Value: 0.2" ++ nl
         ++ "Description: My description" ++ nl
         ++ "Sequence length: 4" ++ nl)
  /\ __str__ z =
     Ok ("ID: Id1" ++ nl ++ "Value: 0.0" ++ nl
         ++ "Description: My description" ++ nl
         ++ "Sequence length: 4" ++ nl)
  /\ (exists value : string,
        __str__ r =
        Ok ("ID: " ++ format_str (identifier r) ++ nl
            ++ "Value: " ++ value ++ nl
            ++ "Description: " ++ format_str (description r) ++ nl
            ++ "Sequence length: " ++ of_nat (String.length "ACGT") ++ nl)
        /\ match target_value r with
           | Some x =>
             value = repr (round x 1) /\ rounded_to_tenth x (round x 1)
           | None => value = "None"
           end).
Proof.
  intros quarter r z.
  split; [vm_compute; reflexivity|]. split; [vm_compute; reflexivity|].
  split; [vm_compute; reflexivity|]. split; [vm_compute; reflexivity|].
  exact (summary_value_line r "ACGT" eq_refl).
Defined.

End Rounded.
